(** * Agastya: DMC derivation, AsciiDoc assembly and hierarchy search

    A shallow embedding of the pure logic of the Electron converters
    module ([processDMC], [createS1000DHeader], [createProceduralFooter],
    [cleanupAdocContent] and the text assembly of [convertDocxToAdoc]) and
    of the DM code generator page ([updateResult], [filterSystemData]).

    JavaScript strings are sequences of UTF-16 code units; they are
    modelled as lists of code units, a code unit being a number. *)

From Stdlib Require Import String Ascii.
From Stdlib Require Import DecimalString DecimalNat.
From Stdlib Require Import List NArith ZArith Lia Bool.
Import ListNotations.

(* ================================================================= *)
(** ** JavaScript string primitives *)

Module JS.

Definition char := N.
Definition jsstring := list char.

(** An ASCII literal of the source as a list of code units. *)
Definition js (s : String.string) : jsstring :=
  map N_of_ascii (String.list_ascii_of_string s).
Arguments js s%_string.

Definition jsstring_eqb (a b : jsstring) : bool :=
  if list_eq_dec N.eq_dec a b then true else false.

(** [s.split(sep)] for a one-character separator: never empty, the empty
    string splits into one empty segment. *)
Fixpoint split (sep : char) (s : jsstring) : list jsstring :=
  match s with
  | [] => [[]]
  | c :: s' =>
      if N.eqb c sep then [] :: split sep s'
      else match split sep s' with
           | seg :: segs => (c :: seg) :: segs
           | [] => [[c]]
           end
  end.

(** [parts.join(sep)], also the shape of a template literal
    [`${a}-${b}-...`]. *)
Fixpoint join (sep : jsstring) (parts : list jsstring) : jsstring :=
  match parts with
  | [] => []
  | [p] => p
  | p :: ps => p ++ sep ++ join sep ps
  end.

(** [s[i]]: the one-character string at index [i], or [undefined]. *)
Definition index (s : jsstring) (i : nat) : option jsstring :=
  match nth_error s i with
  | Some c => Some [c]
  | None => None
  end.

(** [x || ''] where [x] is a string or [undefined]: the empty string is the
    only falsy string. *)
Definition or_empty (x : option jsstring) : jsstring :=
  match x with
  | Some s => s
  | None => []
  end.

(** [String.prototype.slice(start, end)]: negative positions count from the
    end, both are clamped to [0, length]. *)
Definition clamp_pos (len : Z) (p : Z) : Z :=
  if (p <? 0)%Z then Z.max (len + p) 0 else Z.min p len.

Definition slice (s : jsstring) (start : Z) (stop : option Z) : jsstring :=
  let len := Z.of_nat (length s) in
  let from := clamp_pos len start in
  let to := match stop with
            | Some e => clamp_pos len e
            | None => len
            end in
  firstn (Z.to_nat (Z.max (to - from) 0)) (skipn (Z.to_nat from) s).

(** [s.padStart(n, '0')]. *)
Definition padStart (n : nat) (fill : char) (s : jsstring) : jsstring :=
  repeat fill (n - length s) ++ s.

(** [hay.includes(needle)]. *)
Fixpoint starts_with (needle hay : jsstring) : bool :=
  match needle, hay with
  | [], _ => true
  | _ :: _, [] => false
  | a :: needle', b :: hay' => N.eqb a b && starts_with needle' hay'
  end.

Fixpoint includes (hay needle : jsstring) : bool :=
  starts_with needle hay ||
  match hay with
  | [] => false
  | _ :: hay' => includes hay' needle
  end.

(** WhiteSpace and LineTerminator code points of ECMAScript: what [\s]
    matches and what [trim] strips. *)
Definition is_line_terminator (c : char) : bool :=
  (N.eqb c 10 || N.eqb c 13 || N.eqb c 8232 || N.eqb c 8233)%N.

Definition is_space (c : char) : bool :=
  ((N.leb 9 c && N.leb c 13) || N.eqb c 32 || N.eqb c 160 || N.eqb c 5760
   || (N.leb 8192 c && N.leb c 8202) || N.eqb c 8232 || N.eqb c 8233
   || N.eqb c 8239 || N.eqb c 8287 || N.eqb c 12288 || N.eqb c 65279)%N.

Fixpoint trimStart (s : jsstring) : jsstring :=
  match s with
  | c :: s' => if is_space c then trimStart s' else s
  | [] => []
  end.

Definition trimEnd (s : jsstring) : jsstring := rev (trimStart (rev s)).

Definition trim (s : jsstring) : jsstring := trimEnd (trimStart s).

End JS.
Import JS.

(* ================================================================= *)
(** ** Regular expressions of the source

    A backtracking matcher for the fragment of ECMAScript regular
    expressions that [cleanupAdocContent] uses: sequences of single
    characters, character classes, greedy and lazy repetitions of one
    class, the assertions [^] and [$] under the [m] flag and one capture
    group. Alternatives are tried in the order of the ECMAScript matcher,
    so the first success is the match [RegExp.prototype.exec] reports. *)

Module Regex.

Inductive cset :=
| Dot                 (* [.]  anything but a line terminator *)
| Space               (* [\s] *)
| Lit (c : char).     (* a literal character *)

Definition cset_match (cs : cset) (c : char) : bool :=
  match cs with
  | Dot => negb (is_line_terminator c)
  | Space => is_space c
  | Lit d => N.eqb c d
  end.

Inductive atom :=
| One (cs : cset)
| Rep (greedy : bool) (min : nat) (cs : cset)   (* [cs{min,}], [cs{min,}?] *)
| Bol                                           (* [^] with the [m] flag *)
| Eol                                           (* [$] with the [m] flag *)
| Open                                          (* [(] of group 1 *)
| Close.                                        (* [)] of group 1 *)

Definition regex := list atom.

(** Matcher state: the character before the current position, the number
    of characters matched so far, where group 1 was opened and what it
    captured (as offsets from the start of the match). *)
Record st := mk_st {
  prev : option char;
  pos : nat;
  gopen : nat;
  group : option (nat * nat)
}.

Definition start (p : option char) : st := mk_st p 0 0 None.

Definition step (c : char) (x : st) : st :=
  mk_st (Some c) (S (pos x)) (gopen x) (group x).

Definition open_group (x : st) : st :=
  mk_st (prev x) (pos x) (pos x) (group x).

Definition close_group (x : st) : st :=
  mk_st (prev x) (pos x) (gopen x) (Some (gopen x, pos x)).

Definition at_bol (x : st) : bool :=
  match prev x with
  | None => true
  | Some c => is_line_terminator c
  end.

Definition at_eol (s : jsstring) : bool :=
  match s with
  | [] => true
  | c :: _ => is_line_terminator c
  end.

Definition cont := st -> jsstring -> option st.

(** Repetition of one class, at least [min] times, followed by [k]. The
    greedy form first tries one more character, the lazy form first tries
    the continuation. *)
Fixpoint rep (greedy : bool) (cs : cset) (k : cont) (min : nat)
         (x : st) (s : jsstring) {struct s} : option st :=
  match min with
  | S min' =>
      match s with
      | c :: s' =>
          if cset_match cs c then rep greedy cs k min' (step c x) s' else None
      | [] => None
      end
  | O =>
      if greedy then
        match s with
        | c :: s' =>
            if cset_match cs c then
              match rep greedy cs k O (step c x) s' with
              | Some m => Some m
              | None => k x s
              end
            else k x s
        | [] => k x s
        end
      else
        match k x s with
        | Some m => Some m
        | None =>
            match s with
            | c :: s' =>
                if cset_match cs c then rep greedy cs k O (step c x) s'
                else None
            | [] => None
            end
        end
  end.

Definition atom_match (a : atom) (k : cont) : cont :=
  fun x s =>
    match a with
    | One cs =>
        match s with
        | c :: s' => if cset_match cs c then k (step c x) s' else None
        | [] => None
        end
    | Rep greedy min cs => rep greedy cs k min x s
    | Bol => if at_bol x then k x s else None
    | Eol => if at_eol s then k x s else None
    | Open => k (open_group x) s
    | Close => k (close_group x) s
    end.

Fixpoint run (r : regex) : cont :=
  match r with
  | [] => fun x _ => Some x
  | a :: r' => atom_match a (run r')
  end.

(** The match starting exactly at the current position, if any; [p] is the
    character before it. *)
Definition match_here (r : regex) (p : option char) (s : jsstring)
  : option st :=
  run r (start p) s.

(** Replacement strings of the source: plain text, or ['$1']. *)
Inductive replacement :=
| Text (t : jsstring)
| Group1.

Definition substitution (rp : replacement) (s : jsstring) (m : st)
  : jsstring :=
  match rp with
  | Text t => t
  | Group1 =>
      match group m with
      | Some (a, b) => firstn (b - a) (skipn a s)
      | None => []
      end
  end.

(** [s.replace(/r/g, rp)]: scan left to right; at each position not inside
    the previous match try the expression; a match is replaced and the scan
    resumes after it (one character further when the match is empty, that
    character being kept). [skip] counts the characters of the current
    match still to be dropped. *)
Fixpoint replace_from (r : regex) (rp : replacement) (p : option char)
         (s : jsstring) (skip : nat) {struct s} : jsstring :=
  match skip with
  | S n =>
      match s with
      | c :: s' => replace_from r rp (Some c) s' n
      | [] => []
      end
  | O =>
      match match_here r p s with
      | Some m =>
          substitution rp s m ++
          match s with
          | c :: s' =>
              match pos m with
              | O => c :: replace_from r rp (Some c) s' O
              | S n => replace_from r rp (Some c) s' n
              end
          | [] => []
          end
      | None =>
          match s with
          | c :: s' => c :: replace_from r rp (Some c) s' O
          | [] => []
          end
      end
  end.

Definition replace (r : regex) (rp : replacement) (s : jsstring) : jsstring :=
  replace_from r rp None s 0.

(** A sequence of literal characters. *)
Definition lits (w : jsstring) : regex := map (fun c => One (Lit c)) w.

End Regex.
Import Regex.

(* ================================================================= *)
(** ** The converters module *)

Module Converters.

Record dmc_result := mk_dmc_result {
  dmc : jsstring;
  docType : jsstring
}.

Definition dash : char := 45%N.

(** [processDMC(baseCode)] *)
Definition processDMC (baseCode : jsstring) : dmc_result :=
  let parts := split dash baseCode in
  match parts with
  | [p1; p2; p3; p4; p5; p6; p7; p8; p9] =>
      let subSystemCode := or_empty (index p4 0) in
      let subSubSystemCode := or_empty (index p4 1) in
      let disassyCode := or_empty (Some (slice p7 0 (Some (-1)%Z))) in
      let disassyCodeVariant := or_empty (Some (slice p7 (-1) None)) in
      let infoCode := or_empty (Some (slice p8 0 (Some (-1)%Z))) in
      let infoCodeVariant := or_empty (Some (slice p8 (-1) None)) in
      let dmc :=
        p1 ++ js "-" ++ p2 ++ js "-" ++ p3 ++ js "-" ++ subSystemCode
           ++ js "-" ++ subSubSystemCode ++ js "-" ++ p5 ++ js "-" ++ p6
           ++ js "-" ++ disassyCode ++ js "-" ++ disassyCodeVariant
           ++ js "-" ++ infoCode ++ js "-" ++ infoCodeVariant
           ++ js "-" ++ p9 in
      let docType :=
        if jsstring_eqb infoCode (js "000") then js "proced"
        else js "descript" in
      mk_dmc_result dmc docType
  | _ => mk_dmc_result baseCode (js "descript")
  end.

(** The number of hyphen-delimited segments of a code. *)
Definition segment_count (code : jsstring) : nat := length (split dash code).

(** [cleanupAdocContent(content)]: the five [replace] calls in order. *)
Definition re_trailing_plus : regex :=           (* /(.+?)\s*\+\s*$/gm *)
  [Open; Rep false 1 Dot; Close; Rep true 0 Space; One (Lit 43%N);
   Rep true 0 Space; Eol].

Definition re_plus_token : regex :=              (* /^\s*\{plus\}\s*$/gm *)
  [Bol; Rep true 0 Space] ++ lits (js "{plus}") ++ [Rep true 0 Space; Eol].

Definition re_after_open : regex :=              (* /(--\n)\s+/g *)
  [Open] ++ lits [45; 45; 10]%N ++ [Close; Rep true 1 Space].

Definition re_before_close : regex :=            (* /\s+(\n--)/g *)
  [Rep true 1 Space; Open] ++ lits [10; 45; 45]%N ++ [Close].

Definition re_thematic_break : regex :=          (* /\s*^\s*-{3,}\s*$\s*/gm *)
  [Rep true 0 Space; Bol; Rep true 0 Space; Rep true 3 (Lit 45%N);
   Rep true 0 Space; Eol; Rep true 0 Space].

Definition thematic_break : jsstring := [10; 10; 45; 45; 45; 10; 10]%N.

Definition cleanupAdocContent (content : jsstring) : jsstring :=
  let content := replace re_trailing_plus Group1 content in
  let content := replace re_plus_token (Text (js "+")) content in
  let content := replace re_after_open Group1 content in
  let content := replace re_before_close Group1 content in
  let content := replace re_thematic_break (Text thematic_break) content in
  content.

(** The two header templates of [createS1000DHeader], each as the text
    before and after [${dmc}]. *)
Definition procedural_head : jsstring := js "= My Procedural Data Module
:dmc: DMC-".

Definition procedural_tail : jsstring := js "
:dm-type: procedural
:issue-number: 001
:issue-date: 2023-10-26
:tech-name: Comprehensive Converter Test Procedure
:dm-title: Step-by-Step Guide
:revdate: 2025-09-02
:in-work: 00
:lang: en
:country-code: IN
:security-classification: 01
:responsible-partner-company: LNTDEFENCE
:enterprise-code-rpc: 1671Y
:originator-enterprise: LNTDEFENCE
:enterprise-code-originator: 1671Y
:applicability: All applicable units and serial numbers.
:brex-dmc: DMC-GSV-H-041-1-0-0301-00-A-022-A-D
:reason-for-update: Initial draft for demonstration purposes.
:s1000d-schema-base-path: http://www.s1000d.org/S1000D_4-2/xml_schema_flat/

[[prelim_reqs]]
== Preliminary Requirements

[[required_conditions_pr]]
=== Required Conditions

[[required_persons_pr]]
=== Required Persons

[[required_tech_info_pr]]
=== Required Technical Information

[[required_equip_pr]]
=== Required Support Equipment

[[required_supplies_pr]]
=== Required Supplies

[[required_spares_pr]]
=== Required Spares

[[required_safety_pr]]
=== Required Safety

[[main_proc_steps]]
== Main Procedure

".

Definition descriptive_head : jsstring := js ":dmc: DMC-".

Definition descriptive_tail : jsstring := js "
:dm-type: descript
:issue-number: 001
:dm-title: Sample Descriptive Module
:revdate: 2025-09-02
:in-work: 00
:lang: en
:country-code: IN
:security-classification: 01
:responsible-partner-company: LNTDEFENCE
:enterprise-code-rpc: 1671Y
:originator-enterprise: LNTDEFENCE
:enterprise-code-originator: 1671Y
:applicability: All applicable units and serial numbers.
:brex-dmc: DMC-GSV-H-041-1-0-0301-00-A-022-A-D
:reason-for-update: Initial draft for demonstration purposes.

".

Definition procedural_header (dmc : jsstring) : jsstring :=
  procedural_head ++ dmc ++ procedural_tail.

Definition descriptive_header (dmc : jsstring) : jsstring :=
  descriptive_head ++ dmc ++ descriptive_tail.

(** [createS1000DHeader(dmc, docType)] *)
Definition createS1000DHeader (dmc docType : jsstring) : jsstring :=
  if jsstring_eqb docType (js "proced") then procedural_header dmc
  else descriptive_header dmc.

(** [createProceduralFooter()] *)
Definition createProceduralFooter : jsstring := js "

[[closeout_reqs]]
== Closeout Requirements

[[closeout_conds_after]]
=== Required Conditions After Job Completion

".

(** [s.replace(pat, rep)] with a string pattern: the first occurrence
    only. *)
Fixpoint replace_first (pat rep s : jsstring) : jsstring :=
  if starts_with pat s then rep ++ skipn (length pat) s
  else match s with
       | [] => []
       | c :: s' => c :: replace_first pat rep s'
       end.

(** The text that [convertDocxToAdoc] writes, from the content Pandoc
    generated, the input file's base name and the requested document
    type. *)
Definition finalContent (content filename docType : jsstring) : jsstring :=
  let baseCode := replace_first (js "DMC-") [] filename in
  let dmc := dmc (processDMC baseCode) in
  let header := createS1000DHeader dmc docType in
  let cleanedContent := cleanupAdocContent content in
  if jsstring_eqb docType (js "proced")
  then header ++ cleanedContent ++ createProceduralFooter
  else header ++ cleanedContent.

(** The outcome of a step that may throw. *)
Inductive completion (A : Type) :=
| Normal (v : A)
| Throw (message : jsstring).
Arguments Normal {A} v.
Arguments Throw {A} message.

(** [{ success: true, message }] or [{ success: false, error }]. *)
Inductive conversion_result :=
| Converted (message : jsstring)
| Failed (error : jsstring).

(** [convertDocxToAdoc(inputPath, outputPath, options)]. The external
    steps are arguments: [pandoc] is the outcome of locating and running
    Pandoc and reading its output back, [writeFile] the outcome of writing
    the final text; [options] is [options.docType], if given. Whatever is
    thrown is caught and reported as a failure. *)
Definition convertDocxToAdoc (pandoc : completion jsstring)
           (writeFile : jsstring -> completion unit)
           (filename : jsstring) (options : option jsstring)
  : conversion_result :=
  let docType := match options with
                 | Some d => d
                 | None => js "descript"
                 end in
  match pandoc with
  | Throw e => Failed e
  | Normal content =>
      match writeFile (finalContent content filename docType) with
      | Throw e => Failed e
      | Normal _ =>
          Converted (js "Converted to " ++ docType ++ js " format")
      end
  end.

End Converters.
Import Converters.

(* ================================================================= *)
(** ** The DM code generator page *)

Module DmCodeGenerator.

(** [!s] for a string: only the empty string is falsy. *)
Definition falsy (s : jsstring) : bool :=
  match s with
  | [] => true
  | _ :: _ => false
  end.

(** [String(i)] for a non-negative integer: its decimal digits. *)
Definition String_of_nat (i : nat) : jsstring :=
  js (NilEmpty.string_of_uint (Nat.to_uint i)).

(** What [updateResult] reads: the input fields, the selection made in the
    tree and in the info code table, and the per-unit inputs of the
    disassembly code table. [unitCountParsed] is
    [parseInt(unitCountInput.value)], [None] standing for [NaN];
    [dcInput i] is the value of [input[data-unit="i"]] when that element
    exists. *)
Record page := mk_page {
  modelInput : jsstring;
  sdcInput : jsstring;
  dmvInput : jsstring;
  unitCountParsed : option Z;
  infoCodeVariantInput : jsstring;
  selectedBaseInfoCode : jsstring;
  selectedSystemCode : jsstring;
  selectedSubsystemCode : jsstring;
  dcInput : nat -> option jsstring
}.

(** [parseInt(unitCountInput.value) || 0] *)
Definition unitCount (p : page) : Z :=
  match unitCountParsed p with
  | Some n => n
  | None => 0%Z
  end.

(** [(dcInput ? dcInput.value.trim() : "00").padStart(2, '0')] *)
Definition dcCode (p : page) (i : nat) : jsstring :=
  padStart 2 48%N
    (match dcInput p i with
     | Some value => trim value
     | None => js "00"
     end).

Definition finalInfoCode (p : page) : jsstring :=
  if falsy (selectedBaseInfoCode p) then js "000"
  else selectedBaseInfoCode p ++ trim (infoCodeVariantInput p).

(** The template literal bound to [fullCode] for one unit. *)
Definition unitFullCode (p : page) (unitCode : jsstring) (i : nat) : jsstring :=
  let model := trim (modelInput p) in
  let sdc := trim (sdcInput p) in
  let dmv := trim (dmvInput p) in
  let combinedSystemCode :=
    selectedSystemCode p ++ js "-" ++ selectedSubsystemCode p in
  let itemLocationCode := js "D" in
  model ++ js "-" ++ sdc ++ js "-" ++ combinedSystemCode ++ js "-"
        ++ unitCode ++ js "-" ++ dcCode p i ++ dmv ++ js "-"
        ++ finalInfoCode p ++ js "-" ++ itemLocationCode.

(** [for (let i = 1; i <= unitCount; i++) { ...; codes.push(fullCode) }]:
    [n] iterations remain, the next one is for unit [i]. *)
Fixpoint push_units (p : page) (n : nat) (i : nat) (codes : list jsstring)
  : list jsstring :=
  match n with
  | O => codes
  | S n' =>
      let unitCode := padStart 2 48%N (String_of_nat i) in
      push_units p n' (S i) (codes ++ [unitFullCode p unitCode i])
  end.

(** [updateResult()]: the array [codes] that is rendered and handed to
    [renderDownloadButtons]. *)
Definition updateResult (p : page) : list jsstring :=
  let model := trim (modelInput p) in
  let sdc := trim (sdcInput p) in
  let dmv := trim (dmvInput p) in
  if falsy model || falsy sdc || falsy (selectedSystemCode p)
     || (1 <? length dmv)
  then []
  else if (unitCount p <=? 0)%Z then [unitFullCode p (js "00") 0]
  else push_units p (Z.to_nat (unitCount p)) 1 [].

(** A node of the hierarchy, as [createNode] builds it. *)
Unset Elimination Schemes.
Inductive node := mk_node {
  level : jsstring;
  code : jsstring;
  title : jsstring;
  definition : jsstring;
  children : list node;
  systemCode : jsstring;
  subsystemCode : option jsstring;
  label : jsstring;
  fullCode : jsstring
}.
Set Elimination Schemes.

(** [createNode(level, code, title, definition, systemCode, subsystemCode,
    children)]; [subsystemCode] may be [null]. *)
Definition createNode (level code title definition systemCode : jsstring)
           (subsystemCode : option jsstring) (children : list node) : node :=
  mk_node level code title definition children systemCode subsystemCode
          (code ++ js " - " ++ title)
          (match subsystemCode with
           | Some sub =>
               if falsy systemCode then code
               else if falsy sub then systemCode
                    else systemCode ++ js "-" ++ sub
           | None => if falsy systemCode then code else systemCode
           end).

(** [{ ...node, children: c }] *)
Definition with_children (n : node) (c : list node) : node :=
  mk_node (level n) (code n) (title n) (definition n) c (systemCode n)
          (subsystemCode n) (label n) (fullCode n).

(** [nodes.map(f).filter(Boolean)] where [f] returns a node or [null]. *)
Definition map_filter {A B : Type} (f : A -> option B) : list A -> list B :=
  fix go (l : list A) : list B :=
    match l with
    | [] => []
    | a :: l' =>
        match f a with
        | Some b => b :: go l'
        | None => go l'
        end
    end.

Section Search.

(** [String.prototype.toLowerCase], which follows the Unicode case
    mappings, is left abstract. *)
Variable toLowerCase : jsstring -> jsstring.

(** The callback of [nodes.map] inside [filterNodes]. *)
Fixpoint filterNode (query : jsstring) (n : node) : option node :=
  let selfMatch := includes (toLowerCase (label n)) query in
  let filteredChildren := map_filter (filterNode query) (children n) in
  if selfMatch || (0 <? length filteredChildren)
  then Some (with_children n
               (if selfMatch then children n else filteredChildren))
  else None.

Definition filterNodes (query : jsstring) (nodes : list node) : list node :=
  map_filter (filterNode query) nodes.

(** [filterSystemData(query)], with the global [fullSystemData] as an
    argument. *)
Definition filterSystemData (fullSystemData : list node) (query : jsstring)
  : list node :=
  let query := toLowerCase (trim query) in
  if falsy query then fullSystemData
  else filterNodes query fullSystemData.

End Search.

End DmCodeGenerator.
Import DmCodeGenerator.

(* ================================================================= *)
(** ** Vocabulary of the properties *)

Module Properties.

(** The twelve pieces that [processDMC] joins for a 9-segment input. *)
Definition upgraded_segments (parts : list jsstring) : list jsstring :=
  match parts with
  | [p1; p2; p3; p4; p5; p6; p7; p8; p9] =>
      [p1; p2; p3; or_empty (index p4 0); or_empty (index p4 1); p5; p6;
       slice p7 0 (Some (-1)%Z); slice p7 (-1) None;
       slice p8 0 (Some (-1)%Z); slice p8 (-1) None; p9]
  | _ => parts
  end.

Definition no_dash (s : jsstring) : bool :=
  forallb (fun c => negb (N.eqb c dash)) s.

Definition spec_example : jsstring := js "MODEL-SDC-SYS-12-00-AB1-CD2-E".

(** The reading of "the code upgrades to these segments": the result is a
    twelve-segment code carrying the six named segments at their places. *)
Definition upgrades_to (r : dmc_result)
           (sub subsub dis disv info infov dt : jsstring) : Prop :=
  exists p1 p2 p3 p5 p6 p9,
    split dash (dmc r)
    = [p1; p2; p3; sub; subsub; p5; p6; dis; disv; info; infov; p9]
    /\ docType r = dt.

(** A file name is rejected when the conversion fails on its account,
    whatever Pandoc produced and whatever type was asked for. *)
Definition rejects (filename : jsstring) : Prop :=
  forall content options,
  exists e,
    convertDocxToAdoc (Normal content) (fun _ => Normal tt) filename options
    = Failed e.

(** The code that goes into the header. *)
Definition header_code (filename : jsstring) : jsstring :=
  dmc (processDMC (replace_first (js "DMC-") [] filename)).

(** A continuation needs [w] when it can only succeed on input that has
    [w] somewhere. *)
Definition needs (w : jsstring) (k : cont) : Prop :=
  forall x s m, k x s = Some m -> includes s w = true.

(** The guard of [updateResult]: model, SDC and system present and at most
    one character of variant. *)
Definition inputs_complete (p : page) : bool :=
  negb (falsy (trim (modelInput p)) || falsy (trim (sdcInput p))
        || falsy (selectedSystemCode p)
        || (1 <? length (trim (dmvInput p)))).

(** The code of one unit, as segments. *)
Definition code_of (p : page) (unitCode dc : jsstring) : jsstring :=
  join [dash]
    [trim (modelInput p); trim (sdcInput p); selectedSystemCode p;
     selectedSubsystemCode p; unitCode; dc ++ trim (dmvInput p);
     finalInfoCode p; js "D"].

Definition two_digits (i : nat) : jsstring := padStart 2 48%N (String_of_nat i).

(** Sample pages: system 041-10 selected, no per-unit input made; the
    first lacks the model. *)
Definition page_without_model (count : option Z) : page :=
  mk_page [] (js "H") [] count [] [] (js "041") (js "10") (fun _ => None).

Definition sample_page (count : option Z) : page :=
  mk_page (js "GSV") (js "H") [] count [] [] (js "041") (js "10")
          (fun i => if i =? 2 then Some (js " ") else None).

(** Induction on a node with the property known for all its children. *)
Section NodeInduction.

Variable P : node -> Prop.
Hypothesis P_node : forall n, Forall P (children n) -> P n.

Fixpoint node_induction (n : node) : P n :=
  P_node n
    ((fix all_children (l : list node) : Forall P l :=
        match l with
        | [] => Forall_nil P
        | m :: l' => Forall_cons m (node_induction m) (all_children l')
        end) (children n)).

End NodeInduction.




(** A sample tree and ASCII lower-casing, to run the search on. *)
Definition ascii_lower (s : jsstring) : jsstring :=
  map (fun c => if (N.leb 65 c && N.leb c 90)%N then (c + 32)%N else c) s.

Definition brake_leaf : node :=
  createNode (js "subsystem") (js "32-40") (js "Brake Assembly") []
             (js "32") (Some (js "3240")) [].

Definition gear_leaf : node :=
  createNode (js "subsystem") (js "32-10") (js "Main Gear") []
             (js "32") (Some (js "3210")) [].

Definition landing_gear : node :=
  createNode (js "system") (js "32") (js "Landing Gear") []
             (js "32") None [gear_leaf; brake_leaf].

Definition airframe : node :=
  createNode (js "group") (js "A") (js "Airframe Systems") []
             (js "A") None [landing_gear].

End Properties.
Import Properties.

(* ================================================================= *)
(** ** The classification files and their transformers *)

Module HierarchySources.

(** Entries of a classification file, as parsed JSON of the shape the
    transformers expect: the key of an entry may be missing (or be the
    empty string, which is as falsy), title and definition are strings, the
    list of sub-entries may be missing. The four files name these fields
    differently; the names are given with each transformer. *)
Record raw_subsystem := mk_raw_subsystem {
  sub_key : option jsstring;
  sub_title : jsstring;
  sub_definition : jsstring
}.

Record raw_system := mk_raw_system {
  sys_key : option jsstring;
  sys_title : jsstring;
  sys_definition : jsstring;
  sys_subs : option (list raw_subsystem)
}.

Record raw_group := mk_raw_group {
  grp_key : option jsstring;
  grp_title : jsstring;
  grp_systems : option (list raw_system)
}.

(** [x || []] *)
Definition or_nil {A : Type} (l : option (list A)) : list A :=
  match l with
  | Some l => l
  | None => []
  end.

(** [l.filter(a => a.key).map(a => build(a.key, a))]: the entries whose key
    is a non-empty string, each built from its key. *)
Definition with_key {A B : Type} (key : A -> option jsstring)
           (build : jsstring -> A -> B) (l : list A) : list B :=
  map_filter (fun a =>
                match key a with
                | Some (c :: k) => Some (build (c :: k) a)
                | _ => None
                end) l.

(** The subsystem nodes of a system: [sub.subsystem_code.replace('-', '')]
    is the subsystem code that goes into the DM code. *)
Definition subsystem_nodes (systemCode : jsstring)
           (subs : option (list raw_subsystem)) : list node :=
  with_key sub_key
    (fun subcode sub =>
       createNode (js "subsystem") subcode (sub_title sub)
                  (sub_definition sub) systemCode
                  (Some (replace_first (js "-") [] subcode)) [])
    (or_nil subs).

Definition system_nodes (systems : option (list raw_system)) : list node :=
  with_key sys_key
    (fun code system =>
       createNode (js "system") code (sys_title system)
                  (sys_definition system) code None
                  (subsystem_nodes code (sys_subs system)))
    (or_nil systems).

(** [transformAtaData(rawData)]: keys [system_id], [system_title],
    [tables]; [system_code], [title], [definition], [subsystems];
    [subsystem_code], [title], [definition]. *)
Definition transformAtaData (rawData : list raw_group) : list node :=
  with_key grp_key
    (fun id group =>
       createNode (js "group") id (grp_title group) [] id None
                  (system_nodes (grp_systems group)))
    rawData.

(** [transformGSVData(rawData)]: keys [system_letter], [system_title],
    [subsystems]; [system_code], [title], [definition], [sub_subsystems];
    [subsystem_code], [title], [definition]. *)
Definition transformGSVData (rawData : list raw_group) : list node :=
  with_key grp_key
    (fun letter group =>
       createNode (js "group") letter (grp_title group) [] letter None
                  (system_nodes (grp_systems group)))
    rawData.

(** [s.replace(/_/g, ' ')] *)
Definition underscores_to_spaces (s : jsstring) : jsstring :=
  map (fun c => if N.eqb c 95 then 32%N else c) s.

(** [transformLegacyGeneralData(rawData)]: [rawData] is an object, given
    here as its keys in the order of [Object.keys] with their values (a
    list of systems, or something falsy); the systems have keys [System],
    [Title], [Definition], [Subsystems], the subsystems [Subsystem],
    [Title], [Definition]. Without any key, [topKey] is [undefined] and
    [topKey.replace] throws a TypeError. *)
Definition transformLegacyGeneralData
           (rawData : list (jsstring * option (list raw_system)))
  : completion (list node) :=
  match rawData with
  | [] => Throw (js "Cannot read properties of undefined (reading 'replace')")
  | (topKey, groupData) :: _ =>
      let groupId :=
        underscores_to_spaces (trim (replace_first (js "=") [] topKey)) in
      Normal [createNode (js "group") groupId groupId [] groupId None
                         (system_nodes groupData)]
  end.

(** [transformLegacySupportData(rawData)]: [rawData] may be falsy, and so
    may its [System_categories]; the categories have keys [System],
    [Title], [Subsystems], their systems [System], [Title], [Definition]
    and get no children. *)
Definition transformLegacySupportData
           (rawData : option (option (list raw_group))) : list node :=
  match rawData with
  | Some (Some System_categories) =>
      with_key grp_key
        (fun code group =>
           createNode (js "group") code (grp_title group) [] code None
             (with_key sys_key
                (fun syscode system =>
                   createNode (js "system") syscode (sys_title system)
                              (sys_definition system) syscode None [])
                (or_nil (grp_systems group))))
        System_categories
  | _ => []
  end.

End HierarchySources.
Import HierarchySources.

(* ================================================================= *)
(** ** The tree view, the table of units and the download buttons *)

Module GeneratorPage.

(** The double quote. *)
Definition dq : jsstring := [34%N].

(** [DOMTokenList]: the classes of an element as an ordered set of
    tokens. *)
Definition contains (tokens : list jsstring) (t : jsstring) : bool :=
  existsb (jsstring_eqb t) tokens.

Definition classList_add (t : jsstring) (tokens : list jsstring)
  : list jsstring :=
  if contains tokens t then tokens else tokens ++ [t].

Definition classList_remove (t : jsstring) (tokens : list jsstring)
  : list jsstring :=
  filter (fun u => negb (jsstring_eqb t u)) tokens.

(** [classList.replace(old, new)]: nothing without [old]; otherwise the
    first of [old] and [new] becomes [new] and every other one goes. *)
Fixpoint replace_token (old new : jsstring) (tokens : list jsstring)
  : list jsstring :=
  match tokens with
  | [] => []
  | t :: rest =>
      if jsstring_eqb old t || jsstring_eqb new t
      then new :: classList_remove old (classList_remove new rest)
      else t :: replace_token old new rest
  end.

Definition classList_replace (old new : jsstring) (tokens : list jsstring)
  : list jsstring :=
  if contains tokens old then replace_token old new tokens else tokens.

(** The tokens of a [className]: split at ASCII white space, without
    empty tokens or repetitions. *)
Definition is_ascii_space (c : char) : bool :=
  (N.eqb c 9 || N.eqb c 10 || N.eqb c 12 || N.eqb c 13 || N.eqb c 32)%N.

Fixpoint words (s : jsstring) : list jsstring :=
  match s with
  | [] => [[]]
  | c :: s' =>
      if is_ascii_space c then [] :: words s'
      else match words s' with
           | w :: ws => (c :: w) :: ws
           | [] => [[c]]
           end
  end.

Definition class_tokens (className : jsstring) : list jsstring :=
  fold_left (fun tokens t => classList_add t tokens)
            (filter (fun w => negb (falsy w)) (words className)) [].

(** A click listener with the data it closes over: the one [buildTree]
    attaches to a group, the one [renderChildren] attaches to a child. *)
Inductive click_listener :=
| GroupListener (groupData : node)
| ChildListener (childData : node).

(** An element of the tree container. Its [dataset] holds strings: the DOM
    turns what is stored there into a string, [null] into the text
    [null]. *)
Record tree_item := mk_tree_item {
  classList : list jsstring;
  innerHTML : jsstring;
  title_attr : jsstring;
  ds_level : jsstring;
  ds_code : jsstring;
  ds_systemCode : jsstring;
  ds_subsystemCode : jsstring;
  ds_fullCode : jsstring;
  ds_titleText : jsstring;
  onclick : option click_listener
}.

Definition set_classList (tokens : list jsstring) (it : tree_item)
  : tree_item :=
  mk_tree_item tokens (innerHTML it) (title_attr it) (ds_level it)
               (ds_code it) (ds_systemCode it) (ds_subsystemCode it)
               (ds_fullCode it) (ds_titleText it) (onclick it).

Definition addEventListener (l : click_listener) (it : tree_item)
  : tree_item :=
  mk_tree_item (classList it) (innerHTML it) (title_attr it) (ds_level it)
               (ds_code it) (ds_systemCode it) (ds_subsystemCode it)
               (ds_fullCode it) (ds_titleText it) (Some l).

(** What the DOM stores for [item.dataset.x = v]. *)
Definition dataset_string (v : option jsstring) : jsstring :=
  match v with
  | Some s => s
  | None => js "null"
  end.

(** [hierarchyLevels[level]]: any other key gives nothing that compares. *)
Definition hierarchyLevels (level : jsstring) : option nat :=
  if jsstring_eqb level (js "group") then Some 0
  else if jsstring_eqb level (js "system") then Some 1
  else if jsstring_eqb level (js "subsystem") then Some 2
  else None.

(** [a > b] on two looked-up levels. *)
Definition deeper (a b : option nat) : bool :=
  match a, b with
  | Some x, Some y => y <? x
  | _, _ => false
  end.

(** [data.children && data.children.length > 0] *)
Definition hasChildren (data : node) : bool :=
  match children data with
  | [] => false
  | _ :: _ => true
  end.

(** [hasChildren ? (query ? 'expanded' : 'collapsed') : 'leaf'] *)
Definition state_class (data : node) (query : jsstring) : jsstring :=
  if hasChildren data
  then (if falsy query then js "collapsed" else js "expanded")
  else js "leaf".

(** [parent.insertAdjacentElement('afterend', x)] for the element at index
    [i] of the container; nothing happens for an element that is not
    there. *)
Definition insert_after {A : Type} (i : nat) (x : A) (l : list A) : list A :=
  if i <? length l then firstn (S i) l ++ x :: skipn (S i) l else l.

(** What [buildTree] leaves in the container: the markup of a message,
    as the string that is assigned to [innerHTML], or the items that were
    appended. The markup is kept as assigned: what the browser makes of
    it when it parses it is not part of the model. *)
Inductive tree_view :=
| Message (html : jsstring)
| Items (items : list tree_item).

Section Tree.

(** The part of [highlight] that wraps the matches of a non-empty query,
    a replacement with a case-insensitive expression, is left abstract. *)
Variable highlight_matches : jsstring -> jsstring -> jsstring.

(** [highlight(text, query)] *)
Definition highlight (text query : jsstring) : jsstring :=
  if falsy query || falsy text then text else highlight_matches text query.

(** [createTreeItem(data, level, query)] *)
Definition createTreeItem (data : node) (level : jsstring) (query : jsstring)
  : tree_item :=
  mk_tree_item
    (class_tokens (js "tree-item " ++ level))
    (js "<span class=" ++ dq ++ js "expand-icon" ++ dq
        ++ js "></span><span class=" ++ dq ++ js "item-text" ++ dq ++ js ">"
        ++ highlight (label data) query ++ js "</span>")
    (definition data) level (code data) (systemCode data)
    (dataset_string (subsystemCode data)) (fullCode data) (title data)
    None.

(** The item of a child, with its class and its listener. *)
Definition child_item (childData : node) (query : jsstring) : tree_item :=
  let childItem := createTreeItem childData (level childData) query in
  let childItem :=
    set_classList (classList_add (state_class childData query)
                                 (classList childItem)) childItem in
  addEventListener (ChildListener childData) childItem.

(** [renderChildren(parentItem, parentData, query)], the parent being the
    element at [parentIdx]. The loop runs over the reversed copy of the
    children, so the later children are inserted first. *)
Fixpoint renderChildren (container : list tree_item) (parentIdx : nat)
         (parentData : node) (query : jsstring) {struct parentData}
  : list tree_item :=
  (fix each (childrenData : list node) (container : list tree_item)
     : list tree_item :=
     match childrenData with
     | [] => container
     | childData :: later =>
         let container := each later container in
         let container :=
           insert_after parentIdx (child_item childData query) container in
         if negb (falsy query) && hasChildren childData
         then renderChildren container (S parentIdx) childData query
         else container
     end) (children parentData) container.

(** The item of a group, with its class and its listener. *)
Definition group_item (groupData : node) (query : jsstring) : tree_item :=
  let groupItem := createTreeItem groupData (js "group") query in
  let groupItem :=
    set_classList (classList_add (state_class groupData query)
                                 (classList groupItem)) groupItem in
  addEventListener (GroupListener groupData) groupItem.

(** [buildTree(data, query)] *)
Definition buildTree (data : list node) (query : jsstring) : tree_view :=
  match data with
  | [] =>
      Message
        (if falsy query
         then js "<div class=" ++ dq ++ js "info-message" ++ dq
                 ++ js ">Select a data source to load the hierarchy.</div>"
         else js "<div class=" ++ dq ++ js "info-message" ++ dq
                 ++ js ">No results found for " ++ dq ++ query ++ dq
                 ++ js "</div>")
  | _ :: _ =>
      Items
        (fold_left
           (fun container groupData =>
              let container := container ++ [group_item groupData query] in
              if negb (falsy query) && hasChildren groupData
              then renderChildren container (length container - 1)
                                  groupData query
              else container)
           data [])
  end.

(** The loop of [toggleExpand] that removes the following elements as long
    as they are deeper. *)
Fixpoint remove_deeper (current : option nat) (following : list tree_item)
  : list tree_item :=
  match following with
  | [] => []
  | next :: rest =>
      if deeper (hierarchyLevels (ds_level next)) current
      then remove_deeper current rest
      else following
  end.

(** [toggleExpand(item, data)] for the element at index [idx]. *)
Definition toggleExpand (container : list tree_item) (idx : nat)
           (data : node) : list tree_item :=
  match nth_error container idx with
  | None => container
  | Some item =>
      if contains (classList item) (js "expanded") then
        let item :=
          set_classList (classList_replace (js "expanded") (js "collapsed")
                                           (classList item)) item in
        firstn idx container
          ++ item :: remove_deeper (hierarchyLevels (ds_level item))
                                   (skipn (S idx) container)
      else
        let item :=
          set_classList (classList_replace (js "collapsed") (js "expanded")
                                           (classList item)) item in
        renderChildren (firstn idx container ++ item :: skipn (S idx) container)
                       idx data []
  end.

(** The selection that [selectSystem] and [loadSystemData] write. *)
Definition set_selection (system subsystem : jsstring) (p : page) : page :=
  mk_page (modelInput p) (sdcInput p) (dmvInput p) (unitCountParsed p)
          (infoCodeVariantInput p) (selectedBaseInfoCode p)
          system subsystem (dcInput p).

(** The page: the tree container, the form with the selection, the text
    of the selected system, and the codes shown by [updateResult]. *)
Record ui := mk_ui {
  tree : list tree_item;
  form : page;
  selectedSystemText : option jsstring;
  dmCodes : list jsstring
}.

(** [selectSystem(item)] for the element at index [idx]. *)
Definition selectSystem (u : ui) (idx : nat) : ui :=
  match nth_error (tree u) idx with
  | None => u
  | Some item =>
      let unselect it :=
        if contains (classList it) (js "tree-item")
           && contains (classList it) (js "selected")
        then set_classList (classList_remove (js "selected") (classList it)) it
        else it in
      let cleared := map unselect (tree u) in
      let item := unselect item in
      let item :=
        set_classList (classList_add (js "selected") (classList item)) item in
      let form :=
        set_selection (ds_systemCode item)
                      (if falsy (ds_subsystemCode item) then js "00"
                       else ds_subsystemCode item)
                      (form u) in
      mk_ui (firstn idx cleared ++ item :: skipn (S idx) cleared)
            form
            (Some (ds_fullCode item ++ js " - " ++ ds_titleText item))
            (updateResult form)
  end.

(** A click on the element at index [idx]. *)
Definition click (u : ui) (idx : nat) : ui :=
  match nth_error (tree u) idx with
  | None => u
  | Some item =>
      match onclick item with
      | None => u
      | Some (GroupListener groupData) =>
          if hasChildren groupData
          then mk_ui (toggleExpand (tree u) idx groupData) (form u)
                     (selectedSystemText u) (dmCodes u)
          else u
      | Some (ChildListener childData) =>
          if hasChildren childData
          then mk_ui (toggleExpand (tree u) idx childData) (form u)
                     (selectedSystemText u) (dmCodes u)
          else selectSystem u idx
      end
  end.

End Tree.

(** [updateDcTable()]: the table is emptied and gets one fresh, empty input
    per unit, for unit 0 when there are no units. *)
Definition updateDcTable (p : page) : page :=
  mk_page (modelInput p) (sdcInput p) (dmvInput p) (unitCountParsed p)
          (infoCodeVariantInput p) (selectedBaseInfoCode p)
          (selectedSystemCode p) (selectedSubsystemCode p)
          (fun unit =>
             if (unitCount p <=? 0)%Z
             then (if unit =? 0 then Some [] else None)
             else (if (1 <=? unit) && (unit <=? Z.to_nat (unitCount p))
                   then Some [] else None)).

(** [renderDownloadButtons(dmCodes)]: the texts of the buttons and whether
    the download-all button is disabled. A missing fourth segment is
    written [undefined] by the template. *)
Definition button_text (code : jsstring) : jsstring :=
  js "Download " ++ match nth_error (split dash code) 3 with
                    | Some segment => segment
                    | None => js "undefined"
                    end.

Definition renderDownloadButtons (dmCodes : list jsstring)
  : list jsstring * bool :=
  (map button_text dmCodes, length dmCodes <=? 1).

End GeneratorPage.
Import GeneratorPage.

(* ================================================================= *)
(** ** Vocabulary of the further properties *)

Module MoreProperties.

(** The nodes of a tree, parents first. *)
Fixpoint preorder (n : node) : list node :=
  n :: flat_map preorder (children n).

(** Groups hold systems, systems hold subsystems, subsystems hold
    nothing. *)
Definition well_levelled (g : node) : Prop :=
  level g = js "group" /\
  Forall (fun s =>
            level s = js "system" /\
            Forall (fun u => level u = js "subsystem" /\ children u = [])
                   (children s))
         (children g).



(** The data behind an item of the tree. *)
Definition item_node (it : tree_item) : option node :=
  match onclick it with
  | Some (GroupListener d) => Some d
  | Some (ChildListener d) => Some d
  | None => None
  end.

Section Shown.

Variable highlight_matches : jsstring -> jsstring -> jsstring.

(** The items that stand below the item of [n]: its children only, or in a
    search all its descendants, parents first. *)
Fixpoint shown_below (query : jsstring) (n : node) : list tree_item :=
  flat_map (fun k =>
              child_item highlight_matches k query
                :: (if negb (falsy query) && hasChildren k
                    then shown_below query k else []))
           (children n).

(** The loop of [renderChildren] over a list of children. *)
Definition render_each (parentIdx : nat) (query : jsstring)
  : list node -> list tree_item -> list tree_item :=
  fix each (childrenData : list node) (container : list tree_item)
    : list tree_item :=
    match childrenData with
    | [] => container
    | childData :: later =>
        let container := each later container in
        let container :=
          insert_after parentIdx
                       (child_item highlight_matches childData query)
                       container in
        if negb (falsy query) && hasChildren childData
        then renderChildren highlight_matches container (S parentIdx)
                            childData query
        else container
    end.

End Shown.

(** A page with the inputs of the table of units taken away. *)
Definition without_unit_inputs (p : page) : page :=
  mk_page (modelInput p) (sdcInput p) (dmvInput p) (unitCountParsed p)
          (infoCodeVariantInput p) (selectedBaseInfoCode p)
          (selectedSystemCode p) (selectedSubsystemCode p)
          (fun _ => None).




(** Decimal digits, and the number a string of digits stands for. *)
Definition is_digit (c : char) : bool := (N.leb 48 c && N.leb c 57)%N.

Definition read_digits (s : jsstring) : nat :=
  fold_left (fun acc c => 10 * acc + (N.to_nat c - 48)) s 0.

(** The codes that the handler of the unit count leaves on the page. *)
Definition codes_after_reset (p : page) : list jsstring :=
  if inputs_complete p
  then if (unitCount p <=? 0)%Z then [code_of p (js "00") (js "00")]
       else map (fun j => code_of p (two_digits j) (js "00"))
                (seq 1 (Z.to_nat (unitCount p)))
  else [].

End MoreProperties.
Import MoreProperties.

(* ================================================================= *)
(** ** The file tools of the converters module *)

Module ConverterTools.

(** An object literal as the list of its properties; reading a property
    that is not there gives [undefined]. *)
Definition object := list (jsstring * jsstring).

Fixpoint get (o : object) (key : jsstring) : option jsstring :=
  match o with
  | [] => None
  | (k, v) :: o' => if jsstring_eqb k key then Some v else get o' key
  end.

(** [s.endsWith(suffix)] *)
Definition endsWith (s suffix : jsstring) : bool :=
  starts_with (rev suffix) (rev s).

(** [s.lastIndexOf(c)] for one character, [None] standing for [-1]. *)
Fixpoint lastIndexOf (s : jsstring) (c : char) : option nat :=
  match s with
  | [] => None
  | d :: s' =>
      match lastIndexOf s' c with
      | Some i => Some (S i)
      | None => if N.eqb d c then Some 0 else None
      end
  end.

(** What has been done to the file system and which programs were run,
    oldest first. *)
Inductive effect :=
| Renamed (oldPath newPath : jsstring)
| MadeDir (dir : jsstring)
| Ran (command : jsstring) (args : list (option jsstring)).

Definition history := list effect.

(** The promise API of [fs] as far as the tools use it. What a call gives
    may depend on what was done before. *)
Record fs_api := mk_fs_api {
  readdir : history -> jsstring -> completion (list jsstring);
  rename : history -> jsstring -> jsstring -> completion unit;
  access : history -> jsstring -> completion unit;
  mkdir : history -> jsstring -> completion unit;
  readFile : history -> jsstring -> completion jsstring
}.

(** [{ success: true, ... }] or [{ success: false, error }]. *)
Inductive outcome (A : Type) :=
| Success (v : A)
| Failure (error : jsstring).
Arguments Success {A} v.
Arguments Failure {A} error.

(** The message of the [TypeError] for [undefined.name]. *)
Definition member_of_undefined (name : jsstring) : jsstring :=
  js "Cannot read properties of undefined (reading '" ++ name ++ js "')".

(** The message of the [TypeError] of [path.join] for an argument that is
    [undefined]. *)
Definition path_not_a_string : jsstring :=
  js "The " ++ dq ++ js "path" ++ dq
     ++ js " argument must be of type string. Received undefined".

Fixpoint all_defined (args : list (option jsstring))
  : option (list jsstring) :=
  match args with
  | [] => Some []
  | Some a :: args' =>
      match all_defined args' with
      | Some l => Some (a :: l)
      | None => None
      end
  | None :: _ => None
  end.

(** What [execCommand] hands to [spawn]: the file or command line, the
    arguments and whether a shell is asked for. *)
Record spawn_request := mk_spawn_request {
  spawn_file : jsstring;
  spawn_args : list jsstring;
  spawn_shell : bool
}.

(** [s.includes(' ') ? `"${s}"` : s] *)
Definition quoted (s : jsstring) : jsstring :=
  if includes s (js " ") then dq ++ s ++ dq else s.

(** The call of [spawn] in [execCommand(command, args)], for arguments
    that are strings. *)
Definition execCommand_spawn (command : jsstring) (args : list jsstring)
  : spawn_request :=
  let useShell :=
    endsWith command (js ".bat") || endsWith command (js ".cmd") in
  if useShell then
    let quotedCommand := quoted command in
    let quotedArgs := map quoted args in
    let cmdLine := join (js " ") (quotedCommand :: quotedArgs) in
    mk_spawn_request cmdLine [] true
  else mk_spawn_request command args false.

(** The entry of one PM file in the result of [pmToToc]: the content of
    the generated file, or the message of the error. *)
Record toc_entry := mk_toc_entry {
  toc_filename : jsstring;
  toc_output_filename : jsstring;
  toc_content : completion jsstring
}.

Definition toc_success (r : toc_entry) : bool :=
  match toc_content r with
  | Normal _ => true
  | Throw _ => false
  end.

Record toc_summary := mk_toc_summary {
  results : list toc_entry;
  filesProcessed : nat;
  filesSucceeded : nat
}.

(** An element of the data index of [htmlToJson]. *)
Record data_module := mk_data_module {
  dm_id : jsstring;
  dm_title : jsstring;
  dm_type : jsstring;
  dm_data : jsstring
}.

Section Tools.

(** [path.join] on strings. *)
Variable path_join : list jsstring -> jsstring.

(** The module-level [fs], bound to [require('fs').promises], and what
    the expression [fs.promises] gives on it. *)
Variable fs : fs_api.
Variable fs_promises : option fs_api.

(** [filename.replace(new RegExp(oldText, 'g'), newText)], which throws
    when [oldText] is no regular expression. *)
Variable replace_all : jsstring -> jsstring -> jsstring -> completion jsstring.

Variable toLowerCase : jsstring -> jsstring.

(** [path.parse(filename).name] *)
Variable parse_name : jsstring -> jsstring.

(** [execCommand(command, args)], for its outcome only. *)
Variable execCommand :
  history -> jsstring -> list (option jsstring) -> completion unit.

(** [getToolsDir()] *)
Variable toolsDir : jsstring.

(** [require('cheerio')], which throws when the module is missing; the
    loaded document is asked for the text of its title and the HTML of
    its body. *)
Variable cheerio : completion (jsstring -> jsstring * option jsstring).

(** [path.join(...)] with arguments that may be [undefined]. *)
Definition join_paths (args : list (option jsstring)) : completion jsstring :=
  match all_defined args with
  | Some l => Normal (path_join l)
  | None => Throw path_not_a_string
  end.

(** [getSaxonPaths()] *)
Definition getSaxonPaths : object :=
  [(js "jar", path_join [toolsDir; js "saxon"; js "saxon9he.jar"]);
   (js "xsl", path_join [toolsDir; js "saxon"; js "demo3-1.xsl"])].

(** The loop of [renameFiles]. *)
Fixpoint rename_each (folderPath oldText newText : jsstring)
         (files : list jsstring) (count : nat) (h : history)
  : completion nat * history :=
  match files with
  | [] => (Normal count, h)
  | filename :: rest =>
      if includes filename oldText then
        let oldPath := path_join [folderPath; filename] in
        match replace_all oldText filename newText with
        | Throw e => (Throw e, h)
        | Normal newFilename =>
            let newPath := path_join [folderPath; newFilename] in
            match rename fs h oldPath newPath with
            | Throw e => (Throw e, h)
            | Normal _ =>
                rename_each folderPath oldText newText rest (S count)
                            (h ++ [Renamed oldPath newPath])
            end
        end
      else rename_each folderPath oldText newText rest count h
  end.

(** [renameFiles(folderPath, oldText, newText)]: the message and the
    count, or the error. *)
Definition renameFiles (folderPath oldText newText : jsstring) (h : history)
  : outcome (jsstring * nat) * history :=
  match readdir fs h folderPath with
  | Throw e => (Failure e, h)
  | Normal files =>
      match rename_each folderPath oldText newText files 0 h with
      | (Normal count, h') =>
          (Success (js "Renamed " ++ String_of_nat count ++ js " files",
                    count), h')
      | (Throw e, h') => (Failure e, h')
      end
  end.

(** The loop of [pmToToc]; an error inside it becomes the entry of the
    file. *)
Fixpoint toc_each (api : fs_api) (saxonJar : option jsstring)
         (xslStylesheet inputDir outputDir : jsstring)
         (xmlFiles : list jsstring) (results : list toc_entry) (h : history)
  : list toc_entry * history :=
  match xmlFiles with
  | [] => (results, h)
  | filename :: rest =>
      let inputPath := path_join [inputDir; filename] in
      let baseName := parse_name filename in
      let outputFilename := baseName ++ js "_toc.js" in
      let outputPath := path_join [outputDir; outputFilename] in
      let args := [Some (js "-jar"); saxonJar;
                   Some (js "-s:" ++ inputPath);
                   Some (js "-xsl:" ++ xslStylesheet);
                   Some (js "-o:" ++ outputPath)] in
      let h' := h ++ [Ran (js "java") args] in
      let content :=
        match execCommand h (js "java") args with
        | Throw e => Throw e
        | Normal _ => readFile api h' outputPath
        end in
      toc_each api saxonJar xslStylesheet inputDir outputDir rest
               (results ++ [mk_toc_entry filename outputFilename content]) h'
  end.

(** [pmToToc(inputDir, outputDir)] *)
Definition pmToToc (inputDir outputDir : jsstring) (h : history)
  : outcome toc_summary * history :=
  let saxonJar := get getSaxonPaths (js "saxonJar") in
  let xslDir := get getSaxonPaths (js "xslDir") in
  match join_paths [xslDir; Some (js "PMtoTOC02.xsl")] with
  | Throw e => (Failure e, h)
  | Normal xslStylesheet =>
      match fs_promises with
      | None => (Failure (member_of_undefined (js "access")), h)
      | Some api =>
          match access api h xslStylesheet with
          | Throw _ =>
              (Failure
                 (js "PMtoTOC02.xsl stylesheet not found in tools/saxon/"),
               h)
          | Normal _ =>
              match mkdir api h outputDir with
              | Throw e => (Failure e, h)
              | Normal _ =>
                  let h := h ++ [MadeDir outputDir] in
                  match readdir api h inputDir with
                  | Throw e => (Failure e, h)
                  | Normal files =>
                      let xmlFiles :=
                        filter (fun f => endsWith (toLowerCase f) (js ".xml"))
                               files in
                      match xmlFiles with
                      | [] => (Failure (js "No valid XML files found"), h)
                      | _ :: _ =>
                          let (results, h') :=
                            toc_each api saxonJar xslStylesheet inputDir
                                     outputDir xmlFiles [] h in
                          (Success
                             (mk_toc_summary
                                results (length xmlFiles)
                                (length (filter toc_success results))),
                           h')
                      end
                  end
              end
          end
      end
  end.

(** The id that [htmlToJson] gives a file: its base name up to the last
    underscore. *)
Definition dmcId (baseName : jsstring) : jsstring :=
  match lastIndexOf baseName 95%N with
  | Some lastUnderscoreIndex => firstn lastUnderscoreIndex baseName
  | None => baseName
  end.

(** The loop of [htmlToJson]. *)
Fixpoint html_each (api : fs_api)
         (load : jsstring -> jsstring * option jsstring)
         (inputDir : jsstring) (h : history) (files : list jsstring)
         (dataCollection : list data_module)
  : completion (list data_module) :=
  match files with
  | [] => Normal dataCollection
  | filename :: rest =>
      if negb (endsWith (toLowerCase filename) (js ".html"))
         && negb (endsWith (toLowerCase filename) (js ".htm"))
      then html_each api load inputDir h rest dataCollection
      else
        let filePath := path_join [inputDir; filename] in
        match readFile api h filePath with
        | Throw e => Throw e
        | Normal htmlContent =>
            let (titleText, bodyHtml) := load htmlContent in
            let baseName := parse_name filename in
            let pageTitle := trim titleText in
            let bodyContent :=
              match bodyHtml with
              | Some html => html
              | None => []
              end in
            html_each api load inputDir h rest
                      (dataCollection
                         ++ [mk_data_module (dmcId baseName) pageTitle
                                            (js "data_module")
                                            (trim bodyContent)])
        end
  end.

(** [htmlToJson(inputDir, outputFormat)]: the data and the format, or the
    error. It only reads. *)
Definition htmlToJson (inputDir : jsstring) (outputFormat : option jsstring)
           (h : history) : outcome (list data_module * jsstring) :=
  let outputFormat := match outputFormat with
                      | Some format => format
                      | None => js "js"
                      end in
  match cheerio with
  | Throw e => Failure e
  | Normal load =>
      match fs_promises with
      | None => Failure (member_of_undefined (js "readdir"))
      | Some api =>
          match readdir api h inputDir with
          | Throw e => Failure e
          | Normal files =>
              match html_each api load inputDir h files [] with
              | Throw e => Failure e
              | Normal [] =>
                  Failure (js "No valid HTML files were processed")
              | Normal (d :: data) => Success (d :: data, outputFormat)
              end
          end
      end
  end.

End Tools.

End ConverterTools.
Import ConverterTools.

(** Vocabulary for the facts about the tools. *)
Module ToolProperties.

(** The rename done for a file, when its new name can be computed. *)
Definition renaming (path_join : list jsstring -> jsstring)
           (replace_all : jsstring -> jsstring -> jsstring
                          -> completion jsstring)
           (folderPath oldText newText filename : jsstring) (e : effect)
  : Prop :=
  exists newFilename,
    replace_all oldText filename newText = Normal newFilename /\
    e = Renamed (path_join [folderPath; filename])
                (path_join [folderPath; newFilename]).

(** The words of a command line: separated by spaces that are not
    between double quotes, the quotes themselves left out. *)
Fixpoint words_from (s : jsstring) (quoted : bool) (word : jsstring)
  : list jsstring :=
  match s with
  | [] => [word]
  | c :: s' =>
      if N.eqb c 34 then words_from s' (negb quoted) word
      else if N.eqb c 32 && negb quoted then word :: words_from s' false []
           else words_from s' quoted (word ++ [c])
  end.

Definition command_words (cmdLine : jsstring) : list jsstring :=
  words_from cmdLine false [].

(** A file system whose calls all succeed, with three entries in every
    directory; renaming fails once a file has been renamed. *)
Definition sample_fs : fs_api :=
  mk_fs_api
    (fun _ _ => Normal [js "DMC-A_001.html"; js "notes.txt"; js "DMC-B.HTM"])
    (fun h _ _ => match h with
                  | [] => Normal tt
                  | _ :: _ => Throw (js "EPERM")
                  end)
    (fun _ _ => Normal tt)
    (fun _ _ => Normal tt)
    (fun _ _ => Normal (js "<html/>")).

Definition sample_join (parts : list jsstring) : jsstring :=
  join (js "/") parts.

(** Replacement of the letter [D] by the new text. *)
Definition sample_replace (oldText filename newText : jsstring)
  : completion jsstring :=
  Normal (flat_map (fun c => if N.eqb c 68 then newText else [c]) filename).

(** The name without its last four or five characters. *)
Definition sample_name (filename : jsstring) : jsstring :=
  firstn (length filename - (if endsWith filename (js ".html") then 5 else 4))
         filename.

End ToolProperties.
Import ToolProperties.

(* ================================================================= *)
(** ** Vocabulary for the clean-up *)

Module CleanupProperties.

(** Nothing but white space is left on the line. *)
Fixpoint line_end (s : jsstring) : bool :=
  match s with
  | [] => true
  | c :: s' => is_line_terminator c || (is_space c && line_end s')
  end.

(** Whether a line starts after [c], white space apart, when [bol] says
    so of the place before [c]. *)
Definition next_bol (bol : bool) (c : char) : bool :=
  is_line_terminator c || (is_space c && bol).

(** A ['+'] ends a line, white space apart, and is not the first thing of
    the text, line breaks apart; [seen] says that something else than a
    line break came before. *)
Fixpoint plus_ends (seen : bool) (s : jsstring) : bool :=
  match s with
  | [] => false
  | c :: s' =>
      (N.eqb c 43 && seen && line_end s')
      || plus_ends (seen || negb (is_line_terminator c)) s'
  end.

(** A line consists of ['{plus}'], white space apart. *)
Fixpoint plus_line (bol : bool) (s : jsstring) : bool :=
  match s with
  | [] => false
  | c :: s' =>
      (bol && starts_with (js "{plus}") s && line_end (skipn 6 s))
      || plus_line (next_bol bol c) s'
  end.

(** [s] begins with at least [n] hyphens, and after its hyphens nothing
    but white space is left on the line. *)
Fixpoint hyphen_rule (n : nat) (s : jsstring) : bool :=
  match s with
  | [] => n =? 0
  | c :: s' =>
      if N.eqb c 45 then hyphen_rule (pred n) s'
      else (n =? 0) && line_end s
  end.

(** A line consists of three hyphens or more, white space apart. *)
Fixpoint break_line (bol : bool) (s : jsstring) : bool :=
  match s with
  | [] => false
  | c :: s' => (bol && hyphen_rule 3 s) || break_line (next_bol bol c) s'
  end.

(** White space stands directly after ['--\n']. *)
Definition open_here (s : jsstring) : bool :=
  match s with
  | a :: b :: c :: w :: _ =>
      N.eqb a 45 && N.eqb b 45 && N.eqb c 10 && is_space w
  | _ => false
  end.

Fixpoint space_after_open (s : jsstring) : bool :=
  match s with
  | [] => false
  | _ :: s' => open_here s || space_after_open s'
  end.

(** White space stands directly before ['\n--']. *)
Definition close_here (s : jsstring) : bool :=
  match s with
  | w :: a :: b :: c :: _ =>
      is_space w && N.eqb a 10 && N.eqb b 45 && N.eqb c 45
  | _ => false
  end.

Fixpoint space_before_close (s : jsstring) : bool :=
  match s with
  | [] => false
  | _ :: s' => close_here s || space_before_close s'
  end.

(** A stretch of text between two thematic breaks in which the last three
    replacements find nothing of their own to do. *)
Definition quiet (t : jsstring) : bool :=
  negb (break_line true t) && negb (space_after_open t)
  && negb (space_before_close t).

Definition starts_clear (t : jsstring) : bool :=
  match t with
  | c :: _ => negb (is_space c)
  | [] => true
  end.

Definition ends_clear (t : jsstring) : bool := starts_clear (rev t).

(** The stretches of a text that is cut at its thematic breaks: each is
    quiet, and none has white space at a side where a break adjoins. *)
Fixpoint stretches_ok (first : bool) (ts : list jsstring) : bool :=
  match ts with
  | [] => true
  | t :: ts' =>
      quiet t && (first || starts_clear t)
      && match ts' with
         | [] => true
         | _ :: _ => ends_clear t
         end
      && stretches_ok false ts'
  end.

(** The character before the place reached after [w]. *)
Definition last_char (p : option char) (w : jsstring) : option char :=
  fold_left (fun _ c => Some c) w p.

(** The state of the matcher after the characters of [w]. *)
Definition steps (w : jsstring) (x : st) : st :=
  fold_left (fun x c => step c x) w x.

(** Whether a line starts after [w]. *)
Definition bol_after (bol : bool) (w : jsstring) : bool :=
  fold_left next_bol w bol.

(** The text after a stretch: a thematic break before each further
    stretch. *)
Fixpoint breaks (ts : list jsstring) : jsstring :=
  match ts with
  | [] => []
  | t :: ts' => thematic_break ++ t ++ breaks ts'
  end.

Definition ends_dd (t : jsstring) : bool :=
  match rev t with
  | a :: b :: _ => N.eqb a 45 && N.eqb b 45
  | _ => false
  end.

(** The text of a thematic break from its hyphens to the first line
    feed after them. *)
Definition rule : jsstring := [45; 45; 45; 10]%N.

(** What the third replacement leaves after the rule of a break: the
    white space after ['--\n'] is gone, up to the hyphens of the next
    break when no text stands between. *)
Fixpoint after3 (t : jsstring) (ts : list jsstring) {struct ts} : jsstring :=
  match t with
  | [] =>
      match ts with
      | [] => []
      | t' :: ts' => rule ++ after3 t' ts'
      end
  | _ :: _ =>
      t ++ match ts with
           | [] => []
           | t' :: ts' =>
               (if ends_dd t then [10]%N else [10; 10]%N)
                 ++ rule ++ after3 t' ts'
           end
  end.

Definition breaks3 (t : jsstring) (ts : list jsstring) : jsstring :=
  rule ++ after3 t ts.

(** What the fourth replacement leaves of it: the white space before
    ['\n--'] is gone too. *)
Fixpoint after4 (t : jsstring) (ts : list jsstring) {struct ts} : jsstring :=
  match t with
  | [] =>
      match ts with
      | [] => []
      | t' :: ts' => rule ++ after4 t' ts'
      end
  | _ :: _ =>
      t ++ match ts with
           | [] => []
           | t' :: ts' => [10]%N ++ rule ++ after4 t' ts'
           end
  end.

Definition breaks4 (t : jsstring) (ts : list jsstring) : jsstring :=
  rule ++ after4 t ts.

End CleanupProperties.
Import CleanupProperties.

(* ================================================================= *)
(** ** Facts about the string primitives *)

Lemma jsstring_eqb_spec a b : jsstring_eqb a b = true <-> a = b.
Proof.
  unfold jsstring_eqb. destruct (list_eq_dec N.eq_dec a b); split; congruence.
Qed.

Section SplitJoin.

Variable sep : char.

Lemma split_not_nil (s : jsstring) : split sep s <> [].
Proof.
  destruct s as [|c s]; simpl; [discriminate|].
  destruct (N.eqb c sep); [discriminate|].
  destruct (split sep s); discriminate.
Qed.

Lemma join_cons2 (d p q : jsstring) (ps : list jsstring) :
  join d (p :: q :: ps) = p ++ d ++ join d (q :: ps).
Proof. reflexivity. Qed.

(** Joining the segments of a string with the separator restores it. *)
Lemma join_split (s : jsstring) : join [sep] (split sep s) = s.
Proof.
  induction s as [|c s IH]; [reflexivity|].
  simpl split. destruct (N.eqb_spec c sep) as [->|Hne].
  - pose proof (split_not_nil s) as Hnn.
    destruct (split sep s) as [|q qs]; [contradiction|].
    rewrite join_cons2, IH. reflexivity.
  - pose proof (split_not_nil s) as Hnn.
    destruct (split sep s) as [|q qs]; [contradiction|].
    destruct qs as [|q' qs].
    + simpl in *. now rewrite IH.
    + rewrite join_cons2. rewrite join_cons2 in IH. rewrite <- IH. reflexivity.
Qed.

(** No segment contains the separator. *)
Lemma split_free (s : jsstring) :
  Forall (fun seg => ~ In sep seg) (split sep s).
Proof.
  induction s as [|c s IH]; simpl.
  - constructor; [intros []|constructor].
  - destruct (N.eqb_spec c sep) as [->|Hne].
    + constructor; [intros []|exact IH].
    + destruct (split sep s) as [|q qs].
      * constructor; [|constructor]. intros [H|[]]. congruence.
      * inversion IH as [|? ? Hq Hqs]; subst.
        constructor; [|exact Hqs]. intros [H|H]; [congruence|tauto].
Qed.

Lemma split_free_app (a b : jsstring) :
  ~ In sep a -> split sep (a ++ sep :: b) = a :: split sep b.
Proof.
  induction a as [|c a IH]; intros Hfree; simpl.
  - now rewrite N.eqb_refl.
  - destruct (N.eqb_spec c sep) as [->|Hne].
    + exfalso. apply Hfree. now left.
    + rewrite IH; [reflexivity|]. intros H. apply Hfree. now right.
Qed.

Lemma split_free_one (a : jsstring) : ~ In sep a -> split sep a = [a].
Proof.
  induction a as [|c a IH]; intros Hfree; simpl; [reflexivity|].
  destruct (N.eqb_spec c sep) as [->|Hne].
  - exfalso. apply Hfree. now left.
  - rewrite IH; [reflexivity|]. intros H. apply Hfree. now right.
Qed.

(** Splitting a join of separator-free segments gives the segments back. *)
Lemma split_join (parts : list jsstring) :
  parts <> [] ->
  Forall (fun seg => ~ In sep seg) parts ->
  split sep (join [sep] parts) = parts.
Proof.
  induction parts as [|p ps IH]; intros Hnn Hfree; [contradiction|].
  inversion Hfree as [|? ? Hp Hps]; subst.
  destruct ps as [|q qs].
  - simpl. now apply split_free_one.
  - rewrite join_cons2.
    change (split sep (p ++ sep :: join [sep] (q :: qs)) = p :: q :: qs).
    rewrite split_free_app by assumption.
    rewrite IH; [reflexivity|discriminate|assumption].
Qed.

End SplitJoin.

Lemma In_firstn {A : Type} (n : nat) (l : list A) (a : A) :
  In a (firstn n l) -> In a l.
Proof.
  revert l; induction n as [|n IH]; intros [|b l]; simpl; try tauto.
  intros [H|H]; auto.
Qed.

Lemma In_skipn {A : Type} (n : nat) (l : list A) (a : A) :
  In a (skipn n l) -> In a l.
Proof.
  revert l; induction n as [|n IH]; intros [|b l]; simpl; try tauto.
  intros H; auto.
Qed.

Lemma In_slice (s : jsstring) (a : Z) (b : option Z) (c : char) :
  In c (slice s a b) -> In c s.
Proof. unfold slice. intros H. eapply In_skipn, In_firstn, H. Qed.

Lemma In_index (s t : jsstring) (i : nat) (c : char) :
  index s i = Some t -> In c t -> In c s.
Proof.
  unfold index. destruct (nth_error s i) as [d|] eqn:E; [|discriminate].
  intros [= <-] [<-|[]]. eapply nth_error_In, E.
Qed.

Lemma In_or_empty_index (s : jsstring) (i : nat) (c : char) :
  In c (or_empty (index s i)) -> In c s.
Proof.
  destruct (index s i) as [t|] eqn:E; simpl; [|tauto].
  now apply In_index with (i := i).
Qed.

(** [s.slice(0, -1)] is [s] without its last character. *)
Lemma slice_all_but_last (s : jsstring) :
  slice s 0 (Some (-1)%Z) = removelast s.
Proof.
  unfold slice, clamp_pos. simpl skipn.
  replace (Z.to_nat _) with (length s - 1) by (simpl; lia).
  induction s as [|c s IH]; [reflexivity|].
  destruct s as [|d s]; [reflexivity|].
  change (removelast (c :: d :: s)) with (c :: removelast (d :: s)).
  rewrite <- IH. simpl. now rewrite Nat.sub_0_r.
Qed.

(** [s.slice(-1)] is the last character of [s], if any. *)
Lemma slice_last (s : jsstring) :
  slice s (-1) None = skipn (length s - 1) s.
Proof.
  unfold slice.
  assert (E : clamp_pos (Z.of_nat (length s)) (-1) = Z.of_nat (length s - 1)).
  { unfold clamp_pos. change ((-1 <? 0)%Z) with true. cbv iota. lia. }
  rewrite E, Nat2Z.id. apply firstn_all2. rewrite length_skipn. lia.
Qed.

Lemma slice_split_last (s : jsstring) :
  slice s 0 (Some (-1)%Z) ++ slice s (-1) None = s.
Proof.
  rewrite slice_all_but_last, slice_last.
  induction s as [|c s IH]; [reflexivity|].
  destruct s as [|d s]; [reflexivity|].
  change (removelast (c :: d :: s)) with (c :: removelast (d :: s)).
  replace (length (c :: d :: s) - 1) with (S (length (d :: s) - 1))
    by (simpl; lia).
  change (c :: (removelast (d :: s) ++ skipn (length (d :: s) - 1) (d :: s))
          = c :: d :: s).
  now rewrite IH.
Qed.

(* ================================================================= *)
(** ** [processDMC]: upgrading a legacy code *)

Module DmcFacts.

Lemma no_dash_spec (s : jsstring) : no_dash s = true <-> ~ In dash s.
Proof.
  unfold no_dash. rewrite forallb_forall. split.
  - intros H Hin. specialize (H _ Hin). now rewrite N.eqb_refl in H.
  - intros H c Hin. destruct (N.eqb_spec c dash) as [->|]; [tauto|reflexivity].
Qed.

Lemma proced_not_descript : js "proced" <> js "descript".
Proof. intros H. vm_compute in H. discriminate. Qed.

Lemma length_nine {A : Type} (l : list A) :
  length l = 9 ->
  exists a b c d e f g h i, l = [a; b; c; d; e; f; g; h; i].
Proof.
  intros H.
  do 9 (destruct l as [|? l]; [discriminate|]).
  destruct l; [|discriminate]. repeat eexists.
Qed.

Lemma processDMC_nine (baseCode : jsstring) :
  segment_count baseCode = 9 ->
  dmc (processDMC baseCode)
  = join [dash] (upgraded_segments (split dash baseCode)).
Proof.
  unfold segment_count, processDMC. intros H.
  destruct (length_nine _ H) as (p1 & p2 & p3 & p4 & p5 & p6 & p7 & p8 & p9 & E).
  rewrite E. reflexivity.
Qed.

Lemma upgraded_segments_free (parts : list jsstring) :
  Forall (fun seg => ~ In dash seg) parts ->
  Forall (fun seg => ~ In dash seg) (upgraded_segments parts).
Proof.
  intros H. unfold upgraded_segments.
  do 9 (destruct parts as [|? parts]; [assumption|]).
  destruct parts; [|assumption].
  repeat match goal with
         | H : Forall _ (_ :: _) |- _ => inversion H; clear H; subst
         end.
  repeat constructor; auto;
    intros Hin;
    first [ apply In_or_empty_index in Hin | apply In_slice in Hin ]; tauto.
Qed.

Lemma upgraded_segments_length (parts : list jsstring) :
  length parts = 9 -> length (upgraded_segments parts) = 12.
Proof.
  intros H.
  destruct (length_nine _ H) as (p1 & p2 & p3 & p4 & p5 & p6 & p7 & p8 & p9 & ->).
  reflexivity.
Qed.

(** The segments of the upgraded code are exactly the joined pieces. *)
Lemma processDMC_nine_split (baseCode : jsstring) :
  segment_count baseCode = 9 ->
  split dash (dmc (processDMC baseCode))
  = upgraded_segments (split dash baseCode).
Proof.
  intros H. rewrite processDMC_nine by assumption.
  apply split_join.
  - intros E. apply (f_equal (@length _)) in E.
    rewrite upgraded_segments_length in E by exact H. discriminate.
  - apply upgraded_segments_free, split_free.
Qed.

(** C1. A 9-segment input is turned into a code of twelve
    hyphen-delimited segments: three of the nine segments are each split in
    two, so the count is 9 + 3 and never 11. *)
Theorem processDMC_nine_segments_yield_twelve (baseCode : jsstring) :
  segment_count baseCode = 9 ->
  segment_count (dmc (processDMC baseCode)) = 12.
Proof.
  intros H. unfold segment_count at 1.
  rewrite processDMC_nine_split by exact H.
  now apply upgraded_segments_length.
Qed.

Lemma processDMC_nine_segments_yield_twelve_witness :
  segment_count (js "A-B-C-12-00-01-AB1-CD2-E") = 9 /\
  segment_count (dmc (processDMC (js "A-B-C-12-00-01-AB1-CD2-E"))) = 12.
Proof.
  split; [reflexivity|].
  apply (processDMC_nine_segments_yield_twelve (js "A-B-C-12-00-01-AB1-CD2-E")).
  reflexivity.
Defined.

(** C3. For a 9-segment code the document type is ['proced'] exactly when
    segment 8 without its last character is ["000"], and ['descript']
    exactly when it is not. *)
Theorem processDMC_docType_by_info_code (baseCode : jsstring) :
  segment_count baseCode = 9 ->
  let infoCode := removelast (nth 7 (split dash baseCode) []) in
  (docType (processDMC baseCode) = js "proced" <-> infoCode = js "000") /\
  (docType (processDMC baseCode) = js "descript" <-> infoCode <> js "000").
Proof.
  unfold segment_count. intros H.
  destruct (length_nine _ H) as (p1 & p2 & p3 & p4 & p5 & p6 & p7 & p8 & p9 & E).
  unfold processDMC. rewrite E. cbv zeta. simpl nth. simpl or_empty.
  unfold docType. rewrite (slice_all_but_last p8).
  destruct (jsstring_eqb (removelast p8) (js "000")) eqn:Eq.
  - apply jsstring_eqb_spec in Eq. split; split.
    + intros _. exact Eq.
    + intros _. reflexivity.
    + intros Hd. elim (proced_not_descript Hd).
    + intros Hn. elim (Hn Eq).
  - assert (Hne : removelast p8 <> js "000").
    { intros Heq. apply jsstring_eqb_spec in Heq. congruence. }
    split; split.
    + intros Hd. symmetry in Hd. elim (proced_not_descript Hd).
    + intros He. elim (Hne He).
    + intros _. exact Hne.
    + intros _. reflexivity.
Qed.

Lemma processDMC_docType_by_info_code_witness :
  docType (processDMC (js "A-B-C-12-00-01-AB1-0002-E")) = js "proced" /\
  docType (processDMC (js "A-B-C-12-00-01-AB1-CD2-E")) = js "descript".
Proof.
  split.
  - apply (processDMC_docType_by_info_code (js "A-B-C-12-00-01-AB1-0002-E"));
      reflexivity.
  - apply (processDMC_docType_by_info_code (js "A-B-C-12-00-01-AB1-CD2-E"));
      [reflexivity|]. vm_compute. discriminate.
Defined.

(** Case analysis on the number of segments, up to nine. *)
Ltac by_segment_count l :=
  destruct l as [|? l]; [reflexivity|];
  do 8 (destruct l as [|? l]; [reflexivity|]);
  destruct l; [|reflexivity].

(** C6. An input that does not have exactly nine segments is returned
    unchanged, with document type ['descript']. *)
Theorem processDMC_passthrough (baseCode : jsstring) :
  segment_count baseCode <> 9 ->
  processDMC baseCode = mk_dmc_result baseCode (js "descript").
Proof.
  unfold segment_count, processDMC. intros H.
  remember (split dash baseCode) as parts eqn:E. clear E.
  by_segment_count parts.
  now elim H.
Qed.

Lemma processDMC_passthrough_witness :
  processDMC (js "GSV-H-041-1-0-0301-00-A-022-A-D")
  = mk_dmc_result (js "GSV-H-041-1-0-0301-00-A-022-A-D") (js "descript").
Proof.
  apply (processDMC_passthrough (js "GSV-H-041-1-0-0301-00-A-022-A-D")).
  vm_compute. discriminate.
Defined.

(** C5, counterexample. The string of the example has eight segments, not
    nine, so it is returned as it is and carries no segment ["1"]. *)
Lemma spec_example_is_passed_through :
  segment_count spec_example = 8 /\
  dmc (processDMC spec_example) = spec_example /\
  ~ upgrades_to (processDMC spec_example)
      (js "1") (js "2") (js "AB") (js "1") (js "CD") (js "2") (js "descript").
Proof.
  split; [reflexivity|]. split; [reflexivity|].
  intros (p1 & p2 & p3 & p5 & p6 & p9 & H & _).
  apply (f_equal (@length _)) in H. vm_compute in H. discriminate.
Qed.

(** C5, amended. A nine-segment code whose segment 4 is ["12"], segment 7
    ["AB1"] and segment 8 ["CD2"] upgrades to subsystem ["1"],
    sub-subsystem ["2"], disassembly code ["AB"] with variant ["1"], info
    code ["CD"] with variant ["2"] and document type ['descript']; the
    eight-segment string of the example is passed through with document
    type ['descript']. *)
Theorem processDMC_example (p1 p2 p3 p5 p6 p9 : jsstring) :
  no_dash p1 = true -> no_dash p2 = true -> no_dash p3 = true ->
  no_dash p5 = true -> no_dash p6 = true -> no_dash p9 = true ->
  let r := processDMC
             (join [dash]
                [p1; p2; p3; js "12"; p5; p6; js "AB1"; js "CD2"; p9]) in
  split dash (dmc r)
  = [p1; p2; p3; js "1"; js "2"; p5; p6; js "AB"; js "1"; js "CD"; js "2"; p9]
  /\ docType r = js "descript"
  /\ processDMC spec_example = mk_dmc_result spec_example (js "descript").
Proof.
  intros H1 H2 H3 H5 H6 H9.
  assert (Hs : split dash
                 (join [dash]
                    [p1; p2; p3; js "12"; p5; p6; js "AB1"; js "CD2"; p9])
               = [p1; p2; p3; js "12"; p5; p6; js "AB1"; js "CD2"; p9]).
  { apply split_join; [discriminate|].
    repeat constructor; try (now apply no_dash_spec);
      intros Hin; vm_compute in Hin; intuition discriminate. }
  assert (Hn : segment_count
                 (join [dash]
                    [p1; p2; p3; js "12"; p5; p6; js "AB1"; js "CD2"; p9]) = 9).
  { unfold segment_count. now rewrite Hs. }
  cbv zeta. split; [|split].
  - rewrite processDMC_nine_split by exact Hn. rewrite Hs. reflexivity.
  - unfold processDMC. rewrite Hs. reflexivity.
  - reflexivity.
Qed.

Lemma processDMC_example_witness :
  let r := processDMC (js "MODEL-SDC-SYS-12-00-01-AB1-CD2-E") in
  split dash (dmc r)
  = [js "MODEL"; js "SDC"; js "SYS"; js "1"; js "2"; js "00"; js "01";
     js "AB"; js "1"; js "CD"; js "2"; js "E"]
  /\ docType r = js "descript".
Proof.
  pose proof (processDMC_example (js "MODEL") (js "SDC") (js "SYS")
                (js "00") (js "01") (js "E")
                eq_refl eq_refl eq_refl eq_refl eq_refl eq_refl) as H.
  cbv zeta in H. destruct H as (Ha & Hb & _). split; [exact Ha|exact Hb].
Defined.

End DmcFacts.
Import DmcFacts.

(* ================================================================= *)
(** ** Assembling the converted document *)

Module AssemblyFacts.

(** C4, counterexample. A two-segment string is not rejected: it is used
    as the code unchanged and the conversion succeeds. *)
Lemma two_segments_not_rejected :
  segment_count (js "A-B") = 2 /\
  processDMC (js "A-B") = mk_dmc_result (js "A-B") (js "descript") /\
  ~ rejects (js "A-B").
Proof.
  split; [reflexivity|]. split; [reflexivity|].
  intros H. destruct (H [] None) as [e He]. discriminate He.
Qed.

(** C4, amended. Splitting any string at the hyphens and joining the
    segments with hyphens gives the string back; no string is rejected for
    its segment count or its characters, and one that does not have nine
    segments (an eleven-segment code included) is used unchanged. *)
Theorem split_join_round_trip_and_no_rejection (s : jsstring) :
  join [dash] (split dash s) = s /\
  (forall content options,
     exists message,
       convertDocxToAdoc (Normal content) (fun _ => Normal tt) s options
       = Converted message) /\
  (segment_count s <> 9 -> dmc (processDMC s) = s).
Proof.
  split; [apply join_split|]. split.
  - intros content options. unfold convertDocxToAdoc. eexists. reflexivity.
  - unfold segment_count, processDMC. intros H.
    remember (split dash s) as parts eqn:E. clear E.
    by_segment_count parts.
    now elim H.
Qed.

Lemma split_join_round_trip_and_no_rejection_witness :
  dmc (processDMC (js "GSV-H-041-1-0-0301-00-A-022-A-D"))
  = js "GSV-H-041-1-0-0301-00-A-022-A-D".
Proof.
  apply (split_join_round_trip_and_no_rejection
           (js "GSV-H-041-1-0-0301-00-A-022-A-D")).
  vm_compute. discriminate.
Defined.

(** C8. The written text is the header followed by the cleaned content,
    and by the footer exactly when the document type is ['proced']; the
    footer is the "Closeout Requirements" section. The clean-up is applied
    to the converted content alone, before it is put after the header:
    cleaning the concatenation instead can give another text. *)
Theorem finalContent_assembly (content filename docType : jsstring) :
  finalContent content filename docType
  = createS1000DHeader (header_code filename) docType
      ++ cleanupAdocContent content
      ++ (if jsstring_eqb docType (js "proced")
          then createProceduralFooter else [])
  /\ finalContent content filename (js "descript")
     = createS1000DHeader (header_code filename) (js "descript")
         ++ cleanupAdocContent content
  /\ finalContent content filename (js "proced")
     = createS1000DHeader (header_code filename) (js "proced")
         ++ cleanupAdocContent content ++ createProceduralFooter
  /\ includes createProceduralFooter (js "== Closeout Requirements") = true
  /\ finalContent (js "+") (js "A-B") (js "descript")
     <> cleanupAdocContent
          (createS1000DHeader (header_code (js "A-B")) (js "descript")
             ++ js "+").
Proof.
  unfold finalContent, header_code. cbv zeta. repeat split.
  - destruct (jsstring_eqb docType (js "proced")); [reflexivity|].
    now rewrite app_nil_r.
  - intros H. vm_compute in H. discriminate.
Qed.

Lemma not_a_line (l : jsstring) (lines : list jsstring) :
  existsb (jsstring_eqb l) lines = false -> ~ In l lines.
Proof.
  intros H Hin. assert (E : existsb (jsstring_eqb l) lines = true).
  { apply existsb_exists. exists l. split; [exact Hin|].
    now apply jsstring_eqb_spec. }
  congruence.
Qed.

Lemma is_a_line (l : jsstring) (lines : list jsstring) :
  existsb (jsstring_eqb l) lines = true -> In l lines.
Proof.
  intros H. apply existsb_exists in H. destruct H as (x & Hin & Hx).
  apply jsstring_eqb_spec in Hx. now subst.
Qed.

(** The lines of the descriptive header, for a code without line feed:
    the [:dmc:] line and the fixed lines after it. *)
Lemma descriptive_header_lines (code : jsstring) :
  ~ In 10%N code ->
  split 10%N (descriptive_header code)
  = (descriptive_head ++ code) :: split 10%N (tl descriptive_tail).
Proof.
  intros Hcode. unfold descriptive_header.
  change descriptive_tail with (10%N :: tl descriptive_tail).
  rewrite app_assoc. apply split_free_app.
  intros Hin. apply in_app_or in Hin. destruct Hin as [Hin|Hin]; [|tauto].
  vm_compute in Hin. intuition discriminate.
Qed.

Lemma procedural_header_lines (code : jsstring) :
  ~ In 10%N code ->
  exists first second,
    split 10%N (procedural_header code)
    = first :: second :: split 10%N (tl procedural_tail).
Proof.
  intros Hcode.
  assert (E : procedural_header code
              = js "= My Procedural Data Module"
                  ++ 10%N :: (js ":dmc: DMC-" ++ code)
                  ++ 10%N :: tl procedural_tail).
  { unfold procedural_header.
    change procedural_head
      with (js "= My Procedural Data Module" ++ 10%N :: js ":dmc: DMC-").
    change procedural_tail with (10%N :: tl procedural_tail).
    rewrite <- !app_assoc. reflexivity. }
  rewrite E. rewrite split_free_app.
  - rewrite split_free_app; [eexists _, _; reflexivity|].
    intros Hin. apply in_app_or in Hin. destruct Hin as [Hin|Hin]; [|tauto].
    vm_compute in Hin. intuition discriminate.
  - intros Hin. vm_compute in Hin. intuition discriminate.
Qed.

(** C10. Any document type other than the exact string ['proced'] gets
    the descriptive header and no footer; this holds for ['fault'] and
    ['ipd'] in particular. The fixed text of the descriptive header has
    neither "Preliminary Requirements" nor "Main Procedure", and for a code
    without line feed none of its lines is one of these section titles or
    their anchors. ['proced'] gets the procedural header, which has both
    sections, and the footer. *)
Theorem only_proced_is_procedural
        (content filename code docType : jsstring) :
  docType <> js "proced" ->
  (createS1000DHeader code docType = descriptive_header code /\
   finalContent content filename docType
   = descriptive_header (header_code filename) ++ cleanupAdocContent content)
  /\ (includes descriptive_head (js "Preliminary Requirements") = false /\
      includes descriptive_tail (js "Preliminary Requirements") = false /\
      includes descriptive_head (js "Main Procedure") = false /\
      includes descriptive_tail (js "Main Procedure") = false)
  /\ (~ In 10%N code ->
      let lines := split 10%N (createS1000DHeader code docType) in
      ~ In (js "== Preliminary Requirements") lines /\
      ~ In (js "[[prelim_reqs]]") lines /\
      ~ In (js "== Main Procedure") lines /\
      ~ In (js "[[main_proc_steps]]") lines)
  /\ (createS1000DHeader code (js "proced") = procedural_header code /\
      finalContent content filename (js "proced")
      = procedural_header (header_code filename)
          ++ cleanupAdocContent content ++ createProceduralFooter /\
      (~ In 10%N code ->
       let lines := split 10%N (createS1000DHeader code (js "proced")) in
       In (js "== Preliminary Requirements") lines /\
       In (js "[[prelim_reqs]]") lines /\
       In (js "== Main Procedure") lines /\
       In (js "[[main_proc_steps]]") lines)).
Proof.
  intros Hne.
  assert (E : jsstring_eqb docType (js "proced") = false).
  { destruct (jsstring_eqb docType (js "proced")) eqn:E; [|reflexivity].
    apply jsstring_eqb_spec in E. contradiction. }
  unfold finalContent, createS1000DHeader, header_code. cbv zeta.
  rewrite E. split; [split; reflexivity|].
  split; [repeat split|]. split.
  - intros Hcode. rewrite descriptive_header_lines by exact Hcode.
    cbv zeta. split; [|split; [|split]];
      intros Hin; apply in_inv in Hin; destruct Hin as [Hfirst|Hrest];
      try (vm_compute in Hfirst; discriminate Hfirst);
      revert Hrest; apply not_a_line; vm_compute; reflexivity.
  - change (jsstring_eqb (js "proced") (js "proced")) with true. cbv iota.
    split; [reflexivity|]. split; [reflexivity|].
    intros Hcode.
    destruct (procedural_header_lines code Hcode) as (first & second & ->).
    cbv zeta. split; [|split; [|split]];
      apply in_cons, in_cons, is_a_line; vm_compute; reflexivity.
Qed.

Lemma only_proced_is_procedural_witness :
  (createS1000DHeader (js "A-B") (js "fault") = descriptive_header (js "A-B")
   /\ finalContent (js "x") (js "DMC-A-B") (js "fault")
      = descriptive_header (header_code (js "DMC-A-B"))
          ++ cleanupAdocContent (js "x"))
  /\ (createS1000DHeader (js "A-B") (js "ipd") = descriptive_header (js "A-B")
      /\ finalContent (js "x") (js "DMC-A-B") (js "ipd")
         = descriptive_header (header_code (js "DMC-A-B"))
             ++ cleanupAdocContent (js "x")).
Proof.
  assert (Hfault : js "fault" <> js "proced")
    by (intros H; vm_compute in H; discriminate).
  assert (Hipd : js "ipd" <> js "proced")
    by (intros H; vm_compute in H; discriminate).
  split.
  - exact (proj1 (only_proced_is_procedural (js "x") (js "DMC-A-B") (js "A-B")
                    (js "fault") Hfault)).
  - exact (proj1 (only_proced_is_procedural (js "x") (js "DMC-A-B") (js "A-B")
                    (js "ipd") Hipd)).
Defined.

End AssemblyFacts.

(* ================================================================= *)
(** ** The clean-up of the converted content *)

Module CleanupFacts.

Lemma includes_here (w s : jsstring) :
  starts_with w s = true -> includes s w = true.
Proof. intros H. destruct s; simpl; rewrite H; reflexivity. Qed.

Lemma includes_later (w s : jsstring) (c : char) :
  includes s w = true -> includes (c :: s) w = true.
Proof. intros H. simpl. rewrite H. apply orb_true_r. Qed.

Lemma includes_tail_false (w s : jsstring) (c : char) :
  includes (c :: s) w = false -> includes s w = false.
Proof. simpl. intros H. now apply orb_false_iff in H. Qed.

Lemma needs_rep (w : jsstring) (greedy : bool) (cs : cset) (k : cont) :
  needs w k -> forall min, needs w (fun x s => rep greedy cs k min x s).
Proof.
  intros Hk min x s. revert min x.
  induction s as [|c s IH]; intros min x m; cbn [rep].
  - destruct min; [|discriminate]. destruct greedy.
    + apply Hk.
    + destruct (k x []) as [m'|] eqn:E; [intros _; eapply Hk, E|discriminate].
  - destruct min as [|min].
    + destruct greedy.
      * destruct (cset_match cs c); [|apply Hk].
        destruct (rep true cs k 0 (step c x) s) as [m'|] eqn:E.
        -- intros _. apply includes_later. eapply IH, E.
        -- apply Hk.
      * destruct (k x (c :: s)) as [m'|] eqn:E; [intros _; eapply Hk, E|].
        destruct (cset_match cs c); [|discriminate].
        intros H. apply includes_later. eapply IH, H.
    + destruct (cset_match cs c); [|discriminate].
      intros H. apply includes_later. eapply IH, H.
Qed.

(** Whatever atom comes first, the need of the rest is the need of the
    whole. *)
Lemma needs_cons (w : jsstring) (a : atom) (r : regex) :
  needs w (run r) -> needs w (run (a :: r)).
Proof.
  intros Hk x s m. cbn [run]. unfold atom_match. destruct a.
  - destruct s as [|c s]; [discriminate|].
    destruct (cset_match cs c); [|discriminate].
    intros H. apply includes_later. eapply Hk, H.
  - apply (needs_rep w greedy cs (run r) Hk min).
  - destruct (at_bol x); [apply Hk|discriminate].
  - destruct (at_eol s); [apply Hk|discriminate].
  - apply Hk.
  - apply Hk.
Qed.

Lemma needs_app (w : jsstring) (r1 r2 : regex) :
  needs w (run r2) -> needs w (run (r1 ++ r2)).
Proof.
  intros H. induction r1 as [|a r1 IH]; [exact H|].
  simpl app. now apply needs_cons.
Qed.

(** A literal sequence matches only where the input starts with it. *)
Lemma run_lits (w : jsstring) (r : regex) (x : st) (s : jsstring) (m : st) :
  run (lits w ++ r) x s = Some m -> starts_with w s = true.
Proof.
  revert x s. induction w as [|c w IH]; intros x s; [reflexivity|].
  simpl. destruct s as [|d s]; [discriminate|].
  rewrite (N.eqb_sym c d).
  destruct (N.eqb d c); [|discriminate]. intros H. simpl. eapply IH, H.
Qed.

Lemma needs_lits (w : jsstring) (r : regex) : needs w (run (lits w ++ r)).
Proof. intros x s m H. eapply includes_here, run_lits, H. Qed.

(** At least [n] of a literal match only where the input starts with [n]
    of them. *)
Lemma rep_lit_prefix (greedy : bool) (c : char) (k : cont) (n extra : nat)
      (x : st) (s : jsstring) (m : st) :
  rep greedy (Lit c) k (n + extra) x s = Some m ->
  starts_with (repeat c n) s = true.
Proof.
  revert x s. induction n as [|n IH]; intros x s H; [reflexivity|].
  destruct s as [|d s]; cbn [Nat.add rep cset_match] in H; [discriminate H|].
  cbn [repeat starts_with]. rewrite (N.eqb_sym c d).
  destruct (N.eqb d c); [|discriminate H].
  simpl. eapply IH, H.
Qed.

Lemma needs_rep_lit (greedy : bool) (c : char) (n : nat) (r : regex) :
  needs (repeat c n) (run (Rep greedy n (Lit c) :: r)).
Proof.
  intros x s m H. cbn [run atom_match] in H.
  apply includes_here. apply rep_lit_prefix with greedy (run r) 0 x m.
  now rewrite Nat.add_0_r.
Qed.

(** Where the expression cannot match, [replace] changes nothing. *)
Lemma replace_from_unchanged (w : jsstring) (r : regex) (rp : replacement) :
  needs w (run r) ->
  forall s p, includes s w = false -> replace_from r rp p s 0 = s.
Proof.
  intros Hn s. induction s as [|c s IH]; intros p Hw.
  - simpl. unfold match_here.
    destruct (run r (start p) []) eqn:E; [|reflexivity].
    apply Hn in E. congruence.
  - simpl. unfold match_here.
    destruct (run r (start p) (c :: s)) eqn:E.
    + apply Hn in E. congruence.
    + f_equal. apply IH. eapply includes_tail_false, Hw.
Qed.

Lemma replace_unchanged (w : jsstring) (r : regex) (rp : replacement)
      (s : jsstring) :
  needs w (run r) -> includes s w = false -> replace r rp s = s.
Proof. intros Hn Hw. now apply replace_from_unchanged with (w := w). Qed.

Lemma trailing_plus_needs : needs (js "+") (run re_trailing_plus).
Proof.
  unfold re_trailing_plus. do 4 apply needs_cons.
  apply (needs_lits (js "+")).
Qed.

Lemma plus_token_needs : needs (js "{plus}") (run re_plus_token).
Proof. unfold re_plus_token. apply needs_app, needs_lits. Qed.

Lemma after_open_needs : needs [45; 45; 10]%N (run re_after_open).
Proof. unfold re_after_open. apply (needs_app _ [Open]), needs_lits. Qed.

Lemma before_close_needs : needs [10; 45; 45]%N (run re_before_close).
Proof.
  unfold re_before_close.
  apply (needs_app _ [Rep true 1 Space; Open]), needs_lits.
Qed.

Lemma thematic_break_needs : needs (js "---") (run re_thematic_break).
Proof.
  unfold re_thematic_break. do 3 apply needs_cons.
  apply (needs_rep_lit true 45%N 3).
Qed.

(** C2, counterexample. One pass strips one trailing ['+'] of a line, so
    a second pass still finds something to strip; the ['+'] line that the
    first pass writes for a ['{plus}'] line is stripped by the second; and
    of two rules separated by [" \n "] the first pass rewrites only the
    first, the second pass the other one too. *)
Lemma cleanup_not_idempotent :
  (cleanupAdocContent (js "a++") = js "a+" /\
   cleanupAdocContent (js "a+") = js "a" /\
   cleanupAdocContent (cleanupAdocContent (js "a++"))
   <> cleanupAdocContent (js "a++")) /\
  (cleanupAdocContent [97; 10; 123; 112; 108; 117; 115; 125; 10; 98]%N
   = [97; 10; 43; 10; 98]%N /\
   cleanupAdocContent [97; 10; 43; 10; 98]%N = [97; 10; 98]%N) /\
  (cleanupAdocContent [45; 45; 45; 32; 10; 32; 45; 45; 45]%N
   = thematic_break ++ js "---" /\
   cleanupAdocContent (thematic_break ++ js "---")
   = thematic_break ++ thematic_break).
Proof.
  split; [split; [reflexivity|split; [reflexivity|]]|].
  - intros H. vm_compute in H. discriminate.
  - split; split; reflexivity.
Qed.

(** A text with none of the marks the five expressions look for is left
    as it is. *)
Lemma unmarked_text_unchanged (y : jsstring) :
  includes y (js "+") = false ->
  includes y (js "{plus}") = false ->
  includes y [45; 45; 10]%N = false ->
  includes y [10; 45; 45]%N = false ->
  includes y (js "---") = false ->
  cleanupAdocContent y = y.
Proof.
  intros Hplus Htoken Hopen Hclose Hbreak.
  unfold cleanupAdocContent. cbv zeta.
  rewrite (replace_unchanged _ _ Group1 _ trailing_plus_needs Hplus).
  rewrite (replace_unchanged _ _ (Text (js "+")) _ plus_token_needs Htoken).
  rewrite (replace_unchanged _ _ Group1 _ after_open_needs Hopen).
  rewrite (replace_unchanged _ _ Group1 _ before_close_needs Hclose).
  apply (replace_unchanged _ _ (Text thematic_break) _ thematic_break_needs
           Hbreak).
Qed.

End CleanupFacts.

(* ================================================================= *)
(** ** The clean-up of a text that is already clean *)

Module SettledFacts.

Lemma terminator_is_space (c : char) :
  is_line_terminator c = true -> is_space c = true.
Proof.
  unfold is_line_terminator. rewrite !orb_true_iff.
  intros [[[H|H]|H]|H]; apply N.eqb_eq in H; subst; reflexivity.
Qed.

Lemma not_space_not_terminator (c : char) :
  is_space c = false -> is_line_terminator c = false.
Proof.
  intros H. destruct (is_line_terminator c) eqn:E; [|reflexivity].
  apply terminator_is_space in E. congruence.
Qed.

Lemma last_char_app (p : option char) (a b : jsstring) :
  last_char p (a ++ b) = last_char (last_char p a) b.
Proof. apply fold_left_app. Qed.

Lemma last_char_last (p : option char) (a : jsstring) (c : char) :
  last_char p (a ++ [c]) = Some c.
Proof. now rewrite last_char_app. Qed.

Lemma prev_steps (w : jsstring) (x : st) :
  prev (steps w x) = last_char (prev x) w.
Proof.
  revert x. induction w as [|c w IH]; intros x; [reflexivity|].
  cbn. rewrite IH. reflexivity.
Qed.

Lemma pos_steps (w : jsstring) (x : st) :
  pos (steps w x) = pos x + length w.
Proof.
  revert x. induction w as [|c w IH]; intros x; cbn; [lia|].
  rewrite IH. cbn. lia.
Qed.

(** What a repetition has matched when it succeeds. *)
Lemma rep_inv (greedy : bool) (cs : cset) (k : cont) (s : jsstring) :
  forall min x m,
    rep greedy cs k min x s = Some m ->
    exists w s',
      s = w ++ s' /\ min <= length w /\
      Forall (fun c => cset_match cs c = true) w /\
      k (steps w x) s' = Some m.
Proof.
  induction s as [|c s IH]; intros min x m H.
  - destruct min; cbn [rep] in H; [|discriminate].
    exists [], []. split; [reflexivity|]. split; [cbn; lia|].
    split; [constructor|].
    destruct greedy; [exact H|]. cbn [steps fold_left].
    destruct (k x []); [exact H|discriminate].
  - assert (Hmore : forall min',
               cset_match cs c = true ->
               rep greedy cs k min' (step c x) s = Some m ->
               min <= S min' ->
               exists w s',
                 c :: s = w ++ s' /\ min <= length w /\
                 Forall (fun c => cset_match cs c = true) w /\
                 k (steps w x) s' = Some m).
    { intros min' Hc Hr Hle. destruct (IH _ _ _ Hr) as (w & s' & -> & Hl & Hw & Hk).
      exists (c :: w), s'. split; [reflexivity|]. split; [cbn; lia|].
      split; [now constructor|exact Hk]. }
    assert (Hstop : k x (c :: s) = Some m -> min = 0 ->
               exists w s',
                 c :: s = w ++ s' /\ min <= length w /\
                 Forall (fun c => cset_match cs c = true) w /\
                 k (steps w x) s' = Some m).
    { intros Hk ->. exists [], (c :: s). split; [reflexivity|].
      split; [cbn; lia|]. split; [constructor|exact Hk]. }
    destruct min as [|min]; cbn [rep] in H.
    + destruct greedy.
      * destruct (cset_match cs c) eqn:Ec; [|now apply Hstop].
        destruct (rep true cs k 0 (step c x) s) as [m'|] eqn:Er.
        -- injection H as <-. apply (Hmore 0 eq_refl Er). lia.
        -- now apply Hstop.
      * destruct (k x (c :: s)) as [m'|] eqn:Ek.
        -- injection H as <-. now apply Hstop.
        -- destruct (cset_match cs c) eqn:Ec; [|discriminate].
           apply (Hmore 0 eq_refl H). lia.
    + destruct (cset_match cs c) eqn:Ec; [|discriminate].
      apply (Hmore min eq_refl H). lia.
Qed.

(** A greedy repetition takes all it can when the rest then matches. *)
Lemma rep_all (cs : cset) (k : cont) (w : jsstring) :
  forall min x s' m,
    Forall (fun c => cset_match cs c = true) w ->
    min <= length w ->
    match s' with
    | c :: _ => cset_match cs c = false
    | [] => True
    end ->
    k (steps w x) s' = Some m ->
    rep true cs k min x (w ++ s') = Some m.
Proof.
  induction w as [|c w IH]; intros min x s' m Hw Hmin Hs Hk.
  - cbn in Hmin. assert (min = 0) by lia. subst min. cbn [app].
    destruct s' as [|d s']; cbn [rep]; [exact Hk|]. now rewrite Hs.
  - inversion Hw as [|? ? Hc Hw']; subst. cbn [app].
    destruct min as [|min]; cbn [rep]; rewrite Hc.
    + rewrite (IH 0 (step c x) s' m Hw'); [reflexivity|lia|exact Hs|exact Hk].
    + apply IH; [exact Hw'|cbn in Hmin; lia|exact Hs|exact Hk].
Qed.

(** A literal sequence matches what it spells. *)
Lemma run_lits_inv (w : jsstring) (r : regex) :
  forall x s m,
    run (lits w ++ r) x s = Some m ->
    exists s', s = w ++ s' /\ run r (steps w x) s' = Some m.
Proof.
  induction w as [|c w IH]; intros x s m H.
  - now exists s.
  - cbn in H. destruct s as [|d s]; [discriminate|].
    destruct (N.eqb_spec d c) as [->|Hne]; [|discriminate].
    destruct (IH _ _ _ H) as (s' & -> & Hr). now exists s'.
Qed.

Lemma line_end_spaces (w s : jsstring) :
  Forall (fun c => is_space c = true) w -> at_eol s = true ->
  line_end (w ++ s) = true.
Proof.
  intros Hw Hs. induction Hw as [|c w Hc _ IH]; cbn [app line_end].
  - destruct s as [|c s]; [reflexivity|]. cbn [at_eol] in Hs.
    cbn [line_end]. now rewrite Hs.
  - rewrite Hc, IH. apply orb_true_r.
Qed.

Lemma line_end_app (a b : jsstring) :
  line_end (a ++ b) = true -> line_end a = true.
Proof.
  induction a as [|c a IH]; [reflexivity|]. cbn [app line_end].
  destruct (is_line_terminator c); [reflexivity|]. cbn [orb].
  destruct (is_space c); [exact IH|discriminate].
Qed.

(** Scanning a text in which the expression matches nowhere. *)
Lemma replace_from_pass (r : regex) (rp : replacement) (t rest : jsstring) :
  forall p,
    (forall a c b, t = a ++ c :: b ->
                   match_here r (last_char p a) (c :: b ++ rest) = None) ->
    replace_from r rp p (t ++ rest) 0
    = t ++ replace_from r rp (last_char p t) rest 0.
Proof.
  induction t as [|c t IH]; intros p H; [reflexivity|].
  cbn [app replace_from].
  pose proof (H [] c t eq_refl) as H0. cbn [last_char fold_left] in H0.
  rewrite H0. cbn [app]. f_equal. rewrite IH; [reflexivity|].
  intros a d b ->. apply (H (c :: a) d b). reflexivity.
Qed.

Lemma replace_from_skip (r : regex) (rp : replacement) (m rest : jsstring) :
  forall p,
    replace_from r rp p (m ++ rest) (length m)
    = replace_from r rp (last_char p m) rest 0.
Proof.
  induction m as [|c m IH]; intros p; [reflexivity|].
  cbn [app length replace_from]. apply IH.
Qed.

(** Scanning over a match. *)
Lemma replace_from_hit (r : regex) (rp : replacement) (p : option char)
      (c : char) (m rest : jsstring) (x : st) :
  match_here r p (c :: m ++ rest) = Some x ->
  pos x = S (length m) ->
  replace_from r rp p (c :: m ++ rest) 0
  = substitution rp (c :: m ++ rest) x
      ++ replace_from r rp (last_char (Some c) m) rest 0.
Proof.
  intros Hm Hpos. cbn [replace_from]. rewrite Hm, Hpos.
  now rewrite replace_from_skip.
Qed.

Lemma replace_from_end (r : regex) (rp : replacement) (p : option char) :
  match_here r p [] = None -> replace_from r rp p [] 0 = [].
Proof. intros H. cbn. now rewrite H. Qed.


(** *** The first two replacements *)

Lemma trailing_plus_inv (p : option char) (s : jsstring) (m : st) :
  match_here re_trailing_plus p s = Some m ->
  exists g a,
    s = g ++ 43%N :: a /\
    (exists c, In c g /\ is_line_terminator c = false) /\
    line_end a = true.
Proof.
  unfold match_here, re_trailing_plus. cbn [run atom_match]. intros H.
  apply rep_inv in H. destruct H as (g & s1 & -> & Hlen & Hg & H).
  apply rep_inv in H. destruct H as (w & s2 & -> & _ & Hw & H).
  cbn [atom_match] in H. destruct s2 as [|c s3]; [discriminate|].
  cbn [cset_match] in H.
  destruct (N.eqb_spec c 43) as [->|Hne]; [|discriminate].
  apply rep_inv in H. destruct H as (w2 & s4 & -> & _ & Hw2 & H).
  cbn [atom_match] in H. destruct (at_eol s4) eqn:Eeol; [|discriminate].
  exists (g ++ w), (w2 ++ s4). split; [now rewrite <- app_assoc|]. split.
  - destruct g as [|c g]; [cbn in Hlen; lia|].
    inversion Hg as [|? ? Hc _]; subst. exists c. split; [now left|].
    cbn in Hc. now apply negb_true_iff in Hc.
  - now apply line_end_spaces.
Qed.

Lemma plus_ends_hit (a : jsstring) :
  line_end a = true ->
  forall pre seen,
    seen = true \/ (exists c, In c pre /\ is_line_terminator c = false) ->
    plus_ends seen (pre ++ 43%N :: a) = true.
Proof.
  intros Ha. induction pre as [|c pre IH]; intros seen Hseen.
  - destruct Hseen as [->|(c & [] & _)]. cbn [app plus_ends].
    now rewrite Ha.
  - cbn [app plus_ends]. rewrite IH; [apply orb_true_r|].
    destruct Hseen as [->|(d & [<-|Hd] & Hlt)].
    + now left.
    + left. rewrite Hlt. apply orb_true_r.
    + right. now exists d.
Qed.



Lemma replace_unmatched (r : regex) (rp : replacement) (s : jsstring) :
  (forall a b, s = a ++ b -> match_here r (last_char None a) b = None) ->
  replace r rp s = s.
Proof.
  intros H. unfold replace. rewrite <- (app_nil_r s) at 1.
  rewrite replace_from_pass.
  - rewrite replace_from_end; [apply app_nil_r|].
    apply (H s []). now rewrite app_nil_r.
  - intros a c b ->. rewrite app_nil_r. now apply H.
Qed.

(** The first replacement finds nothing where no ['+'] ends a line after
    other text. *)
Lemma trailing_plus_unmatched (y : jsstring) :
  plus_ends false y = false -> replace re_trailing_plus Group1 y = y.
Proof.
  intros Hy. apply replace_unmatched. intros a b ->.
  destruct (match_here re_trailing_plus (last_char None a) b) as [m|] eqn:E;
    [|reflexivity].
  apply trailing_plus_inv in E. destruct E as (g & a' & -> & (c & Hc & Hlt) & Ha).
  assert (Hhit : plus_ends false ((a ++ g) ++ 43%N :: a') = true).
  { apply plus_ends_hit; [exact Ha|]. right. exists c.
    split; [|exact Hlt]. apply in_or_app. now right. }
  rewrite <- app_assoc in Hhit. destruct (eq_true_false_abs _ Hhit Hy).
Qed.

Lemma bol_after_app (bol : bool) (a b : jsstring) :
  bol_after bol (a ++ b) = bol_after (bol_after bol a) b.
Proof. apply fold_left_app. Qed.

Lemma bol_after_spaces (w : jsstring) :
  Forall (fun c => is_space c = true) w -> bol_after true w = true.
Proof.
  intros Hw. induction Hw as [|c w Hc _ IH]; [reflexivity|].
  cbn [bol_after fold_left]. unfold next_bol at 2. rewrite Hc.
  rewrite andb_true_r, orb_true_r. exact IH.
Qed.

(** Where the matcher sees the start of a line, a line starts. *)
Lemma bol_after_bol (p : option char) (bol : bool) (a : jsstring) :
  at_bol (start (last_char p a)) = true ->
  (a = [] -> bol = true) ->
  bol_after bol a = true.
Proof.
  destruct (rev a) as [|c ra] eqn:E.
  - apply (f_equal (@rev _)) in E. rewrite rev_involutive in E. subst a.
    intros _ H. now apply H.
  - apply (f_equal (@rev _)) in E. rewrite rev_involutive in E. subst a.
    cbn [rev]. rewrite last_char_last, bol_after_app. intros H _.
    cbn [bol_after fold_left]. unfold next_bol. cbn in H. now rewrite H.
Qed.

Lemma plus_token_inv (p : option char) (s : jsstring) (m : st) :
  match_here re_plus_token p s = Some m ->
  at_bol (start p) = true /\
  exists w a,
    s = w ++ js "{plus}" ++ a /\
    Forall (fun c => is_space c = true) w /\ line_end a = true.
Proof.
  unfold match_here.
  change re_plus_token
    with (Bol :: Rep true 0 Space
              :: (lits (js "{plus}") ++ [Rep true 0 Space; Eol])).
  cbn [run atom_match]. intros H.
  destruct (at_bol (start p)); [|discriminate]. split; [reflexivity|].
  apply rep_inv in H. destruct H as (w & s1 & -> & _ & Hw & H).
  apply run_lits_inv in H. destruct H as (s2 & -> & H).
  cbn [run atom_match] in H.
  apply rep_inv in H. destruct H as (w2 & s3 & -> & _ & Hw2 & H).
  cbn [atom_match] in H. destruct (at_eol s3) eqn:Eeol; [|discriminate].
  exists w, (w2 ++ s3). split; [reflexivity|]. split; [exact Hw|].
  now apply line_end_spaces.
Qed.

Lemma plus_line_hit (c : char) (s : jsstring) :
  starts_with (js "{plus}") (c :: s) = true ->
  line_end (skipn 6 (c :: s)) = true ->
  forall pre bol,
    bol_after bol pre = true -> plus_line bol (pre ++ c :: s) = true.
Proof.
  intros Hs He. induction pre as [|d pre IH]; intros bol Hb.
  - cbn [bol_after fold_left] in Hb. subst bol. cbn [app plus_line].
    now rewrite Hs, He.
  - cbn [app plus_line]. rewrite (IH (next_bol bol d)); [apply orb_true_r|].
    exact Hb.
Qed.

(** The second replacement finds nothing where no line is ['{plus}']. *)
Lemma plus_token_unmatched (y : jsstring) :
  plus_line true y = false -> replace re_plus_token (Text (js "+")) y = y.
Proof.
  intros Hy. apply replace_unmatched. intros a b ->.
  destruct (match_here re_plus_token (last_char None a) b) as [m|] eqn:E;
    [|reflexivity].
  apply plus_token_inv in E. destruct E as (Hbol & w & a' & -> & Hw & Ha).
  assert (Hhit : plus_line true ((a ++ w) ++ 123%N :: js "plus}" ++ a')
                 = true).
  { apply plus_line_hit; [reflexivity|exact Ha|].
    rewrite bol_after_app.
    rewrite (bol_after_bol None true a Hbol (fun _ => eq_refl)).
    now apply bol_after_spaces. }
  rewrite <- app_assoc in Hhit. change (js "{plus}" ++ a')
    with (123%N :: js "plus}" ++ a') in Hy.
  destruct (eq_true_false_abs _ Hhit Hy).
Qed.


(** *** The third replacement *)

Lemma join_breaks (t : jsstring) (ts : list jsstring) :
  join thematic_break (t :: ts) = t ++ breaks ts.
Proof.
  revert t. induction ts as [|t' ts IH]; intros t.
  - cbn. now rewrite app_nil_r.
  - change (join thematic_break (t :: t' :: ts))
      with (t ++ thematic_break ++ join thematic_break (t' :: ts)).
    now rewrite IH.
Qed.

Lemma group_steps (w : jsstring) (x : st) : group (steps w x) = group x.
Proof.
  revert x. induction w as [|c w IH]; intros x; [reflexivity|].
  cbn. now rewrite IH.
Qed.

Lemma after_open_inv (p : option char) (s : jsstring) (m : st) :
  match_here re_after_open p s = Some m -> open_here s = true.
Proof.
  unfold match_here.
  change re_after_open
    with (Open :: (lits [45; 45; 10]%N ++ [Close; Rep true 1 Space])).
  cbn [run atom_match]. intros H.
  apply run_lits_inv in H. destruct H as (s1 & -> & H).
  cbn [run atom_match] in H.
  apply rep_inv in H. destruct H as (w & s2 & -> & Hlen & Hw & _).
  destruct w as [|c w]; [cbn in Hlen; lia|].
  inversion Hw as [|? ? Hc _]; subst. cbn in Hc. cbn. exact Hc.
Qed.

Lemma after_open_none (p : option char) (s : jsstring) :
  open_here s = false -> match_here re_after_open p s = None.
Proof.
  intros H. destruct (match_here re_after_open p s) eqn:E; [|reflexivity].
  apply after_open_inv in E. congruence.
Qed.

(** After ['--\n'] the expression takes the white space that follows, up
    to the next character that is none. *)
Lemma after_open_hit (p : option char) (w z : jsstring) :
  Forall (fun c => is_space c = true) w -> w <> [] ->
  match z with
  | c :: _ => is_space c = false
  | [] => True
  end ->
  exists m,
    match_here re_after_open p ([45; 45; 10]%N ++ w ++ z) = Some m /\
    pos m = 3 + length w /\ group m = Some (0, 3).
Proof.
  intros Hw Hne Hz. unfold match_here, re_after_open.
  cbn [app lits map run atom_match cset_match N.eqb Pos.eqb].
  eexists. split.
  - apply rep_all; [exact Hw| |exact Hz|reflexivity].
    destruct w; [contradiction|cbn; lia].
  - rewrite pos_steps, group_steps. split; reflexivity.
Qed.

Lemma space_after_open_suffix (a s : jsstring) :
  space_after_open (a ++ s) = false -> space_after_open s = false.
Proof.
  induction a as [|c a IH]; [trivial|]. cbn [app space_after_open].
  intros H. apply orb_false_iff in H. now apply IH.
Qed.

Lemma ends_clear_last (a : jsstring) (c : char) :
  ends_clear (a ++ [c]) = negb (is_space c).
Proof. unfold ends_clear. now rewrite rev_app_distr. Qed.

Lemma ends_dd_last (a : jsstring) (c d : char) :
  ends_dd (a ++ [c; d]) = N.eqb d 45 && N.eqb c 45.
Proof. unfold ends_dd. now rewrite rev_app_distr. Qed.

(** Inside a stretch the third expression matches nowhere, unless at the
    two hyphens that end it. *)
Lemma open_inside (t rest : jsstring) (a b : jsstring) (c : char) :
  space_after_open t = false ->
  t = a ++ c :: b ->
  rest = [] \/ (ends_clear t = true /\ exists r, rest = 10%N :: 10%N :: r) ->
  (length b = 1 -> ends_dd t = false) ->
  open_here (c :: b ++ rest) = false.
Proof.
  intros Ht -> Hrest Hdd.
  apply space_after_open_suffix in Ht.
  destruct b as [|b1 [|b2 [|b3 b]]].
  - destruct Hrest as [->|(_ & r & ->)]; [reflexivity|].
    cbn. destruct r; [reflexivity|]. now rewrite !andb_false_r.
  - specialize (Hdd eq_refl).
    change (a ++ [c; b1]) with (a ++ [c; b1]) in Hdd.
    rewrite ends_dd_last in Hdd.
    destruct Hrest as [->|(_ & r & ->)]; [reflexivity|].
    cbn [app open_here]. rewrite (andb_comm (N.eqb c 45)), Hdd. reflexivity.
  - destruct Hrest as [->|(Hclear & r & ->)]; [reflexivity|].
    change (a ++ [c; b1; b2]) with (a ++ [c; b1] ++ [b2]) in Hclear.
    rewrite !app_assoc, ends_clear_last in Hclear.
    cbn [app open_here].
    destruct (N.eqb_spec b2 10) as [->|_];
      [discriminate Hclear|now rewrite !andb_false_r].
  - cbn [space_after_open] in Ht. apply orb_false_iff in Ht.
    destruct Ht as [Ht _]. exact Ht.
Qed.


Lemma replace_from_miss (r : regex) (rp : replacement) (p : option char)
      (c : char) (s : jsstring) :
  match_here r p (c :: s) = None ->
  replace_from r rp p (c :: s) 0 = c :: replace_from r rp (Some c) s 0.
Proof. intros H. cbn [replace_from]. now rewrite H. Qed.

Lemma ends_dd_split (t : jsstring) :
  ends_dd t = true -> exists u, t = u ++ [45; 45]%N.
Proof.
  unfold ends_dd. destruct (rev t) as [|a [|b r]] eqn:E; try discriminate.
  intros H. apply andb_true_iff in H. destruct H as [Ha Hb].
  apply N.eqb_eq in Ha, Hb. subst a b. exists (rev r).
  apply (f_equal (@rev _)) in E. rewrite rev_involutive in E. subst t.
  cbn [rev]. now rewrite <- app_assoc.
Qed.

Lemma quiet_parts (t : jsstring) :
  quiet t = true ->
  break_line true t = false /\ space_after_open t = false
  /\ space_before_close t = false.
Proof.
  unfold quiet. rewrite !andb_true_iff, !negb_true_iff. tauto.
Qed.

Lemma stretches_ok_cons (first : bool) (t : jsstring) (ts : list jsstring) :
  stretches_ok first (t :: ts) = true ->
  quiet t = true /\ (first = false -> starts_clear t = true)
  /\ (ts <> [] -> ends_clear t = true) /\ stretches_ok false ts = true.
Proof.
  cbn [stretches_ok]. rewrite !andb_true_iff.
  intros [[[Hq Hs] He] Hr]. split; [exact Hq|]. split; [|split; [|exact Hr]].
  - intros ->. exact Hs.
  - intros Hne. destruct ts; [contradiction|exact He].
Qed.

(** The third replacement passes over a stretch that does not end in two
    hyphens. *)
Lemma stretch_pass3 (t rest : jsstring) (p : option char) :
  space_after_open t = false ->
  rest = [] \/ (ends_clear t = true /\ exists r, rest = 10%N :: 10%N :: r) ->
  ends_dd t = false ->
  replace_from re_after_open Group1 p (t ++ rest) 0
  = t ++ replace_from re_after_open Group1 (last_char p t) rest 0.
Proof.
  intros Ht Hrest Hdd. apply replace_from_pass. intros a c b Hsplit.
  apply after_open_none.
  now apply (open_inside t rest a b c Ht Hsplit Hrest).
Qed.

Lemma dd_pass3 (u rest : jsstring) (p : option char) :
  space_after_open (u ++ [45; 45]%N) = false ->
  rest = [] \/ (ends_clear (u ++ [45; 45]%N) = true
                /\ exists r, rest = 10%N :: 10%N :: r) ->
  replace_from re_after_open Group1 p (u ++ [45; 45]%N ++ rest) 0
  = u ++ replace_from re_after_open Group1 (last_char p u)
                      ([45; 45]%N ++ rest) 0.
Proof.
  intros Ht Hrest. apply replace_from_pass. intros a c b ->.
  apply after_open_none.
  change (c :: b ++ [45; 45]%N ++ rest) with (c :: b ++ ([45; 45]%N ++ rest)).
  rewrite app_assoc.
  apply (open_inside (((a ++ c :: b) ++ [45; 45]%N)) rest a (b ++ [45; 45]%N) c
           Ht).
  - now rewrite <- app_assoc.
  - exact Hrest.
  - rewrite length_app. cbn. lia.
Qed.

Lemma scan3 (ts : list jsstring) :
  (forall t p,
      stretches_ok false (t :: ts) = true ->
      replace_from re_after_open Group1 p
                   ([45; 45; 45; 10; 10]%N ++ t ++ breaks ts) 0
      = breaks3 t ts) /\
  (forall t p,
      quiet t = true -> (ts <> [] -> ends_clear t = true) ->
      stretches_ok false ts = true ->
      replace_from re_after_open Group1 p (t ++ breaks ts) 0
      = t ++ match ts with
             | [] => []
             | t' :: ts' =>
                 (if ends_dd t then [10]%N else [10; 10]%N) ++ breaks3 t' ts'
             end).
Proof.
  induction ts as [|t' ts' [IHtail _]].
  - assert (Hstretch : forall t p,
               quiet t = true ->
               replace_from re_after_open Group1 p (t ++ breaks []) 0 = t ++ []).
    { intros t p Hq. destruct (quiet_parts t Hq) as (_ & Ho & _).
      cbn [breaks].
      destruct (ends_dd t) eqn:Edd.
      - destruct (ends_dd_split t Edd) as (u & ->).
        rewrite <- !app_assoc, dd_pass3; [|exact Ho|now left].
        reflexivity.
      - rewrite stretch_pass3; [|exact Ho|now left|exact Edd].
        rewrite replace_from_end by (now apply after_open_none).
        reflexivity. }
    split.
    + intros t p Hok. apply stretches_ok_cons in Hok.
      destruct Hok as (Hq & Hs & _ & _). specialize (Hs eq_refl).
      cbn [app]. rewrite replace_from_miss by (now apply after_open_none).
      destruct t as [|c t].
      * cbn [app breaks breaks3].
        destruct (after_open_hit (Some 45%N) [10%N] []) as (m & Hm & Hpos & Hg);
          [repeat constructor|discriminate|exact I|].
        rewrite (replace_from_hit _ _ _ 45%N [45; 10; 10]%N [] m Hm Hpos).
        rewrite replace_from_end by (now apply after_open_none).
        cbn [substitution]. rewrite Hg. reflexivity.
      * cbn [starts_clear] in Hs. apply negb_true_iff in Hs.
        destruct (after_open_hit (Some 45%N) [10%N] ((c :: t) ++ breaks []))
          as (m & Hm & Hpos & Hg); [repeat constructor|discriminate|exact Hs|].
        rewrite (replace_from_hit _ _ _ 45%N [45; 10; 10]%N
                   ((c :: t) ++ breaks []) m Hm Hpos).
        rewrite Hstretch by exact Hq.
        cbn [substitution]. rewrite Hg. reflexivity.
    + intros t p Hq _ _. apply Hstretch. exact Hq.
  - assert (Hstretch : forall t p,
               quiet t = true -> ends_clear t = true ->
               stretches_ok false (t' :: ts') = true ->
               replace_from re_after_open Group1 p (t ++ breaks (t' :: ts')) 0
               = t ++ (if ends_dd t then [10]%N else [10; 10]%N)
                   ++ breaks3 t' ts').
    { intros t p Hq Hclear Hok. destruct (quiet_parts t Hq) as (_ & Ho & _).
      cbn [breaks]. unfold thematic_break at 1.
      destruct (ends_dd t) eqn:Edd.
      - destruct (ends_dd_split t Edd) as (u & ->).
        rewrite <- app_assoc, dd_pass3;
          [|exact Ho|right; split; [exact Hclear|eexists; reflexivity]].
        rewrite <- app_assoc. f_equal.
        destruct (after_open_hit (last_char p u) [10%N]
                    ([45; 45; 45; 10; 10]%N ++ t' ++ breaks ts'))
          as (m & Hm & Hpos & Hg); [repeat constructor|discriminate|reflexivity|].
        rewrite (replace_from_hit _ _ _ 45%N [45; 10; 10]%N
                   ([45; 45; 45; 10; 10]%N ++ t' ++ breaks ts') m Hm Hpos).
        rewrite IHtail by exact Hok.
        cbn [substitution]. rewrite Hg. reflexivity.
      - rewrite stretch_pass3;
          [|exact Ho|right; split; [exact Hclear|eexists; reflexivity]
           |exact Edd].
        f_equal. cbn [app].
        rewrite replace_from_miss by (now apply after_open_none).
        rewrite replace_from_miss by (now apply after_open_none).
        f_equal. f_equal. apply IHtail. exact Hok. }
    split.
    + intros t p Hok. apply stretches_ok_cons in Hok.
      destruct Hok as (Hq & Hs & Hclear & Hok). specialize (Hs eq_refl).
      specialize (Hclear ltac:(discriminate)).
      cbn [app]. rewrite replace_from_miss by (now apply after_open_none).
      destruct t as [|c t].
      * cbn [app breaks]. unfold thematic_break at 1.
        destruct (after_open_hit (Some 45%N) [10; 10; 10]%N
                    ([45; 45; 45; 10; 10]%N ++ t' ++ breaks ts'))
          as (m & Hm & Hpos & Hg); [repeat constructor|discriminate|reflexivity|].
        rewrite (replace_from_hit _ _ _ 45%N [45; 10; 10; 10; 10]%N
                   ([45; 45; 45; 10; 10]%N ++ t' ++ breaks ts') m Hm Hpos).
        rewrite IHtail by exact Hok.
        cbn [substitution]. rewrite Hg. reflexivity.
      * cbn [starts_clear] in Hs. apply negb_true_iff in Hs.
        destruct (after_open_hit (Some 45%N) [10%N]
                    ((c :: t) ++ breaks (t' :: ts')))
          as (m & Hm & Hpos & Hg); [repeat constructor|discriminate|exact Hs|].
        rewrite (replace_from_hit _ _ _ 45%N [45; 10; 10]%N
                   ((c :: t) ++ breaks (t' :: ts')) m Hm Hpos).
        rewrite Hstretch by assumption.
        cbn [substitution]. rewrite Hg. reflexivity.
    + intros t p Hq Hclear Hok. apply Hstretch; [exact Hq| |exact Hok].
      apply Hclear. discriminate.
Qed.


(** *** The fourth replacement *)

Lemma before_close_inv (p : option char) (s : jsstring) (m : st) :
  match_here re_before_close p s = Some m ->
  exists w d s',
    s = w ++ d :: [10; 45; 45]%N ++ s' /\
    Forall (fun c => is_space c = true) w /\ is_space d = true.
Proof.
  unfold match_here.
  change re_before_close
    with (Rep true 1 Space :: Open :: (lits [10; 45; 45]%N ++ [Close])).
  cbn [run atom_match]. intros H.
  apply rep_inv in H. destruct H as (w & s1 & -> & Hlen & Hw & H).
  cbn [atom_match] in H.
  apply run_lits_inv in H. destruct H as (s2 & -> & _).
  destruct (rev w) as [|d rw] eqn:E.
  - apply (f_equal (@rev _)) in E. rewrite rev_involutive in E. subst w.
    cbn in Hlen. lia.
  - apply (f_equal (@rev _)) in E. rewrite rev_involutive in E. subst w.
    cbn [rev] in Hw |- *. apply Forall_app in Hw. destruct Hw as [Hw Hd].
    inversion Hd; subst.
    exists (rev rw), d, s2. rewrite <- app_assoc. now split.
Qed.

Lemma before_close_first (p : option char) (c : char) (s : jsstring) :
  is_space c = false -> match_here re_before_close p (c :: s) = None.
Proof.
  intros Hc. destruct (match_here re_before_close p (c :: s)) eqn:E;
    [|reflexivity].
  apply before_close_inv in E. destruct E as (w & d & s' & E & Hw & Hd).
  destruct w as [|e w]; injection E as -> _.
  - congruence.
  - inversion Hw; subst. congruence.
Qed.

(** A line feed before something that is no white space is left alone. *)
Lemma before_close_feed (p : option char) (z : jsstring) :
  match z with
  | c :: _ => is_space c = false
  | [] => True
  end ->
  match_here re_before_close p (10%N :: z) = None.
Proof.
  intros Hz. destruct (match_here re_before_close p (10%N :: z)) eqn:E;
    [|reflexivity].
  apply before_close_inv in E. destruct E as (w & d & s' & E & Hw & Hd).
  destruct w as [|e w]; injection E as _ E.
  - subst z. discriminate Hz.
  - destruct w as [|f w]; cbn [app] in E; subst z.
    + congruence.
    + inversion Hw as [|? ? _ Hw']; subst. inversion Hw'; subst. congruence.
Qed.

Lemma before_close_hit (p : option char) (z : jsstring) :
  exists m,
    match_here re_before_close p ([10; 10; 45; 45]%N ++ z) = Some m /\
    pos m = 4 /\ group m = Some (1, 4).
Proof. eexists. split; [reflexivity|]. split; reflexivity. Qed.

Lemma space_before_close_hit (s : jsstring) :
  close_here s = true ->
  forall pre, space_before_close (pre ++ s) = true.
Proof.
  intros Hs. induction pre as [|c pre IH].
  - destruct s as [|c s]; [discriminate|]. cbn [app space_before_close].
    now rewrite Hs.
  - cbn [app space_before_close]. rewrite IH. apply orb_true_r.
Qed.

Lemma ends_clear_inv (a : jsstring) (c : char) (b : jsstring) :
  ends_clear (a ++ c :: b) = true ->
  exists b0 d, c :: b = b0 ++ [d] /\ is_space d = false.
Proof.
  destruct (rev (c :: b)) as [|d rb] eqn:E.
  - apply (f_equal (@length _)) in E. rewrite length_rev in E. discriminate.
  - apply (f_equal (@rev _)) in E. rewrite rev_involutive in E.
    rewrite E. cbn [rev]. rewrite app_assoc, ends_clear_last.
    intros H. apply negb_true_iff in H. now exists (rev rb), d.
Qed.

Lemma all_space_last (w b0 : jsstring) (d : char) (l : jsstring) :
  Forall (fun c => is_space c = true) w -> w = (b0 ++ [d]) ++ l ->
  is_space d = true.
Proof.
  intros Hw ->. apply Forall_app in Hw. destruct Hw as [Hw _].
  apply Forall_app in Hw. destruct Hw as [_ Hd]. now inversion Hd.
Qed.

(** Inside a stretch the fourth expression matches nowhere. *)
Lemma close_inside (t rest : jsstring) (a b : jsstring) (c : char)
      (p : option char) :
  space_before_close t = false ->
  t = a ++ c :: b ->
  rest = [] \/ (ends_clear t = true /\ exists r, rest = 10%N :: r) ->
  match_here re_before_close p (c :: b ++ rest) = None.
Proof.
  intros Ht -> Hrest.
  destruct (match_here re_before_close p (c :: b ++ rest)) eqn:E;
    [|reflexivity].
  exfalso. apply before_close_inv in E.
  destruct E as (w & d & s' & E & Hw & Hd).
  change (c :: b ++ rest) with ((c :: b) ++ rest) in E.
  change (w ++ d :: [10; 45; 45]%N ++ s')
    with (w ++ [d] ++ [10; 45; 45]%N ++ s') in E.
  rewrite app_assoc in E.
  assert (Hws : Forall (fun c => is_space c = true) (w ++ [d])).
  { apply Forall_app. split; [exact Hw|]. now constructor. }
  apply app_eq_app in E. destruct E as (l & [[E1 E2]|[E1 E2]]).
  - (* the white space ends inside the stretch *)
    destruct l as [|x [|y [|z l]]].
    + rewrite app_nil_r in E1. cbn [app] in E2.
      destruct Hrest as [->|(Hclear & _)]; [discriminate|].
      apply ends_clear_inv in Hclear. destruct Hclear as (b0 & e & Hb & He).
      rewrite Hb in E1. rewrite <- E1 in Hws.
      apply Forall_app in Hws. destruct Hws as [_ Hws].
      inversion Hws; subst. congruence.
    + injection E2 as <- E2.
      destruct Hrest as [Hr|(_ & r & Hr)]; rewrite Hr in E2; discriminate.
    + injection E2 as <- <- E2.
      destruct Hrest as [Hr|(_ & r & Hr)]; rewrite Hr in E2; discriminate.
    + injection E2 as <- <- <- E2.
      rewrite E1 in Ht. rewrite <- !app_assoc in Ht. cbn [app] in Ht.
      rewrite app_assoc in Ht.
      rewrite (space_before_close_hit (d :: 10%N :: 45%N :: 45%N :: l)) in Ht;
        [discriminate|].
      cbn. now rewrite Hd.
  - (* the stretch is white space to its end *)
    destruct Hrest as [->|(Hclear & _)].
    + destruct l; [|discriminate]. cbn in E2. discriminate.
    + apply ends_clear_inv in Hclear. destruct Hclear as (b0 & e & Hb & He).
      rewrite Hb in E1.
      pose proof (all_space_last _ _ _ _ Hws E1). congruence.
Qed.



Lemma after3_clear (t : jsstring) (ts : list jsstring) :
  starts_clear t = true ->
  match after3 t ts with
  | c :: _ => is_space c = false
  | [] => True
  end.
Proof.
  intros Hs. destruct t as [|c t].
  - destruct ts as [|t' ts']; [exact I|reflexivity].
  - destruct ts; cbn [after3 app]; now apply negb_true_iff.
Qed.

Lemma stretch_pass4 (t rest : jsstring) (p : option char) :
  space_before_close t = false ->
  rest = [] \/ (ends_clear t = true /\ exists r, rest = 10%N :: r) ->
  replace_from re_before_close Group1 p (t ++ rest) 0
  = t ++ replace_from re_before_close Group1 (last_char p t) rest 0.
Proof.
  intros Ht Hrest. apply replace_from_pass. intros a c b Hsplit.
  now apply (close_inside t rest a b c).
Qed.

Lemma scan4 (ts : list jsstring) :
  (forall t p,
      stretches_ok false (t :: ts) = true ->
      replace_from re_before_close Group1 p (10%N :: after3 t ts) 0
      = 10%N :: after4 t ts) /\
  (forall t p,
      quiet t = true -> (ts <> [] -> ends_clear t = true) ->
      stretches_ok false ts = true ->
      replace_from re_before_close Group1 p
        (t ++ match ts with
              | [] => []
              | t' :: ts' =>
                  (if ends_dd t then [10]%N else [10; 10]%N)
                    ++ breaks3 t' ts'
              end) 0
      = t ++ match ts with
             | [] => []
             | t' :: ts' => [10]%N ++ breaks4 t' ts'
             end).
Proof.
  induction ts as [|t' ts' [IHfeed _]].
  - assert (Hstretch : forall t p,
               quiet t = true ->
               replace_from re_before_close Group1 p (t ++ []) 0 = t ++ []).
    { intros t p Hq. destruct (quiet_parts t Hq) as (_ & _ & Hc).
      rewrite stretch_pass4; [|exact Hc|now left]. reflexivity. }
    split.
    + intros t p Hok. apply stretches_ok_cons in Hok.
      destruct Hok as (Hq & Hs & _ & _). specialize (Hs eq_refl).
      rewrite replace_from_miss
        by (apply before_close_feed, (after3_clear t [] Hs)).
      f_equal. destruct t as [|c t]; [reflexivity|].
      cbn [after3 after4]. now apply Hstretch.
    + intros t p Hq _ _. now apply Hstretch.
  - assert (Htail : forall p,
               stretches_ok false (t' :: ts') = true ->
               replace_from re_before_close Group1 p (breaks3 t' ts') 0
               = breaks4 t' ts').
    { intros p Hok. unfold breaks3, breaks4, rule. cbn [app].
      rewrite !replace_from_miss by (now apply before_close_first).
      do 3 f_equal. now apply IHfeed. }
    assert (Hstretch : forall t p,
               quiet t = true -> ends_clear t = true ->
               stretches_ok false (t' :: ts') = true ->
               replace_from re_before_close Group1 p
                 (t ++ (if ends_dd t then [10]%N else [10; 10]%N)
                    ++ breaks3 t' ts') 0
               = t ++ [10]%N ++ breaks4 t' ts').
    { intros t p Hq Hclear Hok. destruct (quiet_parts t Hq) as (_ & _ & Hc).
      rewrite stretch_pass4;
        [|exact Hc
         |right; split; [exact Hclear|destruct (ends_dd t); eexists; reflexivity]].
      f_equal. destruct (ends_dd t).
      - cbn [app]. rewrite replace_from_miss
          by (now apply before_close_feed).
        f_equal. now apply Htail.
      - destruct (before_close_hit (last_char p t)
                    (45%N :: 10%N :: after3 t' ts'))
          as (m & Hm & Hpos & Hg).
        unfold breaks3, rule.
        rewrite (replace_from_hit _ _ _ 10%N [10; 45; 45]%N
                   (45%N :: 10%N :: after3 t' ts') m Hm Hpos).
        cbn [substitution]. rewrite Hg.
        rewrite replace_from_miss by (now apply before_close_first).
        rewrite IHfeed by exact Hok. reflexivity. }
    split.
    + intros t p Hok. apply stretches_ok_cons in Hok.
      destruct Hok as (Hq & Hs & Hclear & Hok). specialize (Hs eq_refl).
      specialize (Hclear ltac:(discriminate)).
      rewrite replace_from_miss
        by (apply before_close_feed, (after3_clear t (t' :: ts') Hs)).
      f_equal. destruct t as [|c t].
      * cbn [after3 after4]. now apply Htail.
      * cbn [after3 after4]. now apply Hstretch.
    + intros t p Hq Hclear Hok. apply Hstretch; [exact Hq| |exact Hok].
      apply Hclear. discriminate.
Qed.


(** *** The fifth replacement *)

Lemma break_hit_feed (p : option char) (z : jsstring) :
  match z with
  | c :: _ => is_space c = false
  | [] => True
  end ->
  exists m,
    match_here re_thematic_break p (10%N :: rule ++ z) = Some m /\ pos m = 5.
Proof.
  intros Hz. unfold match_here, re_thematic_break, rule.
  destruct z as [|c z].
  - eexists. split; reflexivity.
  - pose proof (not_space_not_terminator c Hz) as Hlt.
    cbn -[is_space is_line_terminator].
    change (is_space 10%N) with true. change (is_space 45%N) with false.
    change (is_line_terminator 10%N) with true.
    cbn -[is_space is_line_terminator].
    rewrite ?Hz, ?Hlt.
    cbn -[is_space is_line_terminator].
    eexists. split; reflexivity.
Qed.

Lemma break_hit_rule (z : jsstring) :
  match z with
  | c :: _ => is_space c = false
  | [] => True
  end ->
  exists m,
    match_here re_thematic_break (Some 10%N) (rule ++ z) = Some m /\ pos m = 4.
Proof.
  intros Hz. unfold match_here, re_thematic_break, rule.
  destruct z as [|c z].
  - eexists. split; reflexivity.
  - pose proof (not_space_not_terminator c Hz) as Hlt.
    cbn -[is_space is_line_terminator].
    change (is_space 10%N) with true. change (is_space 45%N) with false.
    change (is_line_terminator 10%N) with true.
    cbn -[is_space is_line_terminator].
    rewrite ?Hz, ?Hlt.
    cbn -[is_space is_line_terminator].
    eexists. split; reflexivity.
Qed.

Lemma line_end_no_hyphen (c : char) (s : jsstring) :
  line_end (c :: s) = true -> N.eqb c 45 = false.
Proof.
  destruct (N.eqb_spec c 45) as [->|]; [|reflexivity]. discriminate.
Qed.

Lemma hyphen_rule_hit (h r : jsstring) :
  Forall (fun c => cset_match (Lit 45%N) c = true) h ->
  line_end r = true ->
  forall n, n <= length h -> hyphen_rule n (h ++ r) = true.
Proof.
  intros Hh Hr. induction Hh as [|c h Hc _ IH]; intros n Hn.
  - cbn in Hn. assert (n = 0) by lia. subst n. cbn [app].
    destruct r as [|c r]; [reflexivity|]. cbn [hyphen_rule].
    now rewrite (line_end_no_hyphen c r Hr), Hr.
  - cbn [app hyphen_rule]. cbn [cset_match] in Hc. rewrite Hc.
    apply IH. cbn in Hn. lia.
Qed.

Lemma hyphen_rule_app (l rest : jsstring) :
  match rest with
  | c :: _ => N.eqb c 45 = false
  | [] => True
  end ->
  l <> [] ->
  forall n, hyphen_rule n (l ++ rest) = true -> hyphen_rule n l = true.
Proof.
  intros Hrest. induction l as [|c l IH]; intros Hne n H; [contradiction|].
  cbn [app hyphen_rule] in H |- *.
  destruct (N.eqb c 45).
  - destruct l as [|d l].
    + cbn [app] in H. destruct rest as [|e rest]; [exact H|].
      cbn [hyphen_rule] in H |- *. rewrite Hrest in H.
      now apply andb_true_iff in H.
    + apply IH; [discriminate|exact H].
  - apply andb_true_iff in H. destruct H as [Hn H]. rewrite Hn.
    change (c :: l ++ rest) with ((c :: l) ++ rest) in H.
    now rewrite (line_end_app _ _ H).
Qed.

Lemma break_inv (q : option char) (s : jsstring) (m : st) :
  match_here re_thematic_break q s = Some m ->
  exists w1 w2 s',
    s = w1 ++ w2 ++ s' /\
    Forall (fun c => is_space c = true) w1 /\
    Forall (fun c => is_space c = true) w2 /\
    at_bol (start (last_char q w1)) = true /\
    hyphen_rule 3 s' = true.
Proof.
  unfold match_here, re_thematic_break. cbn [run atom_match]. intros H.
  apply rep_inv in H. destruct H as (w1 & s1 & -> & _ & Hw1 & H).
  cbn [atom_match] in H.
  destruct (at_bol (steps w1 (start q))) eqn:Ebol; [|discriminate].
  apply rep_inv in H. destruct H as (w2 & s2 & -> & _ & Hw2 & H).
  cbn [atom_match] in H.
  apply rep_inv in H. destruct H as (h & s3 & -> & Hlen & Hh & H).
  cbn [atom_match] in H.
  apply rep_inv in H. destruct H as (w3 & s4 & -> & _ & Hw3 & H).
  cbn [atom_match] in H. destruct (at_eol s4) eqn:Eeol; [|discriminate].
  exists w1, w2, (h ++ w3 ++ s4). split; [reflexivity|].
  split; [exact Hw1|]. split; [exact Hw2|]. split.
  - unfold at_bol in Ebol |- *. rewrite prev_steps in Ebol. exact Ebol.
  - apply hyphen_rule_hit; [exact Hh| |exact Hlen].
    now apply line_end_spaces.
Qed.

Lemma break_none_end (q : option char) :
  match_here re_thematic_break q [] = None.
Proof.
  destruct (match_here re_thematic_break q []) eqn:E; [|reflexivity].
  apply break_inv in E. destruct E as (w1 & w2 & s' & E & _ & _ & _ & H).
  symmetry in E. apply app_eq_nil in E. destruct E as [_ E].
  apply app_eq_nil in E. destruct E as [_ ->]. discriminate.
Qed.

Lemma break_line_hit (c : char) (l : jsstring) :
  hyphen_rule 3 (c :: l) = true ->
  forall pre bol, bol_after bol pre = true ->
                  break_line bol (pre ++ c :: l) = true.
Proof.
  intros Hl. induction pre as [|d pre IH]; intros bol Hb.
  - cbn [bol_after fold_left] in Hb. subst bol. cbn [app break_line].
    now rewrite Hl.
  - cbn [app break_line]. rewrite (IH (next_bol bol d)); [apply orb_true_r|].
    exact Hb.
Qed.

(** Inside a stretch the fifth expression matches nowhere. *)
Lemma break_inside (t rest : jsstring) (a b : jsstring) (c : char)
      (p : option char) :
  break_line true t = false ->
  t = a ++ c :: b ->
  rest = [] \/ (ends_clear t = true /\ exists r, rest = 10%N :: r) ->
  match_here re_thematic_break (last_char p a) (c :: b ++ rest) = None.
Proof.
  intros Ht -> Hrest.
  destruct (match_here re_thematic_break (last_char p a) (c :: b ++ rest))
    eqn:E; [|reflexivity].
  exfalso. apply break_inv in E.
  destruct E as (w1 & w2 & s' & E & Hw1 & Hw2 & Hbol & Hrule).
  assert (Hws : Forall (fun c => is_space c = true) (w1 ++ w2))
    by (apply Forall_app; now split).
  assert (Hline : bol_after true (a ++ w1 ++ w2) = true).
  { rewrite app_assoc, bol_after_app.
    rewrite <- last_char_app in Hbol.
    rewrite (bol_after_bol p true (a ++ w1) Hbol (fun _ => eq_refl)).
    now apply bol_after_spaces. }
  change (c :: b ++ rest) with ((c :: b) ++ rest) in E.
  rewrite app_assoc in E.
  apply app_eq_app in E. destruct E as (l & [[E1 E2]|[E1 E2]]).
  - destruct l as [|x l].
    + rewrite app_nil_r in E1. cbn [app] in E2.
      destruct Hrest as [->|(Hclear & _)].
      * subst s'. discriminate.
      * apply ends_clear_inv in Hclear. destruct Hclear as (b0 & e & Hb & He).
        rewrite Hb in E1. rewrite <- E1 in Hws.
        apply Forall_app in Hws. destruct Hws as [_ Hws].
        inversion Hws; subst. congruence.
    + subst s'. apply hyphen_rule_app in Hrule; [|
        destruct Hrest as [->|(_ & r & ->)]; [exact I|reflexivity]
        |discriminate].
      rewrite E1 in Ht.
      replace (a ++ (w1 ++ w2) ++ x :: l)
        with ((a ++ w1 ++ w2) ++ x :: l) in Ht
        by now rewrite <- !app_assoc.
      rewrite (break_line_hit x l Hrule _ _ Hline) in Ht. discriminate.
  - destruct Hrest as [->|(Hclear & _)].
    + destruct l; [|discriminate]. cbn in E2. subst s'. discriminate.
    + apply ends_clear_inv in Hclear. destruct Hclear as (b0 & e & Hb & He).
      rewrite Hb in E1.
      pose proof (all_space_last _ _ _ _ Hws E1). congruence.
Qed.

Lemma stretch_pass5 (t rest : jsstring) (p : option char) :
  break_line true t = false ->
  rest = [] \/ (ends_clear t = true /\ exists r, rest = 10%N :: r) ->
  replace_from re_thematic_break (Text thematic_break) p (t ++ rest) 0
  = t ++ replace_from re_thematic_break (Text thematic_break)
                      (last_char p t) rest 0.
Proof.
  intros Ht Hrest. apply replace_from_pass. intros a c b Hsplit.
  now apply (break_inside t rest a b c).
Qed.

Lemma after4_clear (t : jsstring) (ts : list jsstring) :
  starts_clear t = true ->
  match after4 t ts with
  | c :: _ => is_space c = false
  | [] => True
  end.
Proof.
  intros Hs. destruct t as [|c t].
  - destruct ts as [|t' ts']; [exact I|reflexivity].
  - destruct ts; cbn [after4 app]; now apply negb_true_iff.
Qed.

Lemma scan5 (ts : list jsstring) :
  (forall t,
      stretches_ok false (t :: ts) = true ->
      replace_from re_thematic_break (Text thematic_break) (Some 10%N)
                   (after4 t ts) 0
      = t ++ breaks ts) /\
  (forall t p,
      quiet t = true -> (ts <> [] -> ends_clear t = true) ->
      stretches_ok false ts = true ->
      replace_from re_thematic_break (Text thematic_break) p
        (t ++ match ts with
              | [] => []
              | t' :: ts' => [10]%N ++ breaks4 t' ts'
              end) 0
      = t ++ breaks ts).
Proof.
  induction ts as [|t' ts' [IHafter _]].
  - assert (Hstretch : forall t p,
               quiet t = true ->
               replace_from re_thematic_break (Text thematic_break) p
                            (t ++ []) 0 = t ++ breaks []).
    { intros t p Hq. destruct (quiet_parts t Hq) as (Hb & _ & _).
      rewrite stretch_pass5; [|exact Hb|now left].
      rewrite replace_from_end by apply break_none_end. reflexivity. }
    split.
    + intros t Hok. apply stretches_ok_cons in Hok.
      destruct Hok as (Hq & _). destruct t as [|c t]; [reflexivity|].
      cbn [after4]. now apply Hstretch.
    + intros t p Hq _ _. now apply Hstretch.
  - assert (Hstretch : forall t p,
               quiet t = true -> ends_clear t = true ->
               stretches_ok false (t' :: ts') = true ->
               replace_from re_thematic_break (Text thematic_break) p
                 (t ++ [10]%N ++ breaks4 t' ts') 0
               = t ++ breaks (t' :: ts')).
    { intros t p Hq Hclear Hok. destruct (quiet_parts t Hq) as (Hb & _ & _).
      rewrite stretch_pass5;
        [|exact Hb|right; split; [exact Hclear|eexists; reflexivity]].
      f_equal. pose proof Hok as Hok'. apply stretches_ok_cons in Hok'.
      destruct Hok' as (_ & Hs & _). specialize (Hs eq_refl).
      destruct (break_hit_feed (last_char p t) (after4 t' ts')
                  (after4_clear t' ts' Hs)) as (m & Hm & Hpos).
      unfold breaks4. cbn [app].
      rewrite (replace_from_hit _ _ _ 10%N rule (after4 t' ts') m Hm Hpos).
      cbn [substitution breaks]. f_equal. now apply IHafter. }
    split.
    + intros t Hok. apply stretches_ok_cons in Hok.
      destruct Hok as (Hq & _ & Hclear & Hok).
      specialize (Hclear ltac:(discriminate)).
      destruct t as [|c t].
      * pose proof Hok as Hok'. apply stretches_ok_cons in Hok'.
        destruct Hok' as (_ & Hs & _). specialize (Hs eq_refl).
        destruct (break_hit_rule (after4 t' ts') (after4_clear t' ts' Hs))
          as (m & Hm & Hpos).
        cbn [after4 app breaks].
        change (rule ++ after4 t' ts')
          with (45%N :: [45; 45; 10]%N ++ after4 t' ts') in Hm |- *.
        rewrite (replace_from_hit _ _ _ 45%N [45; 45; 10]%N
                   (after4 t' ts') m Hm Hpos).
        cbn [substitution]. f_equal. now apply IHafter.
      * cbn [after4]. now apply Hstretch.
    + intros t p Hq Hclear Hok. apply Hstretch; [exact Hq| |exact Hok].
      apply Hclear. discriminate.
Qed.

(** A text made of quiet stretches and thematic breaks, with no ['+']
    ending a line after other text and no ['{plus}'] line, is left as it
    is. *)
Lemma settled_unchanged (stretches : list jsstring) (y : jsstring) :
  y = join thematic_break stretches ->
  stretches_ok true stretches = true ->
  plus_ends false y = false ->
  plus_line true y = false ->
  cleanupAdocContent y = y.
Proof.
  intros Hy Hok Hplus Htoken. unfold cleanupAdocContent. cbv zeta.
  rewrite (trailing_plus_unmatched y Hplus).
  rewrite (plus_token_unmatched y Htoken).
  destruct stretches as [|t ts]; [subst y; reflexivity|].
  rewrite join_breaks in Hy. subst y.
  apply stretches_ok_cons in Hok. destruct Hok as (Hq & _ & Hclear & Hok).
  unfold replace.
  rewrite (proj2 (scan3 ts) t None Hq Hclear Hok).
  rewrite (proj2 (scan4 ts) t None Hq Hclear Hok).
  apply (proj2 (scan5 ts) t None Hq Hclear Hok).
Qed.

(** C2, amended. A second pass changes nothing when the text left by the
    first is settled: no ['+'] ends a line of it after other text, no line
    of it consists of ['{plus}'], and it is a sequence of stretches joined
    by thematic breaks as the clean-up writes them, two line feeds, three
    hyphens, two line feeds, where no stretch has a line of three hyphens
    or more, white space directly after ['--\n'] or directly before
    ['\n--'], or white space at a side where a break adjoins. *)
Theorem cleanup_idempotent_on_settled_text
        (x : jsstring) (stretches : list jsstring) :
  cleanupAdocContent x = join thematic_break stretches ->
  stretches_ok true stretches = true ->
  plus_ends false (cleanupAdocContent x) = false ->
  plus_line true (cleanupAdocContent x) = false ->
  cleanupAdocContent (cleanupAdocContent x) = cleanupAdocContent x.
Proof.
  intros Hjoin Hok Hplus Htoken.
  now apply (settled_unchanged stretches).
Qed.

Lemma cleanup_idempotent_on_settled_text_witness :
  cleanupAdocContent (js "{plus}
Title +
1 + 1 = 2
 ---- 
--
  note
 
--
-----
------
end")
  = join thematic_break
         [js "+
Title
1 + 1 = 2"; js "--
note
--"; []; js "end"] /\
  cleanupAdocContent (cleanupAdocContent (js "{plus}
Title +
1 + 1 = 2
 ---- 
--
  note
 
--
-----
------
end"))
  = cleanupAdocContent (js "{plus}
Title +
1 + 1 = 2
 ---- 
--
  note
 
--
-----
------
end").
Proof.
  split; [reflexivity|].
  apply (cleanup_idempotent_on_settled_text
           (js "{plus}
Title +
1 + 1 = 2
 ---- 
--
  note
 
--
-----
------
end")
           [js "+
Title
1 + 1 = 2"; js "--
note
--"; []; js "end"]); reflexivity.
Defined.

End SettledFacts.

(* ================================================================= *)
(** ** The generated codes *)

Module GeneratorFacts.

Lemma unitFullCode_code_of (p : page) (unitCode : jsstring) (i : nat) :
  unitFullCode p unitCode i = code_of p unitCode (dcCode p i).
Proof.
  unfold unitFullCode, code_of. cbv zeta. simpl join.
  change (js "-") with [dash]. now rewrite <- !app_assoc.
Qed.

Lemma push_units_map (p : page) (n i : nat) (codes : list jsstring) :
  push_units p n i codes
  = codes ++ map (fun j => unitFullCode p (two_digits j) j) (seq i n).
Proof.
  revert i codes. induction n as [|n IH]; intros i codes; simpl.
  - now rewrite app_nil_r.
  - rewrite IH, <- app_assoc. reflexivity.
Qed.

Lemma two_digits_length (i : nat) :
  1 <= i <= 99 -> length (two_digits i) = 2.
Proof.
  intros Hi.
  assert (Hall : forallb (fun j => length (two_digits j) =? 2) (seq 1 99)
                 = true) by (vm_compute; reflexivity).
  rewrite forallb_forall in Hall.
  apply Nat.eqb_eq, Hall, in_seq. lia.
Qed.

Lemma dcCode_default (p : page) (i : nat) :
  dcInput p i = None \/ (exists v, dcInput p i = Some v /\ trim v = []) ->
  dcCode p i = js "00".
Proof.
  unfold dcCode. intros [->|(v & -> & ->)]; reflexivity.
Qed.

(** C7, counterexample. While the model is empty no code is produced,
    whether the unit count is unspecified, zero or three; and the
    hundredth unit has a unit segment of three digits. *)
Lemma no_code_without_model :
  updateResult (page_without_model None) = [] /\
  updateResult (page_without_model (Some 0%Z)) = [] /\
  updateResult (page_without_model (Some 3%Z)) = [] /\
  nth_error (updateResult (sample_page (Some 100%Z))) 99
  = Some (js "GSV-H-041-10-100-00-000-D").
Proof. repeat split. Qed.

(** C7, amended. With model, SDC and system present and a variant of at
    most one character: a unit count that is zero, negative or not a
    number gives exactly one code, with unit segment ["00"]; a unit count
    [N > 0] gives exactly [N] codes, the one at position [k] having as unit
    segment the decimal index [k + 1] padded with ['0'] to width two (two
    digits exactly up to 99); the disassembly code of a unit is ["00"]
    when its input is missing or blank. Otherwise no code is produced. *)
Theorem updateResult_codes (p : page) :
  (inputs_complete p = false -> updateResult p = []) /\
  (inputs_complete p = true ->
   ((unitCount p <= 0)%Z ->
    updateResult p = [code_of p (js "00") (dcCode p 0)]) /\
   ((0 < unitCount p)%Z ->
    length (updateResult p) = Z.to_nat (unitCount p) /\
    forall k, k < Z.to_nat (unitCount p) ->
      nth_error (updateResult p) k
      = Some (code_of p (two_digits (S k)) (dcCode p (S k))) /\
      (S k <= 99 -> length (two_digits (S k)) = 2)) /\
   (forall i,
      dcInput p i = None \/ (exists v, dcInput p i = Some v /\ trim v = []) ->
      dcCode p i = js "00")).
Proof.
  unfold inputs_complete, updateResult. cbv zeta.
  destruct (falsy (trim (modelInput p)) || falsy (trim (sdcInput p))
            || falsy (selectedSystemCode p)
            || (1 <? length (trim (dmvInput p)))) eqn:G; simpl negb.
  - split; [reflexivity|discriminate].
  - split; [discriminate|]. intros _. split; [|split].
    + intros Hle. apply Z.leb_le in Hle. rewrite Hle.
      now rewrite unitFullCode_code_of.
    + intros Hpos.
      assert (Hgt : (unitCount p <=? 0)%Z = false) by (apply Z.leb_gt; lia).
      rewrite Hgt, push_units_map. simpl app. split.
      * now rewrite length_map, length_seq.
      * intros k Hk. split.
        -- rewrite nth_error_map, nth_error_seq.
           apply Nat.ltb_lt in Hk. rewrite Hk. simpl option_map.
           now rewrite unitFullCode_code_of.
        -- intros Hk99. apply two_digits_length. lia.
    + apply dcCode_default.
Qed.

Lemma updateResult_codes_witness :
  updateResult (sample_page None)
  = [js "GSV-H-041-10-00-00-000-D"] /\
  (length (updateResult (sample_page (Some 3%Z))) = 3 /\
   nth_error (updateResult (sample_page (Some 3%Z))) 0
   = Some (js "GSV-H-041-10-01-00-000-D") /\
   nth_error (updateResult (sample_page (Some 3%Z))) 1
   = Some (js "GSV-H-041-10-02-00-000-D") /\
   nth_error (updateResult (sample_page (Some 3%Z))) 2
   = Some (js "GSV-H-041-10-03-00-000-D")).
Proof.
  split.
  - destruct (updateResult_codes (sample_page None)) as [_ H].
    destruct (H eq_refl) as [H0 _]. apply H0. vm_compute. discriminate.
  - destruct (updateResult_codes (sample_page (Some 3%Z))) as [_ H].
    destruct (H eq_refl) as (_ & HN & _).
    destruct (HN eq_refl) as [Hlen Hnth]. split; [exact Hlen|].
    split; [|split].
    + apply (Hnth 0). vm_compute. lia.
    + apply (Hnth 1). vm_compute. lia.
    + apply (Hnth 2). vm_compute. lia.
Defined.

End GeneratorFacts.

(* ================================================================= *)
(** ** Searching the hierarchy *)

Module SearchFacts.

Lemma with_children_same (n : node) : with_children n (children n) = n.
Proof. destruct n; reflexivity. Qed.


Lemma map_filter_In {A B : Type} (f : A -> option B) (l : list A) (b : B) :
  In b (map_filter f l) <-> exists a, In a l /\ f a = Some b.
Proof.
  induction l as [|a l IH]; simpl.
  - split; [intros []|intros (a & [] & _)].
  - destruct (f a) as [b'|] eqn:E; simpl; rewrite IH; split.
    + intros [<-|(x & Hin & Hx)]; [exists a|exists x]; auto.
    + intros (x & [<-|Hin] & Hx); [left; congruence|right; now exists x].
    + intros (x & Hin & Hx). exists x. auto.
    + intros (x & [<-|Hin] & Hx); [congruence|now exists x].
Qed.

Lemma map_filter_all {A : Type} (f : A -> option A) (l : list A) :
  (forall a, In a l -> f a = Some a) -> map_filter f l = l.
Proof.
  induction l as [|a l IH]; intros H; simpl; [reflexivity|].
  rewrite (H a) by now left. f_equal. apply IH. intros x Hx. apply H. now right.
Qed.



Section Search.

Variable toLowerCase : jsstring -> jsstring.

Lemma filterNode_eq (q : jsstring) (n : node) :
  filterNode toLowerCase q n
  = if includes (toLowerCase (label n)) q
       || (0 <? length (filterNodes toLowerCase q (children n)))
    then Some (with_children n
                 (if includes (toLowerCase (label n)) q then children n
                  else filterNodes toLowerCase q (children n)))
    else None.
Proof. destruct n; reflexivity. Qed.











End Search.



End SearchFacts.

(* ================================================================= *)
(** ** More on [processDMC] *)

Module UpgradeFacts.

Lemma processDMC_not_nine (baseCode : jsstring) :
  segment_count baseCode <> 9 ->
  processDMC baseCode = mk_dmc_result baseCode (js "descript").
Proof.
  unfold segment_count, processDMC. intros H.
  remember (split dash baseCode) as parts eqn:E. clear E.
  by_segment_count parts.
  now elim H.
Qed.

Lemma index_pair (p : jsstring) :
  or_empty (index p 0) ++ or_empty (index p 1) = firstn 2 p.
Proof. destruct p as [|a [|b p]]; reflexivity. Qed.

Lemma index_short (p : jsstring) (i : nat) : length (or_empty (index p i)) <= 1.
Proof.
  unfold index. destruct (nth_error p i); simpl; lia.
Qed.

Lemma slice_last_short (p : jsstring) : length (slice p (-1) None) <= 1.
Proof. rewrite slice_last, length_skipn. lia. Qed.

(** X1. Upgrading an upgraded code changes nothing more: whatever the
    input, a second [processDMC] returns the code of the first unchanged,
    and always with document type ['descript'], also when the first pass
    said ['proced']. *)
Theorem processDMC_twice (baseCode : jsstring) :
  processDMC (dmc (processDMC baseCode))
  = mk_dmc_result (dmc (processDMC baseCode)) (js "descript").
Proof.
  apply processDMC_not_nine.
  destruct (Nat.eq_dec (segment_count baseCode) 9) as [H9|Hn].
  - unfold segment_count at 1.
    rewrite processDMC_nine_split by exact H9.
    rewrite upgraded_segments_length by exact H9. discriminate.
  - rewrite processDMC_not_nine by exact Hn. exact Hn.
Qed.

(** X2. For a nine-segment code the upgrade keeps six segments as they
    are, splits segments 7 and 8 without losing a character (the variant is
    at most one character), and keeps of segment 4 its first two characters
    only, one per new segment. *)
Theorem processDMC_keeps_characters (baseCode : jsstring) :
  segment_count baseCode = 9 ->
  let parts := split dash baseCode in
  let out := split dash (dmc (processDMC baseCode)) in
  let seg l i := nth i l [] in
  (seg out 0 = seg parts 0 /\ seg out 1 = seg parts 1 /\
   seg out 2 = seg parts 2 /\ seg out 5 = seg parts 4 /\
   seg out 6 = seg parts 5 /\ seg out 11 = seg parts 8) /\
  (seg out 3 ++ seg out 4 = firstn 2 (seg parts 3) /\
   length (seg out 3) <= 1 /\ length (seg out 4) <= 1) /\
  (seg out 7 ++ seg out 8 = seg parts 6 /\ length (seg out 8) <= 1) /\
  (seg out 9 ++ seg out 10 = seg parts 7 /\ length (seg out 10) <= 1).
Proof.
  intros H. cbv zeta. rewrite processDMC_nine_split by exact H.
  unfold segment_count in H.
  destruct (length_nine _ H) as (p1 & p2 & p3 & p4 & p5 & p6 & p7 & p8 & p9 & ->).
  cbn [upgraded_segments nth].
  split; [repeat split|]. split; [|split].
  - split; [apply index_pair|]. split; apply index_short.
  - split; [apply slice_split_last|apply slice_last_short].
  - split; [apply slice_split_last|apply slice_last_short].
Qed.

Lemma processDMC_keeps_characters_witness :
  nth 3 (split dash (dmc (processDMC (js "A-B-C-123-00-01-AB1-CD2-E")))) []
    ++ nth 4 (split dash (dmc (processDMC (js "A-B-C-123-00-01-AB1-CD2-E")))) []
  = js "12".
Proof.
  apply (processDMC_keeps_characters (js "A-B-C-123-00-01-AB1-CD2-E")).
  reflexivity.
Defined.

End UpgradeFacts.

(* ================================================================= *)
(** ** More on the search *)

Module SearchMoreFacts.

Import SearchFacts.

Section Search.

Variable toLowerCase : jsstring -> jsstring.

Lemma with_children_twice (n : node) (a b : list node) :
  with_children (with_children n a) b = with_children n b.
Proof. reflexivity. Qed.

(** A kept copy is kept as it is by the same search. *)
Lemma filterNode_fixed (q : jsstring) (n : node) :
  forall kept,
    filterNode toLowerCase q n = Some kept ->
    filterNode toLowerCase q kept = Some kept.
Proof.
  induction n as [n IH] using node_induction. intros kept.
  rewrite filterNode_eq.
  destruct (includes (toLowerCase (label n)) q) eqn:Eself; simpl orb.
  - intros [= <-]. rewrite with_children_same.
    rewrite filterNode_eq, Eself. simpl. now rewrite with_children_same.
  - destruct (0 <? length (filterNodes toLowerCase q (children n))) eqn:Elen;
      [|discriminate].
    intros [= <-].
    assert (Hfix : filterNodes toLowerCase q
                     (filterNodes toLowerCase q (children n))
                   = filterNodes toLowerCase q (children n)).
    { unfold filterNodes at 1. apply map_filter_all. intros c' Hc'.
      apply map_filter_In in Hc'. destruct Hc' as (c & Hc & Hk).
      rewrite Forall_forall in IH. exact (IH c Hc c' Hk). }
    rewrite filterNode_eq.
    change (label (with_children n (filterNodes toLowerCase q (children n))))
      with (label n).
    change (children (with_children n (filterNodes toLowerCase q (children n))))
      with (filterNodes toLowerCase q (children n)).
    rewrite Eself, Hfix. simpl orb. rewrite Elen. reflexivity.
Qed.

Lemma filterNodes_fixed (q : jsstring) (nodes : list node) :
  filterNodes toLowerCase q (filterNodes toLowerCase q nodes)
  = filterNodes toLowerCase q nodes.
Proof.
  unfold filterNodes at 1. apply map_filter_all. intros kept Hk.
  apply map_filter_In in Hk. destruct Hk as (n & _ & Hn).
  now apply filterNode_fixed with n.
Qed.

(** X3. Searching the result of a search with the same query changes
    nothing. *)
Theorem filterSystemData_twice (fullSystemData : list node)
        (query : jsstring) :
  filterSystemData toLowerCase
    (filterSystemData toLowerCase fullSystemData query) query
  = filterSystemData toLowerCase fullSystemData query.
Proof.
  unfold filterSystemData. cbv zeta.
  destruct (falsy (toLowerCase (trim query))); [reflexivity|].
  apply filterNodes_fixed.
Qed.

(** What a kept copy shares with its node. *)
Lemma filterNode_copy (q : jsstring) (n kept : node) :
  filterNode toLowerCase q n = Some kept ->
  level kept = level n /\
  (children kept = children n \/
   children kept = filterNodes toLowerCase q (children n)).
Proof.
  rewrite filterNode_eq.
  destruct (includes (toLowerCase (label n)) q
            || (0 <? length (filterNodes toLowerCase q (children n))));
    [|discriminate].
  intros [= <-]. split; [reflexivity|].
  destruct (includes (toLowerCase (label n)) q); [now left|now right].
Qed.

Lemma filterNodes_Forall (P : node -> Prop) (q : jsstring)
      (nodes : list node) :
  (forall n kept, In n nodes -> filterNode toLowerCase q n = Some kept ->
                  P kept) ->
  Forall P (filterNodes toLowerCase q nodes).
Proof.
  intros H. apply Forall_forall. intros kept Hk.
  apply map_filter_In in Hk. destruct Hk as (n & Hn & Hk). eauto.
Qed.

(** X4. A search keeps the three levels: on a forest in which groups hold
    systems, systems hold subsystems and subsystems hold nothing, the
    result is again such a forest. *)
Theorem filterSystemData_keeps_levels (fullSystemData : list node)
        (query : jsstring) :
  Forall well_levelled fullSystemData ->
  Forall well_levelled (filterSystemData toLowerCase fullSystemData query).
Proof.
  intros Hwl. unfold filterSystemData. cbv zeta.
  destruct (falsy (toLowerCase (trim query))); [exact Hwl|].
  set (q := toLowerCase (trim query)).
  assert (Hsub : forall u kept,
             (level u = js "subsystem" /\ children u = []) ->
             filterNode toLowerCase q u = Some kept ->
             level kept = js "subsystem" /\ children kept = []).
  { intros u kept [Hl Hc] Hk. apply filterNode_copy in Hk.
    destruct Hk as [Hl' [Hc'|Hc']]; split; try congruence.
    rewrite Hc', Hc. reflexivity. }
  assert (Hsys : forall s kept,
             (level s = js "system" /\
              Forall (fun u => level u = js "subsystem" /\ children u = [])
                     (children s)) ->
             filterNode toLowerCase q s = Some kept ->
             level kept = js "system" /\
             Forall (fun u => level u = js "subsystem" /\ children u = [])
                    (children kept)).
  { intros s kept [Hl Hc] Hk. apply filterNode_copy in Hk.
    destruct Hk as [Hl' [Hc'|Hc']]; split; try congruence.
    rewrite Hc'. apply filterNodes_Forall. intros u ku Hu Hku.
    rewrite Forall_forall in Hc. now apply Hsub with u; [apply Hc|]. }
  apply filterNodes_Forall. intros g kept Hg Hk.
  rewrite Forall_forall in Hwl. destruct (Hwl g Hg) as [Hl Hc].
  apply filterNode_copy in Hk. destruct Hk as [Hl' [Hc'|Hc']].
  - split; [congruence|]. now rewrite Hc'.
  - split; [congruence|]. rewrite Hc'.
    apply filterNodes_Forall. intros s ks Hs Hks.
    rewrite Forall_forall in Hc. now apply Hsys with s; [apply Hc|].
Qed.

End Search.

Lemma filterSystemData_keeps_levels_witness :
  Forall well_levelled (filterSystemData ascii_lower [airframe] (js "brake")).
Proof.
  apply (filterSystemData_keeps_levels ascii_lower [airframe] (js "brake")).
  repeat constructor.
Defined.

End SearchMoreFacts.

(* ================================================================= *)
(** ** The hierarchy built from the classification files *)

Module HierarchyFacts.

Lemma with_key_Forall {A B : Type} (P : B -> Prop)
      (key : A -> option jsstring) (build : jsstring -> A -> B)
      (l : list A) :
  (forall c k a, P (build (c :: k) a)) ->
  Forall P (with_key key build l).
Proof.
  intros H. unfold with_key. induction l as [|a l IH]; simpl.
  - constructor.
  - destruct (key a) as [[|c k]|]; try exact IH. constructor; [apply H|exact IH].
Qed.



Lemma subsystem_nodes_levelled (systemCode : jsstring)
      (subs : option (list raw_subsystem)) :
  Forall (fun u => level u = js "subsystem" /\ children u = [])
         (subsystem_nodes systemCode subs).
Proof. apply with_key_Forall. intros c k a. split; reflexivity. Qed.

Lemma system_nodes_levelled (systems : option (list raw_system)) :
  Forall (fun s =>
            level s = js "system" /\
            Forall (fun u => level u = js "subsystem" /\ children u = [])
                   (children s))
         (system_nodes systems).
Proof.
  apply with_key_Forall. intros c k a. split; [reflexivity|].
  apply subsystem_nodes_levelled.
Qed.

(** X5. On files of the shape the transformers expect, each of the four
    builds a forest of three levels at most: groups hold systems, systems
    hold subsystems, subsystems hold nothing. The transformer of the
    support file returns no node when the data or its list of categories
    is missing, and the systems it builds never hold a subsystem. The
    transformer of the general legacy file gives exactly one group when it
    returns, and on an object whose values are lists of systems (or
    missing) it throws only when the object has no key. *)
Theorem transformers_keep_levels :
  (forall rawData, Forall well_levelled (transformAtaData rawData)) /\
  (forall rawData, Forall well_levelled (transformGSVData rawData)) /\
  (forall rawData,
      Forall well_levelled (transformLegacySupportData rawData) /\
      Forall (fun g => Forall (fun s => children s = []) (children g))
             (transformLegacySupportData rawData)) /\
  transformLegacySupportData None = [] /\
  transformLegacySupportData (Some None) = [] /\
  (forall rawData,
      match transformLegacyGeneralData rawData with
      | Normal groups => length groups = 1 /\ Forall well_levelled groups
      | Throw _ => rawData = []
      end).
Proof.
  split; [|split; [|split; [|split; [|split]]]].
  - intros rawData. apply with_key_Forall. intros c k a.
    split; [reflexivity|]. apply system_nodes_levelled.
  - intros rawData. apply with_key_Forall. intros c k a.
    split; [reflexivity|]. apply system_nodes_levelled.
  - intros [[cats|]|]; split; try constructor.
    + apply with_key_Forall. intros c k a. split; [reflexivity|].
      apply with_key_Forall. intros c' k' a'.
      split; [reflexivity|constructor].
    + apply with_key_Forall. intros c k a.
      apply with_key_Forall. intros c' k' a'. reflexivity.
  - reflexivity.
  - reflexivity.
  - intros [|[topKey groupData] rest]; [reflexivity|]. simpl.
    split; [reflexivity|]. constructor; [|constructor].
    split; [reflexivity|]. apply system_nodes_levelled.
Qed.




End HierarchyFacts.

(* ================================================================= *)
(** ** The tree view *)

Module TreeFacts.

Import SearchFacts.

Lemma insert_after_at {A : Type} (pre : list A) (p x : A) (post : list A) :
  insert_after (length pre) x (pre ++ p :: post) = pre ++ p :: x :: post.
Proof.
  unfold insert_after.
  assert (Hlt : (length pre <? length (pre ++ p :: post)) = true).
  { apply Nat.ltb_lt. rewrite length_app. simpl. lia. }
  rewrite Hlt.
  replace (S (length pre)) with (length (pre ++ [p]))
    by (rewrite length_app; simpl; lia).
  replace (pre ++ p :: post) with ((pre ++ [p]) ++ post)
    by (now rewrite <- app_assoc).
  rewrite firstn_app, firstn_all, Nat.sub_diag, skipn_app, skipn_all,
    Nat.sub_diag. simpl. now rewrite app_nil_r, <- app_assoc.
Qed.

Lemma insert_after_out {A : Type} (i : nat) (x : A) (l : list A) :
  length l <= i -> insert_after i x l = l.
Proof.
  intros H. unfold insert_after.
  assert (E : (i <? length l) = false) by (apply Nat.ltb_ge; exact H).
  now rewrite E.
Qed.

Section Tree.

Variable highlight_matches : jsstring -> jsstring -> jsstring.

#[local] Abbreviation renderChildren := (renderChildren highlight_matches).
#[local] Abbreviation shown_below := (shown_below highlight_matches).
#[local] Abbreviation child_item := (child_item highlight_matches).
#[local] Abbreviation group_item := (group_item highlight_matches).
#[local] Abbreviation buildTree := (buildTree highlight_matches).
#[local] Abbreviation render_each := (render_each highlight_matches).

Lemma renderChildren_eq (c : list tree_item) (i : nat) (n : node)
      (q : jsstring) :
  renderChildren c i n q = render_each i q (children n) c.
Proof. destruct n; reflexivity. Qed.

Lemma shown_below_eq (q : jsstring) (n : node) :
  shown_below q n
  = flat_map (fun k =>
                child_item k q
                  :: (if negb (falsy q) && hasChildren k
                      then shown_below q k else []))
             (children n).
Proof. destruct n; reflexivity. Qed.

(** What [renderChildren] does to the container around the parent. *)
Lemma renderChildren_around (n : node) (q : jsstring) :
  forall pre p post,
    renderChildren (pre ++ p :: post) (length pre) n q
    = pre ++ p :: shown_below q n ++ post.
Proof.
  induction n as [n IH] using node_induction. intros pre p post.
  rewrite renderChildren_eq, shown_below_eq.
  induction (children n) as [|k later IHl]; [reflexivity|].
  inversion IH as [|? ? Hk Hlater]; subst.
  cbn [MoreProperties.render_each flat_map]. cbv zeta.
  fold (render_each (length pre) q).
  rewrite (IHl Hlater). rewrite insert_after_at.
  destruct (negb (falsy q) && hasChildren k).
  - replace (S (length pre)) with (length (pre ++ [p]))
      by (rewrite length_app; simpl; lia).
    replace (pre ++ p :: child_item k q
               :: flat_map
                    (fun k0 =>
                       child_item k0 q
                         :: (if negb (falsy q) && hasChildren k0
                             then shown_below q k0 else [])) later ++ post)
      with ((pre ++ [p]) ++ child_item k q
              :: flat_map
                   (fun k0 =>
                      child_item k0 q
                        :: (if negb (falsy q) && hasChildren k0
                            then shown_below q k0 else [])) later ++ post)
      by (now rewrite <- app_assoc).
    rewrite Hk. rewrite <- ?app_assoc. simpl. now rewrite <- ?app_assoc.
  - reflexivity.
Qed.

(** Nothing is inserted for a parent that is not in the container. *)
Lemma renderChildren_detached (n : node) (q : jsstring) :
  forall c i, length c <= i -> renderChildren c i n q = c.
Proof.
  induction n as [n IH] using node_induction. intros c i Hi.
  rewrite renderChildren_eq.
  induction (children n) as [|k later IHl]; [reflexivity|].
  inversion IH as [|? ? Hk Hlater]; subst.
  cbn [MoreProperties.render_each]. cbv zeta.
  fold (render_each i q). rewrite (IHl Hlater).
  rewrite insert_after_out by exact Hi.
  destruct (negb (falsy q) && hasChildren k); [|reflexivity].
  apply Hk. lia.
Qed.

Lemma item_node_child (k : node) (q : jsstring) :
  item_node (child_item k q) = Some k.
Proof. reflexivity. Qed.

Lemma item_node_group (g : node) (q : jsstring) :
  item_node (group_item g q) = Some g.
Proof. reflexivity. Qed.

Lemma hasChildren_false (k : node) : hasChildren k = false -> children k = [].
Proof. unfold hasChildren. destruct (children k); [reflexivity|discriminate]. Qed.

(** In a search the items below a node are all its descendants, parents
    first; otherwise they are its children. *)
Lemma shown_below_nodes (q : jsstring) (n : node) :
  map item_node (shown_below q n)
  = map Some (if falsy q then children n
              else flat_map preorder (children n)).
Proof.
  induction n as [n IH] using node_induction.
  rewrite shown_below_eq.
  destruct (falsy q) eqn:Eq; simpl negb; cbn [andb].
  - clear IH. induction (children n) as [|k later IHl]; [reflexivity|].
    simpl. now rewrite IHl.
  - induction (children n) as [|k later IHl]; [reflexivity|].
    inversion IH as [|? ? Hk Hlater]; subst.
    cbn [flat_map]. rewrite !map_app, (IHl Hlater).
    cbn [map]. rewrite item_node_child.
    replace (preorder k) with (k :: flat_map preorder (children k))
      by (destruct k; reflexivity).
    cbn [map app]. f_equal. f_equal.
    destruct (hasChildren k) eqn:Ek.
    + rewrite Hk, ?Eq. reflexivity.
    + rewrite (hasChildren_false k Ek). reflexivity.
Qed.

(** X7. [renderChildren] puts the items right after their parent and in
    the order of the data, although it walks the children backwards: the
    children only outside a search, in a search all descendants, each
    parent before its own children. For a parent that is not in the
    container nothing is inserted. *)
Theorem renderChildren_order (c : list tree_item) (i : nat) (n : node)
        (q : jsstring) :
  (i < length c ->
   exists shown,
     renderChildren c i n q = firstn (S i) c ++ shown ++ skipn (S i) c /\
     map item_node shown
     = map Some (if falsy q then children n
                 else flat_map preorder (children n))) /\
  (length c <= i -> renderChildren c i n q = c).
Proof.
  split; [|apply renderChildren_detached].
  intros Hi. exists (shown_below q n). split; [|apply shown_below_nodes].
  destruct (nth_error c i) as [p|] eqn:Ep;
    [|apply nth_error_None in Ep; lia].
  apply nth_error_split in Ep. destruct Ep as (pre & post & -> & <-).
  rewrite renderChildren_around.
  replace (S (length pre)) with (length (pre ++ [p]))
    by (rewrite length_app; simpl; lia).
  replace (pre ++ p :: post) with ((pre ++ [p]) ++ post)
    by (now rewrite <- app_assoc).
  rewrite firstn_app, firstn_all, Nat.sub_diag, skipn_app, skipn_all,
    Nat.sub_diag. simpl. now rewrite app_nil_r, <- !app_assoc.
Qed.

Lemma buildTree_fold (q : jsstring) (data : list node) :
  forall acc,
    fold_left
      (fun container groupData =>
         let container := container ++ [group_item groupData q] in
         if negb (falsy q) && hasChildren groupData
         then renderChildren container (length container - 1) groupData q
         else container)
      data acc
    = acc ++ flat_map
               (fun g =>
                  group_item g q
                    :: (if negb (falsy q) && hasChildren g
                        then shown_below q g else []))
               data.
Proof.
  induction data as [|g data IH]; intros acc; simpl.
  - now rewrite app_nil_r.
  - rewrite IH. destruct (negb (falsy q) && hasChildren g).
    + replace (length (acc ++ [group_item g q]) - 1) with (length acc)
        by (rewrite length_app; simpl; lia).
      rewrite renderChildren_around. rewrite app_nil_r.
      rewrite <- !app_assoc. reflexivity.
    + rewrite <- app_assoc. reflexivity.
Qed.

Lemma group_items_nodes (q : jsstring) (l : list node) :
  map item_node
      (flat_map
         (fun g =>
            group_item g q
              :: (if negb (falsy q) && hasChildren g
                  then shown_below q g else []))
         l)
  = map Some (if falsy q then l else flat_map preorder l).
Proof.
  induction l as [|g l IH]; [now destruct (falsy q)|].
  cbn [flat_map]. rewrite map_app. cbn [map]. rewrite item_node_group, IH.
  destruct (falsy q) eqn:Eq; simpl negb; cbn [andb].
  - reflexivity.
  - replace (preorder g) with (g :: flat_map preorder (children g))
      by (destruct g; reflexivity).
    rewrite map_app. cbn [map app]. f_equal. f_equal.
    destruct (hasChildren g) eqn:Eg.
    + pose proof (shown_below_nodes q g) as H. rewrite Eq in H. exact H.
    + rewrite (hasChildren_false g Eg). reflexivity.
Qed.

(** X8. [buildTree] shows a message for an empty forest and otherwise the
    groups in order, closed; built with a query it shows every node of the
    forest, each parent directly before its children, depth first. *)
Theorem buildTree_order (data : list node) (q : jsstring) :
  (data = [] -> exists html, buildTree data q = Message html) /\
  (data <> [] ->
   exists items,
     buildTree data q = Items items /\
     map item_node items
     = map Some (if falsy q then data else flat_map preorder data)).
Proof.
  split.
  - intros ->. eexists. reflexivity.
  - intros Hne. destruct data as [|g data]; [contradiction|].
    eexists. split; [reflexivity|].
    rewrite buildTree_fold. rewrite app_nil_l.
    apply group_items_nodes.
Qed.

(** X9. What the handler of the search box does for a non-empty input
    (the tree is built from the filtered forest, with the input as
    typed). When the filter keeps nothing, the markup assigned to the
    container is the message that nothing was found, with the input put
    between the double quotes as it was typed, not escaped. Otherwise the
    container gets one item for every node the filter kept, parents
    first. An input that is blank once trimmed and lower-cased filters
    nothing, so the whole forest is listed, open. *)
Theorem search_view (toLowerCase : jsstring -> jsstring)
        (fullSystemData : list node) (value : jsstring) :
  value <> [] ->
  let found := filterSystemData toLowerCase fullSystemData value in
  (found = [] ->
   buildTree found value
   = Message (js "<div class=" ++ dq ++ js "info-message" ++ dq
                 ++ js ">No results found for " ++ dq ++ value ++ dq
                 ++ js "</div>")) /\
  (found <> [] ->
   exists items,
     buildTree found value = Items items /\
     map item_node items = map Some (flat_map preorder found)) /\
  (toLowerCase (trim value) = [] -> found = fullSystemData).
Proof.
  intros Hvalue found.
  assert (Hq : falsy value = false) by (now destruct value).
  split; [|split].
  - intros ->. unfold GeneratorPage.buildTree. now rewrite Hq.
  - intros Hne. destruct found as [|g rest]; [contradiction|].
    eexists. split; [reflexivity|].
    rewrite buildTree_fold, app_nil_l, group_items_nodes. now rewrite Hq.
  - intros Hblank. unfold found, filterSystemData. cbv zeta.
    now rewrite Hblank.
Qed.

End Tree.

Lemma renderChildren_order_witness :
  exists shown,
    renderChildren (fun t _ => t)
                   [group_item (fun t _ => t) airframe (js "brake")] 0
                   airframe (js "brake")
    = [group_item (fun t _ => t) airframe (js "brake")] ++ shown ++ [] /\
    map item_node shown = map Some [landing_gear; gear_leaf; brake_leaf].
Proof.
  apply (renderChildren_order (fun t _ => t)
           [group_item (fun t _ => t) airframe (js "brake")] 0 airframe
           (js "brake")).
  simpl. lia.
Defined.

Lemma buildTree_order_witness :
  exists items,
    buildTree (fun t _ => t) [airframe] (js "brake") = Items items /\
    map item_node items
    = map Some [airframe; landing_gear; gear_leaf; brake_leaf].
Proof.
  apply (buildTree_order (fun t _ => t) [airframe] (js "brake")).
  discriminate.
Defined.

Lemma search_view_witness :
  exists items,
    buildTree (fun t _ => t)
              (filterSystemData ascii_lower [airframe] (js "Brake"))
              (js "Brake")
    = Items items /\
    map item_node items
    = map Some [with_children airframe
                  [with_children landing_gear [brake_leaf]];
                with_children landing_gear [brake_leaf];
                brake_leaf].
Proof.
  apply (search_view (fun t _ => t) ascii_lower [airframe] (js "Brake"));
    vm_compute; discriminate.
Defined.

End TreeFacts.

(* ================================================================= *)
(** ** Clicks on the tree *)

Module ClickFacts.

Lemma contains_true (tokens : list jsstring) (t : jsstring) :
  contains tokens t = true <-> In t tokens.
Proof.
  unfold contains. rewrite existsb_exists. split.
  - intros (u & Hin & Heq). apply jsstring_eqb_spec in Heq. now subst.
  - intros Hin. exists t. split; [exact Hin|]. now apply jsstring_eqb_spec.
Qed.

Lemma contains_false (tokens : list jsstring) (t : jsstring) :
  contains tokens t = false <-> ~ In t tokens.
Proof.
  rewrite <- contains_true. destruct (contains tokens t); split; congruence.
Qed.

Lemma jsstring_eqb_false (a b : jsstring) :
  jsstring_eqb a b = false <-> a <> b.
Proof.
  rewrite <- jsstring_eqb_spec. destruct (jsstring_eqb a b); split; congruence.
Qed.

Lemma classList_remove_absent (t : jsstring) (tokens : list jsstring) :
  ~ In t tokens -> classList_remove t tokens = tokens.
Proof.
  induction tokens as [|u tokens IH]; intros Hno; [reflexivity|].
  unfold classList_remove. cbn [filter].
  assert (E : jsstring_eqb t u = false).
  { apply jsstring_eqb_false. intros ->. apply Hno. now left. }
  rewrite E. cbn [negb]. f_equal. apply IH. intros H. apply Hno. now right.
Qed.

Lemma classList_remove_gone (t : jsstring) (tokens : list jsstring) :
  contains (classList_remove t tokens) t = false.
Proof.
  apply contains_false. unfold classList_remove. rewrite filter_In.
  intros [_ H]. assert (E : jsstring_eqb t t = true)
    by now apply jsstring_eqb_spec.
  rewrite E in H. discriminate.
Qed.

Lemma classList_remove_other (t u : jsstring) (tokens : list jsstring) :
  t <> u -> contains (classList_remove t tokens) u = contains tokens u.
Proof.
  intros Hne. induction tokens as [|v tokens IH]; [reflexivity|].
  unfold classList_remove, contains in *. cbn [filter].
  destruct (jsstring_eqb t v) eqn:E; cbn [negb existsb].
  - apply jsstring_eqb_spec in E. subst v.
    assert (E' : jsstring_eqb u t = false)
      by (apply jsstring_eqb_false; congruence).
    rewrite E'. exact IH.
  - now rewrite IH.
Qed.

(** Replacing a token and replacing it back gives the class list again. *)
Lemma replace_token_back (old new : jsstring) (tokens : list jsstring) :
  old <> new -> NoDup tokens -> In old tokens -> ~ In new tokens ->
  In new (replace_token old new tokens) /\
  replace_token new old (replace_token old new tokens) = tokens.
Proof.
  intros Hne. induction tokens as [|t tokens IH]; intros Hnd Hold Hnew;
    [contradiction|].
  inversion Hnd as [|? ? Ht Hnd']; subst.
  cbn [replace_token].
  destruct (jsstring_eqb old t) eqn:Eo.
  - apply jsstring_eqb_spec in Eo. subst t. cbn [orb].
    rewrite (classList_remove_absent new tokens)
      by (intros H; apply Hnew; now right).
    rewrite (classList_remove_absent old tokens) by exact Ht.
    split; [now left|].
    cbn [replace_token].
    assert (E : jsstring_eqb new new = true) by now apply jsstring_eqb_spec.
    rewrite E. cbn [orb].
    rewrite (classList_remove_absent old tokens) by exact Ht.
    rewrite (classList_remove_absent new tokens)
      by (intros H; apply Hnew; now right).
    reflexivity.
  - assert (En : jsstring_eqb new t = false).
    { apply jsstring_eqb_false. intros ->. apply Hnew. now left. }
    rewrite En. cbn [orb].
    assert (Hold' : In old tokens).
    { destruct Hold as [->|H]; [|exact H].
      apply jsstring_eqb_false in Eo. contradiction. }
    destruct (IH Hnd' Hold' (fun H => Hnew (or_intror H))) as [Hin Hback].
    split; [now right|].
    cbn [replace_token]. rewrite En, Eo. cbn [orb]. now rewrite Hback.
Qed.

Lemma set_classList_back (tokens : list jsstring) (it : tree_item) :
  set_classList (classList it) (set_classList tokens it) = it.
Proof. destruct it; reflexivity. Qed.

Lemma firstn_here {A : Type} (pre : list A) (x : A) (post : list A) :
  firstn (length pre) (pre ++ x :: post) = pre.
Proof.
  rewrite firstn_app, firstn_all, Nat.sub_diag. simpl. apply app_nil_r.
Qed.

Lemma skipn_here {A : Type} (pre : list A) (x : A) (post : list A) :
  skipn (S (length pre)) (pre ++ x :: post) = post.
Proof.
  replace (pre ++ x :: post) with ((pre ++ [x]) ++ post)
    by (now rewrite <- app_assoc).
  replace (S (length pre)) with (length (pre ++ [x]))
    by (rewrite length_app; simpl; lia).
  rewrite skipn_app, skipn_all, Nat.sub_diag. reflexivity.
Qed.

Lemma nth_error_here {A : Type} (pre : list A) (x : A) (post : list A) :
  nth_error (pre ++ x :: post) (length pre) = Some x.
Proof. rewrite nth_error_app2, Nat.sub_diag by lia. reflexivity. Qed.

(** The loop of the collapse removes a run of deeper items and stops at
    the first item that is not deeper. *)
Lemma remove_deeper_run (current : option nat) (run rest : list tree_item) :
  Forall (fun it => deeper (hierarchyLevels (ds_level it)) current = true)
         run ->
  (forall next, nth_error rest 0 = Some next ->
                deeper (hierarchyLevels (ds_level next)) current = false) ->
  remove_deeper current (run ++ rest) = rest.
Proof.
  intros Hrun Hrest. induction Hrun as [|it run Hit _ IH]; simpl.
  - destruct rest as [|next rest]; [reflexivity|].
    simpl. now rewrite (Hrest next eq_refl).
  - now rewrite Hit.
Qed.

Section Tree.

Variable highlight_matches : jsstring -> jsstring -> jsstring.

#[local] Abbreviation toggleExpand := (toggleExpand highlight_matches).
#[local] Abbreviation child_item := (child_item highlight_matches).

(** X10. Opening a closed item puts the items of its children right after
    it, and closing it again gives the container back as it was: the
    class list of the item is restored and exactly the inserted items are
    removed. The levels must be known and the children deeper than the
    item, as in the forests the transformers build. *)
Theorem toggleExpand_round_trip (container : list tree_item) (idx : nat)
        (item : tree_item) (data : node) (l : nat) :
  nth_error container idx = Some item ->
  NoDup (classList item) ->
  contains (classList item) (js "collapsed") = true ->
  contains (classList item) (js "expanded") = false ->
  hierarchyLevels (ds_level item) = Some l ->
  Forall (fun k => deeper (hierarchyLevels (level k)) (Some l) = true)
         (children data) ->
  (forall next, nth_error container (S idx) = Some next ->
                deeper (hierarchyLevels (ds_level next)) (Some l) = false) ->
  toggleExpand container idx data
  = firstn idx container
      ++ set_classList (classList_replace (js "collapsed") (js "expanded")
                                          (classList item)) item
      :: map (fun k => child_item k []) (children data)
      ++ skipn (S idx) container /\
  toggleExpand (toggleExpand container idx data) idx data = container.
Proof.
  intros Hitem Hnd Hcol Hexp Hl Hkids Hnext.
  apply nth_error_split in Hitem. destruct Hitem as (pre & post & -> & <-).
  rewrite skipn_here, firstn_here.
  assert (Hne : js "collapsed" <> js "expanded") by discriminate.
  apply contains_true in Hcol. apply contains_false in Hexp.
  destruct (replace_token_back (js "collapsed") (js "expanded")
              (classList item) Hne Hnd Hcol Hexp) as [Hin Hback].
  assert (Hopen :
    toggleExpand (pre ++ item :: post) (length pre) data
    = pre ++ set_classList
               (classList_replace (js "collapsed") (js "expanded")
                                  (classList item)) item
          :: map (fun k => child_item k []) (children data) ++ post).
  { unfold GeneratorPage.toggleExpand. rewrite nth_error_here.
    apply contains_false in Hexp. rewrite Hexp.
    cbv zeta. rewrite firstn_here, skipn_here.
    rewrite TreeFacts.renderChildren_around, TreeFacts.shown_below_eq.
    cbn [falsy negb andb].
    assert (Hmap : forall ks,
               flat_map (fun k => [child_item k []]) ks
               = map (fun k => child_item k []) ks).
    { intros ks. induction ks as [|k ks IH]; [reflexivity|].
      simpl. now rewrite IH. }
    now rewrite Hmap. }
  split; [exact Hopen|].
  rewrite Hopen. unfold GeneratorPage.toggleExpand at 1.
  rewrite nth_error_here.
  unfold classList_replace.
  apply contains_true in Hcol. rewrite Hcol.
  assert (Hnow : contains (classList
                   (set_classList
                      (replace_token (js "collapsed") (js "expanded")
                                     (classList item)) item))
                   (js "expanded") = true).
  { apply contains_true. destruct item; exact Hin. }
  rewrite Hnow. cbv beta iota zeta. rewrite firstn_here, skipn_here.
  assert (Hcl : classList
                  (set_classList
                     (replace_token (js "collapsed") (js "expanded")
                                    (classList item)) item)
                = replace_token (js "collapsed") (js "expanded")
                                (classList item))
    by (destruct item; reflexivity).
  rewrite Hcl, Hback.
  assert (Hlev : ds_level
                   (set_classList (classList item)
                      (set_classList
                         (replace_token (js "collapsed") (js "expanded")
                                        (classList item)) item))
                 = ds_level item) by (destruct item; reflexivity).
  rewrite Hlev, Hl, set_classList_back.
  rewrite remove_deeper_run; [reflexivity| |].
  - clear -Hkids. induction Hkids as [|k ks Hk _ IH]; simpl; constructor.
    + exact Hk.
    + exact IH.
  - intros next Hn. apply Hnext.
    rewrite nth_error_app2 by lia.
    replace (S (length pre) - length pre) with 1 by lia.
    destruct post; [discriminate|exact Hn].
Qed.

Lemma contains_classList_add (t : jsstring) (tokens : list jsstring) :
  contains (classList_add t tokens) t = true.
Proof.
  unfold classList_add. destruct (contains tokens t) eqn:E; [exact E|].
  apply contains_true, in_or_app. right. now left.
Qed.

Lemma nth_error_replaced {A : Type} (l : list A) (i j : nat) (x : A) :
  i < length l ->
  nth_error (firstn i l ++ x :: skipn (S i) l) j
  = if j =? i then Some x else nth_error l j.
Proof.
  intros Hi. destruct (nth_error l i) as [y|] eqn:Ey;
    [|apply nth_error_None in Ey; lia].
  apply nth_error_split in Ey. destruct Ey as (pre & post & -> & <-).
  rewrite firstn_here, skipn_here.
  destruct (Nat.eqb_spec j (length pre)) as [->|Hne].
  - apply nth_error_here.
  - destruct (Nat.lt_ge_cases j (length pre)) as [Hlt|Hge].
    + now rewrite !nth_error_app1 by exact Hlt.
    + rewrite !nth_error_app2 by exact Hge.
      destruct (j - length pre) as [|k] eqn:Ek; [lia|reflexivity].
Qed.

(** X11. Choosing an item of node [n] stores its system code and, as
    subsystem code, the text kept in the data set of the item: the code of
    a subsystem, ["00"] for an empty code, and the text [null] for a node
    without subsystem (a system), for which the default ["00"] is
    therefore never taken. The codes are produced again from the new
    selection, and of the items of the tree exactly the chosen one is
    marked as selected. *)
Theorem selectSystem_selection (u : ui) (idx : nat) (n : node)
        (q : jsstring) (tokens : list jsstring) :
  nth_error (tree u) idx = Some (set_classList tokens (child_item n q)) ->
  let u' := selectSystem u idx in
  selectedSystemCode (form u') = systemCode n /\
  selectedSubsystemCode (form u')
  = match subsystemCode n with
    | None => js "null"
    | Some [] => js "00"
    | Some (c :: sub) => c :: sub
    end /\
  selectedSystemText u' = Some (fullCode n ++ js " - " ++ title n) /\
  dmCodes u' = updateResult (form u') /\
  length (tree u') = length (tree u) /\
  forall j it,
    nth_error (tree u') j = Some it ->
    contains (classList it) (js "tree-item") = true ->
    (contains (classList it) (js "selected") = true <-> j = idx).
Proof.
  intros Hitem u'.
  assert (Hidx : idx < length (tree u))
    by (apply nth_error_Some; rewrite Hitem; discriminate).
  unfold u', GeneratorPage.selectSystem. rewrite Hitem. cbv zeta.
  cbn [form selectedSystemText dmCodes tree set_selection
       selectedSystemCode selectedSubsystemCode].
  assert (Hothers : forall j it,
             j <> idx ->
             nth_error
               (map (fun it : tree_item =>
                       if contains (classList it) (js "tree-item")
                          && contains (classList it) (js "selected")
                       then set_classList
                              (classList_remove (js "selected")
                                                (classList it)) it
                       else it) (tree u)) j = Some it ->
             contains (classList it) (js "tree-item") = true ->
             contains (classList it) (js "selected") = true -> False).
  { intros j it Hne Hj Htree Hsel. rewrite nth_error_map in Hj.
    destruct (nth_error (tree u) j) as [y|]; [|discriminate].
    injection Hj as <-.
    destruct (contains (classList y) (js "tree-item")
              && contains (classList y) (js "selected")) eqn:E.
    - assert (Hgone : contains (classList_remove (js "selected")
                                                 (classList y))
                               (js "selected") = false)
        by apply classList_remove_gone.
      destruct y; cbn in Hsel, Hgone. congruence.
    - rewrite Htree, Hsel in E. discriminate. }
  destruct (contains (classList (set_classList tokens (child_item n q)))
                     (js "tree-item")
            && contains (classList (set_classList tokens (child_item n q)))
                        (js "selected"));
    (split; [reflexivity|]; split;
     [cbn; destruct (subsystemCode n) as [[|c sub]|]; reflexivity|];
     split; [reflexivity|]; split; [reflexivity|]; split;
     [rewrite length_app; cbn [length];
      rewrite length_firstn, length_skipn, length_map; lia|]);
    intros j it Hj Htree;
    rewrite nth_error_replaced in Hj by (now rewrite length_map);
    (destruct (Nat.eqb_spec j idx) as [->|Hne];
     [injection Hj as <-; split; [reflexivity|]; intros _;
      apply contains_classList_add
     |split; [|contradiction]; intros Hsel; exfalso;
      exact (Hothers j it Hne Hj Htree Hsel)]).
Qed.

End Tree.

Lemma toggleExpand_round_trip_witness :
  toggleExpand (fun t _ => t)
               [group_item (fun t _ => t) airframe [];
                group_item (fun t _ => t) airframe []] 0 airframe
  = [set_classList [js "tree-item"; js "group"; js "expanded"]
                   (group_item (fun t _ => t) airframe []);
     child_item (fun t _ => t) landing_gear [];
     group_item (fun t _ => t) airframe []] /\
  toggleExpand (fun t _ => t)
    (toggleExpand (fun t _ => t)
                  [group_item (fun t _ => t) airframe [];
                   group_item (fun t _ => t) airframe []] 0 airframe)
    0 airframe
  = [group_item (fun t _ => t) airframe [];
     group_item (fun t _ => t) airframe []].
Proof.
  apply (toggleExpand_round_trip (fun t _ => t)
           [group_item (fun t _ => t) airframe [];
            group_item (fun t _ => t) airframe []] 0
           (group_item (fun t _ => t) airframe []) airframe 0).
  - reflexivity.
  - vm_compute. repeat constructor; simpl; intuition discriminate.
  - reflexivity.
  - reflexivity.
  - reflexivity.
  - vm_compute. repeat constructor.
  - intros next H. vm_compute in H. injection H as <-. reflexivity.
Defined.

Lemma selectSystem_selection_witness :
  selectedSubsystemCode
    (form (selectSystem
             (mk_ui [group_item (fun t _ => t) airframe [];
                     child_item (fun t _ => t) landing_gear []]
                    (sample_page None) None [])
             1))
  = js "null" /\
  dmCodes (selectSystem
             (mk_ui [group_item (fun t _ => t) airframe [];
                     child_item (fun t _ => t) landing_gear []]
                    (sample_page None) None [])
             1)
  = [js "GSV-H-32-null-00-00-000-D"].
Proof.
  destruct (selectSystem_selection (fun t _ => t)
              (mk_ui [group_item (fun t _ => t) airframe [];
                      child_item (fun t _ => t) landing_gear []]
                     (sample_page None) None [])
              1 landing_gear []
              (classList (child_item (fun t _ => t) landing_gear []))
              eq_refl) as (_ & Hsub & _ & Hcodes & _).
  split; [exact Hsub|]. rewrite Hcodes. reflexivity.
Defined.

End ClickFacts.

(* ================================================================= *)
(** ** The codes on the page *)

Module PageFacts.

Import GeneratorFacts.

Lemma string_of_uint_digits (d : Decimal.uint) :
  Forall (fun c => is_digit c = true) (js (NilEmpty.string_of_uint d)).
Proof.
  induction d; simpl; constructor; try reflexivity; exact IHd.
Qed.

Lemma read_uint (d : Decimal.uint) (acc : nat) :
  fold_left (fun acc c => 10 * acc + (N.to_nat c - 48))
            (js (NilEmpty.string_of_uint d)) acc
  = Nat.of_uint_acc d acc.
Proof.
  revert acc.
  induction d; intros acc; cbn [NilEmpty.string_of_uint Nat.of_uint_acc];
    [reflexivity|..];
    (unfold js in *; cbn [String.list_ascii_of_string map fold_left];
     rewrite IHd; f_equal; rewrite Nat.tail_mul_spec;
     cbn [N_of_ascii N_of_digits]; simpl N.to_nat; lia).
Qed.

Lemma read_digits_String_of_nat (i : nat) :
  read_digits (String_of_nat i) = i.
Proof.
  unfold read_digits, String_of_nat. rewrite read_uint.
  apply DecimalNat.Unsigned.of_to.
Qed.

Lemma read_digits_two_digits (i : nat) : read_digits (two_digits i) = i.
Proof.
  unfold two_digits, padStart, read_digits. rewrite fold_left_app.
  assert (Hpad : forall k,
             fold_left (fun acc c => 10 * acc + (N.to_nat c - 48))
                       (repeat 48%N k) 0 = 0).
  { intros k. induction k as [|k IH]; [reflexivity|]. simpl. exact IH. }
  rewrite Hpad. apply read_digits_String_of_nat.
Qed.

Lemma two_digits_free (i : nat) : ~ In dash (two_digits i).
Proof.
  unfold two_digits, padStart. rewrite in_app_iff. intros [H|H].
  - apply repeat_spec in H. discriminate.
  - pose proof (string_of_uint_digits (Nat.to_uint i)) as Hd.
    rewrite Forall_forall in Hd. specialize (Hd dash H). discriminate.
Qed.

(** The segments of a code, the four leading fields being free of
    hyphens. *)
Lemma split_code_of (p : page) (unitCode dc : jsstring) :
  ~ In dash (trim (modelInput p)) ->
  ~ In dash (trim (sdcInput p)) ->
  ~ In dash (selectedSystemCode p) ->
  ~ In dash (selectedSubsystemCode p) ->
  split dash (code_of p unitCode dc)
  = trim (modelInput p) :: trim (sdcInput p) :: selectedSystemCode p
      :: selectedSubsystemCode p
      :: split dash (unitCode ++ dash :: (dc ++ trim (dmvInput p)) ++ dash
                       :: finalInfoCode p ++ dash :: js "D").
Proof.
  intros Hm Hs Hsys Hsub. unfold code_of. cbn [join app].
  rewrite (split_free_app dash _ _ Hm), (split_free_app dash _ _ Hs),
    (split_free_app dash _ _ Hsys), (split_free_app dash _ _ Hsub).
  reflexivity.
Qed.

Lemma updateResult_forms (p : page) :
  updateResult p
  = if inputs_complete p
    then if (unitCount p <=? 0)%Z then [code_of p (js "00") (dcCode p 0)]
         else map (fun j => code_of p (two_digits j) (dcCode p j))
                  (seq 1 (Z.to_nat (unitCount p)))
    else [].
Proof.
  unfold updateResult, inputs_complete. cbv zeta.
  destruct (falsy (trim (modelInput p)) || falsy (trim (sdcInput p))
            || falsy (selectedSystemCode p)
            || (1 <? length (trim (dmvInput p)))); cbn [negb];
    [reflexivity|].
  destruct (unitCount p <=? 0)%Z.
  - now rewrite unitFullCode_code_of.
  - rewrite push_units_map. cbn [app]. apply map_ext.
    intros j. apply unitFullCode_code_of.
Qed.

Lemma In_updateResult (p : page) (c : jsstring) :
  In c (updateResult p) ->
  exists j, c = code_of p (if (unitCount p <=? 0)%Z then js "00"
                           else two_digits j) (dcCode p j).
Proof.
  rewrite updateResult_forms. destruct (inputs_complete p); [|intros []].
  destruct (unitCount p <=? 0)%Z.
  - intros [<-|[]]. now exists 0.
  - rewrite in_map_iff. intros (j & <- & _). now exists j.
Qed.

(** X12. When the unit count is edited the table of disassembly codes is
    built afresh before the codes are: whatever had been entered for the
    units is gone, and every code carries the disassembly code ["00"]. *)
Theorem unit_count_resets_disassembly_codes (p : page) :
  (forall i, dcCode (updateDcTable p) i = js "00") /\
  updateResult (updateDcTable p) = codes_after_reset p /\
  updateResult (updateDcTable p) = updateResult (without_unit_inputs p).
Proof.
  assert (Hdc : forall i, dcCode (updateDcTable p) i = js "00").
  { intros i. unfold dcCode, updateDcTable. cbn [dcInput].
    destruct (unitCount p <=? 0)%Z.
    - destruct (i =? 0); reflexivity.
    - destruct ((1 <=? i) && (i <=? Z.to_nat (unitCount p)));
        reflexivity. }
  assert (Hcodes : updateResult (updateDcTable p) = codes_after_reset p).
  { rewrite updateResult_forms. unfold codes_after_reset.
    change (inputs_complete (updateDcTable p)) with (inputs_complete p).
    change (unitCount (updateDcTable p)) with (unitCount p).
    destruct (inputs_complete p); [|reflexivity].
    destruct (unitCount p <=? 0)%Z.
    - now rewrite Hdc.
    - apply map_ext. intros j. now rewrite Hdc. }
  split; [exact Hdc|]. split; [exact Hcodes|].
  rewrite Hcodes, updateResult_forms. unfold codes_after_reset.
  change (inputs_complete (without_unit_inputs p)) with (inputs_complete p).
  change (unitCount (without_unit_inputs p)) with (unitCount p).
  reflexivity.
Qed.

(** X13. Each download button shows the fourth segment of its code. With
    model, SDC and system code free of hyphens that is the subsystem
    code, not the unit: the buttons of all units carry the same text.
    The button for all codes is disabled unless there are two codes or
    more, that is, unless the inputs are complete and the unit count is
    at least two. *)
Theorem download_buttons_show_subsystem (p : page) :
  ~ In dash (trim (modelInput p)) ->
  ~ In dash (trim (sdcInput p)) ->
  ~ In dash (selectedSystemCode p) ->
  ~ In dash (selectedSubsystemCode p) ->
  fst (renderDownloadButtons (updateResult p))
  = map (fun _ => js "Download " ++ selectedSubsystemCode p)
        (updateResult p) /\
  snd (renderDownloadButtons (updateResult p))
  = negb (inputs_complete p && (2 <=? unitCount p)%Z).
Proof.
  intros Hm Hs Hsys Hsub. unfold renderDownloadButtons. cbn [fst snd].
  split.
  - apply map_ext_in. intros c Hc.
    apply In_updateResult in Hc. destruct Hc as (j & ->).
    unfold button_text. now rewrite split_code_of.
  - rewrite updateResult_forms.
    destruct (inputs_complete p); [|reflexivity]. cbn [andb].
    destruct (Z.leb_spec (unitCount p) 0) as [Hle|Hgt].
    + cbn [length]. symmetry. apply negb_true_iff, Z.leb_gt. lia.
    + rewrite length_map, length_seq.
      destruct (Z.leb_spec 2 (unitCount p)) as [H2|H2]; cbn [negb].
      * apply Nat.leb_gt. lia.
      * apply Nat.leb_le. lia.
Qed.

(** X14. The codes of the page have eight segments when their fields are
    free of hyphens, so [processDMC] never upgrades them: the converter
    takes each as it is and as a descriptive module, the information code
    ["000"] included. *)
Theorem page_codes_are_passed_through (p : page) :
  ~ In dash (trim (modelInput p)) ->
  ~ In dash (trim (sdcInput p)) ->
  ~ In dash (selectedSystemCode p) ->
  ~ In dash (selectedSubsystemCode p) ->
  ~ In dash (trim (dmvInput p)) ->
  ~ In dash (finalInfoCode p) ->
  (forall i, ~ In dash (dcCode p i)) ->
  Forall (fun c =>
            segment_count c = 8 /\
            processDMC c = mk_dmc_result c (js "descript"))
         (updateResult p).
Proof.
  intros Hm Hs Hsys Hsub Hv Hinfo Hdc. apply Forall_forall. intros c Hc.
  apply In_updateResult in Hc. destruct Hc as (j & ->).
  assert (Hunit : ~ In dash (if (unitCount p <=? 0)%Z then js "00"
                             else two_digits j)).
  { destruct (unitCount p <=? 0)%Z; [|apply two_digits_free].
    intros H. vm_compute in H. intuition discriminate. }
  assert (Hcount :
    segment_count
      (code_of p (if (unitCount p <=? 0)%Z then js "00" else two_digits j)
               (dcCode p j)) = 8).
  { unfold segment_count. rewrite split_code_of by assumption.
    rewrite (split_free_app dash _ _ Hunit).
    rewrite <- app_assoc.
    assert (Hdv : ~ In dash (dcCode p j ++ trim (dmvInput p))).
    { rewrite in_app_iff. intros [H|H]; [exact (Hdc j H)|exact (Hv H)]. }
    rewrite app_assoc.
    rewrite (split_free_app dash _ _ Hdv), (split_free_app dash _ _ Hinfo).
    reflexivity. }
  split; [exact Hcount|].
  apply UpgradeFacts.processDMC_not_nine. rewrite Hcount. discriminate.
Qed.

(** X15. No two codes of the page are the same, whatever the inputs: the
    unit segments are different numbers and stand at the same place. *)
Theorem page_codes_are_distinct (p : page) : NoDup (updateResult p).
Proof.
  rewrite updateResult_forms. destruct (inputs_complete p); [|constructor].
  destruct (unitCount p <=? 0)%Z.
  - constructor; [intros []|constructor].
  - apply NoDup_map_NoDup_ForallPairs; [|apply seq_NoDup].
    intros i j _ _ Heq. unfold code_of in Heq. cbn [join] in Heq.
    do 4 (apply app_inv_head in Heq; cbn [app] in Heq;
          injection Heq as Heq).
    assert (Hsplit : split dash (two_digits i ++ dash :: dcCode p i
                                   ++ trim (dmvInput p) ++ dash
                                   :: finalInfoCode p ++ dash :: js "D")
                     = split dash (two_digits j ++ dash :: dcCode p j
                                     ++ trim (dmvInput p) ++ dash
                                     :: finalInfoCode p ++ dash :: js "D")).
    { f_equal. rewrite <- !app_assoc in Heq. exact Heq. }
    rewrite (split_free_app dash _ _ (two_digits_free i)),
      (split_free_app dash _ _ (two_digits_free j)) in Hsplit.
    injection Hsplit as Hij _.
    rewrite <- (read_digits_two_digits i), <- (read_digits_two_digits j).
    now rewrite Hij.
Qed.

Lemma download_buttons_show_subsystem_witness :
  fst (renderDownloadButtons (updateResult (sample_page (Some 3%Z))))
  = [js "Download 10"; js "Download 10"; js "Download 10"] /\
  snd (renderDownloadButtons (updateResult (sample_page (Some 3%Z))))
  = false.
Proof.
  apply (download_buttons_show_subsystem (sample_page (Some 3%Z)));
    vm_compute; intuition discriminate.
Defined.

Lemma page_codes_are_passed_through_witness :
  Forall (fun c =>
            segment_count c = 8 /\
            processDMC c = mk_dmc_result c (js "descript"))
         [js "GSV-H-041-10-01-00-000-D"; js "GSV-H-041-10-02-00-000-D"].
Proof.
  apply (page_codes_are_passed_through (sample_page (Some 2%Z)));
    try (vm_compute; intuition discriminate).
  intros i. unfold dcCode. cbn [dcInput sample_page].
  destruct (i =? 2); vm_compute; intuition discriminate.
Defined.

End PageFacts.

(* ================================================================= *)
(** ** The file tools *)

Module ToolFacts.

Section Tools.

Variable path_join : list jsstring -> jsstring.
Variable fs : fs_api.
Variable fs_promises : option fs_api.
Variable replace_all : jsstring -> jsstring -> jsstring -> completion jsstring.
Variable toLowerCase : jsstring -> jsstring.
Variable parse_name : jsstring -> jsstring.
Variable execCommand :
  history -> jsstring -> list (option jsstring) -> completion unit.
Variable toolsDir : jsstring.
Variable cheerio : completion (jsstring -> jsstring * option jsstring).

#[local] Abbreviation rename_each := (rename_each path_join fs replace_all).
#[local] Abbreviation renameFiles := (renameFiles path_join fs replace_all).
#[local] Abbreviation renaming := (renaming path_join replace_all).

(** The loop renames the files that contain the old text, in order, and
    stops at the first one it cannot rename. *)
Lemma rename_each_done (folderPath oldText newText : jsstring)
      (files : list jsstring) :
  forall count h,
  exists k done,
    snd (rename_each folderPath oldText newText files count h) = h ++ done /\
    Forall2 (renaming folderPath oldText newText)
            (firstn k (filter (fun f => includes f oldText) files)) done /\
    match fst (rename_each folderPath oldText newText files count h) with
    | Normal c =>
        k = length (filter (fun f => includes f oldText) files) /\
        c = count + k
    | Throw _ => k < length (filter (fun f => includes f oldText) files)
    end.
Proof.
  induction files as [|f rest IH]; intros count h.
  - exists 0, []. cbn. rewrite app_nil_r. repeat split; [constructor|lia].
  - cbn [ConverterTools.rename_each filter].
    destruct (includes f oldText) eqn:Ef; [|apply IH].
    destruct (replace_all oldText f newText) as [newFilename|e] eqn:Er.
    + destruct (rename fs h (path_join [folderPath; f])
                       (path_join [folderPath; newFilename])) as [[]|e]
        eqn:Em.
      * destruct (IH (S count)
                     (h ++ [Renamed (path_join [folderPath; f])
                                    (path_join [folderPath; newFilename])]))
          as (k & done & Hh & Hdone & Hres).
        exists (S k),
          (Renamed (path_join [folderPath; f])
                   (path_join [folderPath; newFilename]) :: done).
        split; [rewrite Hh, <- app_assoc; reflexivity|]. split.
        -- cbn [firstn]. constructor; [|exact Hdone].
           exists newFilename. now split.
        -- destruct (fst (ConverterTools.rename_each _ _ _ _ _ _ rest _ _));
             cbn [length]; lia.
      * exists 0, []. cbn. rewrite app_nil_r.
        split; [reflexivity|]. split; [constructor|lia].
    + exists 0, []. cbn. rewrite app_nil_r.
      split; [reflexivity|]. split; [constructor|lia].
Qed.

(** X16. [renameFiles] renames the files whose name contains the old
    text, in the order of the directory, and no other. It reports success
    with their number when all were renamed. When a new name cannot be
    computed or a rename fails it reports the error; the files renamed
    before stay renamed. A folder without such a file gives success with
    count 0 whatever the old text is, a broken pattern included. *)
Theorem renameFiles_renames (folderPath oldText newText : jsstring)
        (h : history) (files : list jsstring) :
  readdir fs h folderPath = Normal files ->
  let planned := filter (fun f => includes f oldText) files in
  (exists k done,
     snd (renameFiles folderPath oldText newText h) = h ++ done /\
     Forall2 (renaming folderPath oldText newText) (firstn k planned) done /\
     match fst (renameFiles folderPath oldText newText h) with
     | Success (message, count) =>
         k = length planned /\ count = length planned /\
         message = js "Renamed " ++ String_of_nat count ++ js " files"
     | Failure _ => k < length planned
     end) /\
  (planned = [] ->
   renameFiles folderPath oldText newText h
   = (Success (js "Renamed 0 files", 0), h)).
Proof.
  intros Hdir planned.
  destruct (rename_each_done folderPath oldText newText files 0 h)
    as (k & done & Hh & Hdone & Hres).
  fold planned in Hdone, Hres.
  unfold ConverterTools.renameFiles. rewrite Hdir.
  destruct (ConverterTools.rename_each path_join fs replace_all folderPath
              oldText newText files 0 h) as [[c|e] h'] eqn:E;
    cbn [fst snd] in *.
  - split.
    + exists k, done. split; [exact Hh|]. split; [exact Hdone|].
      destruct Hres as [Hk Hc]. cbn in Hc. subst c. now rewrite Hk.
    + intros Hnone. rewrite Hnone in Hres, Hdone. cbn in Hres.
      destruct Hres as [-> ->]. cbn in Hdone. inversion Hdone; subst.
      now rewrite app_nil_r.
  - split.
    + exists k, done. split; [exact Hh|]. split; [exact Hdone|exact Hres].
    + intros Hnone. rewrite Hnone in Hres. cbn in Hres. lia.
Qed.

(** X17. [pmToToc] asks [getSaxonPaths] for the properties [saxonJar] and
    [xslDir], while the object has [jar] and [xsl]: both are [undefined],
    joining the path of the stylesheet throws, and every call ends with
    that error before anything is looked up, created or run. *)
Theorem pmToToc_never_starts (inputDir outputDir : jsstring) (h : history) :
  get (getSaxonPaths path_join toolsDir) (js "saxonJar") = None /\
  get (getSaxonPaths path_join toolsDir) (js "xslDir") = None /\
  get (getSaxonPaths path_join toolsDir) (js "jar") <> None /\
  get (getSaxonPaths path_join toolsDir) (js "xsl") <> None /\
  pmToToc path_join fs_promises toLowerCase parse_name execCommand toolsDir
          inputDir outputDir h
  = (Failure path_not_a_string, h).
Proof.
  split; [reflexivity|]. split; [reflexivity|].
  split; [discriminate|]. split; [discriminate|]. reflexivity.
Qed.

#[local] Abbreviation htmlToJson :=
  (htmlToJson path_join fs_promises toLowerCase parse_name cheerio).

Lemma lastIndexOf_none (s : jsstring) (c : char) :
  lastIndexOf s c = None -> ~ In c s.
Proof.
  induction s as [|d s IH]; intros H; [intros []|].
  cbn in H. destruct (lastIndexOf s c); [discriminate|].
  destruct (N.eqb_spec d c) as [->|Hne]; [discriminate|].
  intros [Hd|Hin]; [congruence|]. now apply IH.
Qed.

Lemma lastIndexOf_some (s : jsstring) (c : char) (i : nat) :
  lastIndexOf s c = Some i ->
  exists after, s = firstn i s ++ c :: after /\ ~ In c after.
Proof.
  revert i. induction s as [|d s IH]; intros i H; [discriminate|].
  cbn in H. destruct (lastIndexOf s c) as [j|] eqn:E.
  - injection H as <-. destruct (IH j eq_refl) as (after & Hs & Hfree).
    exists after. split; [|exact Hfree]. cbn. now rewrite <- Hs.
  - destruct (N.eqb_spec d c) as [->|Hne]; [|discriminate].
    injection H as <-. exists s. split; [reflexivity|].
    now apply lastIndexOf_none.
Qed.

Lemma html_each_all (api : fs_api)
      (load : jsstring -> jsstring * option jsstring)
      (inputDir : jsstring) (h : history) (files : list jsstring) :
  (forall f, In f files -> exists c,
       readFile api h (path_join [inputDir; f]) = Normal c) ->
  forall dataCollection,
  exists data,
    html_each path_join toLowerCase parse_name api load inputDir h files
              dataCollection
    = Normal (dataCollection ++ data) /\
    map dm_id data
    = map (fun f => dmcId (parse_name f))
          (filter (fun f => endsWith (toLowerCase f) (js ".html")
                            || endsWith (toLowerCase f) (js ".htm"))
                  files) /\
    Forall (fun d => dm_type d = js "data_module") data.
Proof.
  induction files as [|f rest IH]; intros Hread dataCollection.
  - exists []. cbn. rewrite app_nil_r. repeat split. constructor.
  - cbn [html_each filter].
    assert (Hrest : forall g, In g rest -> exists c,
                 readFile api h (path_join [inputDir; g]) = Normal c)
      by (intros g Hg; apply Hread; now right).
    destruct (endsWith (toLowerCase f) (js ".html")
              || endsWith (toLowerCase f) (js ".htm")) eqn:E.
    + apply orb_true_iff in E.
      assert (E' : negb (endsWith (toLowerCase f) (js ".html"))
                   && negb (endsWith (toLowerCase f) (js ".htm")) = false).
      { destruct E as [-> | ->]; [reflexivity|apply andb_false_r]. }
      rewrite E'. destruct (Hread f (or_introl eq_refl)) as (c & ->).
      destruct (load c) as [titleText bodyHtml].
      destruct (IH Hrest
                  (dataCollection
                     ++ [mk_data_module
                           (dmcId (parse_name f)) (trim titleText)
                           (js "data_module")
                           (trim match bodyHtml with
                                 | Some html => html
                                 | None => []
                                 end)]))
        as (data & Hrun & Hids & Htypes).
      eexists (_ :: data). split; [|split].
      * rewrite Hrun, <- app_assoc. reflexivity.
      * cbn [map dm_id]. now rewrite Hids.
      * constructor; [reflexivity|exact Htypes].
    + apply orb_false_iff in E. destruct E as [-> ->]. cbn [negb andb].
      apply IH, Hrest.
Qed.

(** X18. [htmlToJson] reads the directory through [fs.promises], [fs]
    being the promise API already: where that has no member [promises],
    every call fails. With such a member, and all files readable, it gives
    one entry per file whose lower-cased name ends in [.html] or [.htm],
    in the order of the directory, and fails when there is none; the id
    of an entry is the base name of the file up to its last underscore,
    the whole base name when it has none. *)
Theorem htmlToJson_outcome (inputDir : jsstring)
        (outputFormat : option jsstring) (h : history) :
  (fs_promises = None ->
   exists e, htmlToJson inputDir outputFormat h = Failure e) /\
  (forall api load files,
     fs_promises = Some api -> cheerio = Normal load ->
     readdir api h inputDir = Normal files ->
     (forall f, In f files -> exists c,
          readFile api h (path_join [inputDir; f]) = Normal c) ->
     let pages :=
       filter (fun f => endsWith (toLowerCase f) (js ".html")
                        || endsWith (toLowerCase f) (js ".htm")) files in
     (pages = [] ->
      htmlToJson inputDir outputFormat h
      = Failure (js "No valid HTML files were processed")) /\
     (pages <> [] ->
      exists data,
        htmlToJson inputDir outputFormat h
        = Success (data, match outputFormat with
                         | Some format => format
                         | None => js "js"
                         end) /\
        map dm_id data = map (fun f => dmcId (parse_name f)) pages /\
        Forall (fun d => dm_type d = js "data_module") data)) /\
  (forall baseName,
     (~ In 95%N baseName /\ dmcId baseName = baseName) \/
     (exists after,
        baseName = dmcId baseName ++ 95%N :: after /\ ~ In 95%N after)).
Proof.
  split; [|split].
  - intros Hnone. unfold ConverterTools.htmlToJson. rewrite Hnone.
    destruct cheerio; eexists; reflexivity.
  - intros api load files Hapi Hload Hdir Hread pages.
    destruct (html_each_all api load inputDir h files Hread [])
      as (data & Hrun & Hids & Htypes).
    fold pages in Hids. cbn [app] in Hrun.
    unfold ConverterTools.htmlToJson. rewrite Hload, Hapi, Hdir, Hrun.
    split.
    + intros Hnone. rewrite Hnone in Hids.
      destruct data; [reflexivity|discriminate].
    + intros Hsome. destruct data as [|d data].
      * destruct pages; [contradiction|discriminate].
      * exists (d :: data). now repeat split.
  - intros baseName. unfold dmcId.
    destruct (lastIndexOf baseName 95%N) as [i|] eqn:E.
    + right. now apply lastIndexOf_some.
    + left. split; [now apply lastIndexOf_none|reflexivity].
Qed.

End Tools.

Lemma renameFiles_renames_witness :
  exists k done,
    snd (renameFiles sample_join sample_fs sample_replace
                     (js "docs") (js "D") (js "d") [])
    = [] ++ done /\
    Forall2 (renaming sample_join sample_replace (js "docs") (js "D") (js "d"))
            (firstn k [js "DMC-A_001.html"; js "DMC-B.HTM"]) done /\
    match fst (renameFiles sample_join sample_fs sample_replace
                           (js "docs") (js "D") (js "d") []) with
    | Success (message, count) =>
        k = 2 /\ count = 2 /\
        message = js "Renamed " ++ String_of_nat count ++ js " files"
    | Failure _ => k < 2
    end.
Proof.
  apply (renameFiles_renames sample_join sample_fs sample_replace
           (js "docs") (js "D") (js "d") []
           [js "DMC-A_001.html"; js "notes.txt"; js "DMC-B.HTM"]).
  reflexivity.
Defined.

Lemma htmlToJson_outcome_witness :
  exists data,
    htmlToJson sample_join (Some sample_fs) ascii_lower sample_name
               (Normal (fun html => (js " A ", None))) (js "pages") None []
    = Success (data, js "js") /\
    map dm_id data = [js "DMC-A"; js "DMC-B"] /\
    Forall (fun d => dm_type d = js "data_module") data.
Proof.
  destruct (htmlToJson_outcome sample_join (Some sample_fs) ascii_lower
              sample_name (Normal (fun html => (js " A ", None)))
              (js "pages") None []) as (_ & Hruns & _).
  destruct (Hruns sample_fs (fun html => (js " A ", None))
              [js "DMC-A_001.html"; js "notes.txt"; js "DMC-B.HTM"]
              eq_refl eq_refl eq_refl) as [_ Hsome].
  - intros f _. eexists. reflexivity.
  - apply Hsome. discriminate.
Defined.

End ToolFacts.

(* ================================================================= *)
(** ** Commands run through the shell *)

Module CommandFacts.

Lemma includes_space (s : jsstring) :
  includes s (js " ") = false -> ~ In 32%N s.
Proof.
  induction s as [|c s IH]; intros H; [intros []|].
  change (js " ") with [32%N] in *.
  cbn [includes starts_with] in H.
  apply orb_false_iff in H. destruct H as [Hc Hs].
  rewrite andb_true_r in Hc. apply N.eqb_neq in Hc.
  intros [Hin|Hin]; [congruence|]. now apply IH.
Qed.

(** Characters that are neither quotes nor separating spaces go to the
    current word. *)
Lemma words_from_plain (p rest : jsstring) :
  ~ In 34%N p ->
  forall quoted word,
    quoted = true \/ ~ In 32%N p ->
    words_from (p ++ rest) quoted word = words_from rest quoted (word ++ p).
Proof.
  induction p as [|c p IH]; intros Hq quoted word Hs.
  - cbn. now rewrite app_nil_r.
  - cbn [app words_from].
    assert (Ec : N.eqb c 34 = false).
    { apply N.eqb_neq. intros ->. apply Hq. now left. }
    rewrite Ec.
    assert (Es : N.eqb c 32 && negb quoted = false).
    { destruct Hs as [->|Hs]; [apply andb_false_r|].
      apply andb_false_iff. left. apply N.eqb_neq. intros ->.
      apply Hs. now left. }
    rewrite Es, IH.
    + now rewrite <- app_assoc.
    + intros H. apply Hq. now right.
    + destruct Hs as [Hs|Hs]; [now left|]. right. intros H. apply Hs.
      now right.
Qed.

Lemma words_from_quoted (p rest word : jsstring) :
  ~ In 34%N p ->
  words_from (quoted p ++ rest) false word
  = words_from rest false (word ++ p).
Proof.
  intros Hq. unfold quoted. destruct (includes p (js " ")) eqn:E.
  - unfold dq. cbn [app words_from N.eqb Pos.eqb negb].
    rewrite <- app_assoc.
    rewrite words_from_plain by (try exact Hq; now left).
    reflexivity.
  - apply words_from_plain; [exact Hq|]. right. now apply includes_space.
Qed.

Lemma command_words_join (p : jsstring) (ps : list jsstring) :
  Forall (fun s => ~ In 34%N s) (p :: ps) ->
  command_words (join (js " ") (map quoted (p :: ps))) = p :: ps.
Proof.
  unfold command_words. revert p.
  induction ps as [|p' ps IH]; intros p Hall;
    inversion Hall as [|? ? Hp Hps]; subst.
  - cbn [map join]. rewrite <- (app_nil_r (quoted p)).
    now rewrite words_from_quoted.
  - change (join (js " ") (map quoted (p :: p' :: ps)))
      with (quoted p ++ js " " ++ join (js " ") (map quoted (p' :: ps))).
    rewrite words_from_quoted by exact Hp.
    change (js " " ++ join (js " ") (map quoted (p' :: ps)))
      with (32%N :: join (js " ") (map quoted (p' :: ps))).
    cbn [words_from N.eqb Pos.eqb andb negb app].
    now rewrite IH.
Qed.

(** X19. For a [.bat] or [.cmd] command [execCommand] asks for a shell
    and hands over one command line without arguments; read word by
    word, spaces between double quotes not separating, the line gives the
    command and the arguments back, as long as none of them contains a
    double quote. Any other command is handed over as it is, with its
    arguments and without shell. *)
Theorem execCommand_command_line (command : jsstring) (args : list jsstring) :
  Forall (fun s => ~ In 34%N s) (command :: args) ->
  let request := execCommand_spawn command args in
  (endsWith command (js ".bat") || endsWith command (js ".cmd") = true ->
   spawn_shell request = true /\ spawn_args request = [] /\
   command_words (spawn_file request) = command :: args) /\
  (endsWith command (js ".bat") || endsWith command (js ".cmd") = false ->
   request = mk_spawn_request command args false).
Proof.
  intros Hall request. unfold request, execCommand_spawn. cbv zeta.
  destruct (endsWith command (js ".bat") || endsWith command (js ".cmd")).
  - split; [|discriminate]. intros _. cbn [spawn_shell spawn_args spawn_file].
    split; [reflexivity|]. split; [reflexivity|].
    exact (command_words_join command args Hall).
  - split; [discriminate|]. reflexivity.
Qed.

Lemma execCommand_command_line_witness :
  command_words
    (spawn_file
       (execCommand_spawn (js "C:\Program Files\tools\asciidoctor.bat")
                          [js "-o"; js "out dir\a.xml"; js "a.adoc"]))
  = [js "C:\Program Files\tools\asciidoctor.bat";
     js "-o"; js "out dir\a.xml"; js "a.adoc"].
Proof.
  apply (execCommand_command_line
           (js "C:\Program Files\tools\asciidoctor.bat")
           [js "-o"; js "out dir\a.xml"; js "a.adoc"]).
  - repeat constructor; vm_compute; intuition discriminate.
  - reflexivity.
Defined.

End CommandFacts.
